(** * cord.js: content addressing and lifecycle guards

    A shallow embedding of the schema-accounts, namespace and entries
    packages of the CORD SDK, together with the properties the
    specification states about them.

    Conventions of the embedding:
    - a JavaScript value is a [json] term; an object is an association
      list in insertion order (key order is observable: it is what
      canonicalisation removes);
    - JavaScript numbers are restricted to integers ([Z]);
    - a function that can throw returns [Exc]; an [async] function that
      talks to the chain is a state transformer over [World];
    - code of other packages (CBOR, hashing, SCALE, identifier helpers,
      the chain) is taken through the interfaces [Utils], [Api],
      [Types], [Identifier], [Runtime] and [Gateway]. *)

From Stdlib Require Import List String Ascii ZArith NArith Lia Bool Permutation.
From Stdlib.Strings Require Import Byte.
From Stdlib Require Import OrderedTypeEx.
From stdpp Require Import base option list strings gmap pretty.

Set Warnings "-register-all".

Local Open Scope string_scope.
Local Open Scope list_scope.

(** ** JavaScript values *)

Inductive json : Type :=
| JNull
| JBool (b : bool)
| JNum (n : Z)
| JStr (s : string)
| JArr (items : list json)
| JObj (fields : list (string * json)).

(** An object: own enumerable string keys in insertion order. *)
Abbreviation object := (list (string * json)).

(** Equality of values, keys compared in the order they were written
    (the constants of the meta-schema are strings and booleans). *)
Fixpoint json_eqb (a b : json) {struct a} : bool :=
  match a, b with
  | JNull, JNull => true
  | JBool x, JBool y => Bool.eqb x y
  | JNum x, JNum y => Z.eqb x y
  | JStr x, JStr y => String.eqb x y
  | JArr xs, JArr ys =>
      (fix go (l : list json) (r : list json) {struct l} : bool :=
         match l, r with
         | [], [] => true
         | x :: l', y :: r' => json_eqb x y && go l' r'
         | _, _ => false
         end) xs ys
  | JObj fs, JObj gs =>
      (fix go (l : object) (r : object) {struct l} : bool :=
         match l, r with
         | [], [] => true
         | kv :: l', kw :: r' =>
             String.eqb (fst kv) (fst kw) && json_eqb (snd kv) (snd kw) && go l' r'
         | _, _ => false
         end) fs gs
  | _, _ => false
  end.

(** [o[k]]: [None] is JavaScript's [undefined]. *)
Fixpoint js_get (k : string) (o : object) : option json :=
  match o with
  | [] => None
  | (k', v) :: o' => if String.eqb k k' then Some v else js_get k o'
  end.

Definition js_has (k : string) (o : object) : bool :=
  match js_get k o with Some _ => true | None => false end.

(** [o[k] = v]: an existing key keeps its position, a new key goes last. *)
Fixpoint js_set (k : string) (v : json) (o : object) : object :=
  match o with
  | [] => [(k, v)]
  | (k', v') :: o' =>
      if String.eqb k k' then (k, v) :: o' else (k', v') :: js_set k v o'
  end.

(** The rest of [const { k, ...rest } = o]. *)
Definition js_rest (k : string) (o : object) : object :=
  List.filter (fun kv => negb (String.eqb k (fst kv))) o.

(** [j] without its own key [k], when [j] is an object. *)
Definition without (k : string) (j : json) : json :=
  match j with
  | JObj fs => JObj (js_rest k fs)
  | _ => j
  end.

(** The [$schema] field a value declares, if it is an object that has one. *)
Definition declared_schema (v : json) : option json :=
  match v with
  | JObj fs => js_get "$schema" fs
  | _ => None
  end.

(** Object spread [{ ...base, ...o }]. *)
Definition js_spread (base o : object) : object :=
  fold_left (fun acc kv => js_set (fst kv) (snd kv) acc) o base.

Fixpoint distinct (l : list string) : bool :=
  match l with
  | [] => true
  | k :: l' => negb (existsb (String.eqb k) l') && distinct l'
  end.

(** A [json] term denotes a JavaScript value when no object repeats a key. *)
Fixpoint well_formed (j : json) : bool :=
  match j with
  | JObj fs =>
      distinct (List.map fst fs) && forallb (fun kv => well_formed (snd kv)) fs
  | JArr xs => forallb well_formed xs
  | _ => true
  end.

(** Reordering the keys of objects, at any depth. *)
Inductive key_perm : json -> json -> Prop :=
| kp_refl j : key_perm j j
| kp_trans a b c : key_perm a b -> key_perm b c -> key_perm a c
| kp_keys fs gs : Permutation fs gs -> key_perm (JObj fs) (JObj gs)
| kp_field pre k v v' post :
    key_perm v v' ->
    key_perm (JObj (pre ++ (k, v) :: post)) (JObj (pre ++ (k, v') :: post))
| kp_item pre x x' post :
    key_perm x x' ->
    key_perm (JArr (pre ++ x :: post)) (JArr (pre ++ x' :: post)).

(** ** Thrown values *)

Inductive ErrorClass :=
| ObjectUnverifiableError
| SchemaIdMismatchError
| CordDispatchError
| CordQueryError
| ForeignError.

(** What a [throw] carries: an [Error] instance (its class and message)
    or any other value. *)
Inductive thrown :=
| ErrorObject (cls : ErrorClass) (message : string)
| ThrownValue (v : json).

Inductive Exc (A : Type) : Type :=
| Ok (a : A)
| Throw (e : thrown).
Arguments Ok {A} a.
Arguments Throw {A} e.

Definition exc_bind {A B} (m : Exc A) (k : A -> Exc B) : Exc B :=
  match m with Ok a => k a | Throw e => Throw e end.

Declare Scope exc_scope.
Delimit Scope exc_scope with exc.
Notation "'do' x <- m ; k" := (exc_bind m (fun x => k))
  (at level 10, x name, m at level 100, k at level 200) : exc_scope.

(** ** Buffer.toString('base64') *)

Definition b64_alphabet : string :=
  "ABCDEFGHIJKLMNOPQRSTUVWXYZabcdefghijklmnopqrstuvwxyz0123456789+/".

Definition b64_digit (n : N) : ascii :=
  match String.get (N.to_nat n) b64_alphabet with
  | Some c => c
  | None => "="%char
  end.

Fixpoint base64 (bs : list byte) : string :=
  match bs with
  | [] => ""
  | [a] =>
      let x := Byte.to_N a in
      String (b64_digit (x / 4))
        (String (b64_digit ((x mod 4) * 16)) "==")
  | [a; b] =>
      let x := Byte.to_N a in
      let y := Byte.to_N b in
      String (b64_digit (x / 4))
        (String (b64_digit ((x mod 4) * 16 + y / 16))
           (String (b64_digit ((y mod 16) * 4)) "="))
  | a :: b :: c :: rest =>
      let x := Byte.to_N a in
      let y := Byte.to_N b in
      let z := Byte.to_N c in
      String (b64_digit (x / 4))
        (String (b64_digit ((x mod 4) * 16 + y / 16))
           (String (b64_digit ((y mod 16) * 4 + z / 64))
              (String (b64_digit (z mod 64)) (base64 rest))))
  end.

(** ** Key sorting *)

(** Modelled from the spec: [jsonabc.sortObj], of the utils package, is
    not among these sources. Section 4.1: the encoder "recursively sorts
    object keys in a fixed, locale-independent lexicographic order at
    every nesting level". Keys are compared by character code
    ([String.leb]); arrays keep their order and have their elements
    sorted. *)
Fixpoint insert_key (kv : string * json) (l : object) : object :=
  match l with
  | [] => [kv]
  | kw :: l' =>
      if String.leb (fst kv) (fst kw) then kv :: l else kw :: insert_key kv l'
  end.

Definition sort_keys (l : object) : object := fold_right insert_key [] l.

Definition key_le (a b : string * json) : Prop := String.leb (fst a) (fst b) = true.

Fixpoint sortObj (j : json) : json :=
  match j with
  | JObj fs => JObj (sort_keys (List.map (fun kv => (fst kv, sortObj (snd kv))) fs))
  | JArr xs => JArr (List.map sortObj xs)
  | _ => j
  end.

(** ** Interfaces of the packages the code imports *)

Definition HexString := string.

(** [@cord.network/utils]: [Cbor] and [Crypto]. *)
Class Utils := {
  (** [new Cbor.Encoder({ pack: true, useRecords: true }).encode(v)] *)
  cbor_encode : json -> list byte;
  (** [Crypto.hashStr(value)] *)
  hashStr : string -> HexString;
}.

(** The SCALE types of the chain API, [api.createType(...).toU8a()]. The
    [api] handle of [ConfigService] is taken as configured. *)
Class Api := {
  (** [api.createType('Bytes', s).toU8a()] *)
  scale_Bytes : string -> list byte;
  (** [api.createType('AccountId', address).toU8a()] *)
  scale_AccountId : string -> Exc (list byte);
}.

(** [@cord.network/types]: the hash it re-exports and the schema prefix
    (declared next to [SCHEMA_ACCOUNTS_IDENT]). *)
Class Types := {
  blake2AsHex : list byte -> HexString;
  SCHEMA_PREFIX : string;
}.

(** [@cord.network/identifier]. *)
Class Identifier := {
  hashToUri : HexString -> Z -> string -> string;
  uriToIdentifier : option json -> Exc string;
  (** the [identifier] and [digest] fields of the returned object *)
  uriToEntryIdAndDigest : string -> Exc (string * string);
}.

(** What the language runtime and the error classes contribute to
    messages, and the [format] assertion of the JSON-schema validator. *)
Class Runtime := {
  (** [JSON.stringify(v)] *)
  JSON_stringify : json -> string;
  (** the template-string conversion of a caught value *)
  String_of_thrown : thrown -> string;
  (** the message [SchemaIdMismatchError(expected, actual)] builds *)
  SchemaIdMismatch_message : string -> option json -> string;
  (** [format: 'uri'] *)
  format_uri : string -> bool;
}.

Definition SCHEMA_ACCOUNTS_IDENT : Z := 10501.
Definition NAMESPACE_IDENT : Z := 12501.
Definition NAMESPACE_PREFIX : string := "namespace:cord:".
Definition NAMESPACEAUTH_IDENT : Z := 13101.
Definition NAMESPACEAUTH_PREFIX : string := "namespaceauth:cord:".

(** ** JSON-schema keywords (draft-07), as predicates on the instance *)

Inductive JType := TObject | TArray | TString | TNumber | TInteger | TBoolean | TNull.

Definition kw_type (t : JType) (v : json) : bool :=
  match t, v with
  | TObject, JObj _ => true
  | TArray, JArr _ => true
  | TString, JStr _ => true
  | TNumber, JNum _ => true
  | TInteger, JNum _ => true
  | TBoolean, JBool _ => true
  | TNull, JNull => true
  | _, _ => false
  end.

Definition kw_const (c : json) (v : json) : bool := json_eqb c v.

Definition kw_enum (cs : list json) (v : json) : bool :=
  existsb (fun c => json_eqb c v) cs.

Definition kw_pattern (re : string -> bool) (v : json) : bool :=
  match v with JStr s => re s | _ => true end.

Definition kw_format (fmt : string -> bool) (v : json) : bool :=
  match v with JStr s => fmt s | _ => true end.

Definition kw_required (names : list string) (v : json) : bool :=
  match v with
  | JObj fs => forallb (fun k => js_has k fs) names
  | _ => true
  end.

(** One entry [name: s] of [properties]. *)
Definition kw_property (name : string) (s : json -> bool) (v : json) : bool :=
  match v with
  | JObj fs =>
      forallb (fun kv => if String.eqb (fst kv) name then s (snd kv) else true) fs
  | _ => true
  end.

(** One entry [re: s] of [patternProperties]. *)
Definition kw_patternProperty (re : string -> bool) (s : json -> bool) (v : json) : bool :=
  match v with
  | JObj fs => forallb (fun kv => if re (fst kv) then s (snd kv) else true) fs
  | _ => true
  end.

(** [additionalProperties: false], next to [properties] with the keys
    [names] and [patternProperties] with the patterns [res]. *)
Definition kw_additionalProperties_false
    (names : list string) (res : list (string -> bool)) (v : json) : bool :=
  match v with
  | JObj fs =>
      forallb (fun kv => existsb (String.eqb (fst kv)) names
                         || existsb (fun re => re (fst kv)) res) fs
  | _ => true
  end.

Definition kw_items (s : json -> bool) (v : json) : bool :=
  match v with JArr xs => forallb s xs | _ => true end.

Definition allOf (rs : list bool) : bool := forallb (fun b => b) rs.

Definition oneOf (rs : list bool) : bool :=
  Nat.eqb (List.length (List.filter (fun b => b) rs)) 1.

(** *** The regular expressions of the meta-schema *)

Definition is_alnum (c : ascii) : bool :=
  let n := N_of_ascii c in
  ((48 <=? n) && (n <=? 57) || (65 <=? n) && (n <=? 90) || (97 <=? n) && (n <=? 122))%N.

Definition is_line_terminator (c : ascii) : bool :=
  let n := N_of_ascii c in ((n =? 10) || (n =? 13))%N.

Fixpoint all_chars (p : ascii -> bool) (s : string) : bool :=
  match s with
  | EmptyString => true
  | String c s' => p c && all_chars p s'
  end.

Fixpoint strip_prefix (p s : string) : option string :=
  match p, s with
  | EmptyString, _ => Some s
  | String a p', String b s' => if Ascii.eqb a b then strip_prefix p' s' else None
  | String _ _, EmptyString => None
  end.

(** The longest prefix of characters satisfying [p], and what follows. *)
Fixpoint span_chars (p : ascii -> bool) (s : string) : string * string :=
  match s with
  | EmptyString => (EmptyString, EmptyString)
  | String c s' =>
      if p c then let '(a, b) := span_chars p s' in (String c a, b)
      else (EmptyString, s)
  end.

Definition nonempty (s : string) : bool :=
  match s with EmptyString => false | String _ _ => true end.

(** [^.+$] *)
Definition re_any_key (s : string) : bool :=
  nonempty s && all_chars (fun c => negb (is_line_terminator c)) s.

(** [^schema:cord:m[0-9a-zA-Z]+$] *)
Definition re_schema_id (s : string) : bool :=
  match strip_prefix "schema:cord:m" s with
  | Some rest => nonempty rest && all_chars is_alnum rest
  | None => false
  end.

(** [^schema:cord:m[0-9a-zA-Z]+(#/properties/.+)?$] *)
Definition re_schema_ref (s : string) : bool :=
  match strip_prefix "schema:cord:m" s with
  | Some rest =>
      let '(word, tail) := span_chars is_alnum rest in
      nonempty word
      && match tail with
         | EmptyString => true
         | _ => match strip_prefix "#/properties/" tail with
                | Some path => re_any_key path
                | None => false
                end
         end
  | None => false
  end.

(** ** Schema.types.ts *)

Definition SchemaModelV1_id : string := "http://cord.network/draft-01/schema#".

Section MetaSchema.
Context `{Runtime}.

(** [#/definitions/schemaReference] *)
Definition def_schemaReference (v : json) : bool :=
  allOf [ kw_additionalProperties_false ["$ref"] [] v;
          kw_property "$ref"
            (fun x => allOf [kw_pattern re_schema_ref x; kw_format format_uri x;
                             kw_type TString x]) v;
          kw_required ["$ref"] v ].

(** [#/definitions/string] *)
Definition def_string (v : json) : bool :=
  allOf [ kw_additionalProperties_false
            ["type"; "format"; "enum"; "minLength"; "maxLength"] [] v;
          kw_property "type" (kw_const (JStr "string")) v;
          kw_property "format"
            (kw_enum [JStr "date"; JStr "time"; JStr "uri"]) v;
          kw_property "enum"
            (fun x => allOf [kw_type TArray x; kw_items (kw_type TString) x]) v;
          kw_property "minLength" (kw_type TNumber) v;
          kw_property "maxLength" (kw_type TNumber) v;
          kw_required ["type"] v ].

(** [#/definitions/boolean] *)
Definition def_boolean (v : json) : bool :=
  allOf [ kw_additionalProperties_false ["type"] [] v;
          kw_property "type" (kw_const (JStr "boolean")) v;
          kw_required ["type"] v ].

(** [#/definitions/number] *)
Definition def_number (v : json) : bool :=
  allOf [ kw_additionalProperties_false
            ["type"; "enum"; "minimum"; "maximum"] [] v;
          kw_property "type" (kw_enum [JStr "integer"; JStr "number"]) v;
          kw_property "enum"
            (fun x => allOf [kw_type TArray x; kw_items (kw_type TNumber) x]) v;
          kw_property "minimum" (kw_type TNumber) v;
          kw_property "maximum" (kw_type TNumber) v;
          kw_required ["type"] v ].

(** [#/definitions/array] *)
Definition def_array (v : json) : bool :=
  allOf [ kw_additionalProperties_false
            ["type"; "items"; "minItems"; "maxItems"] [] v;
          kw_property "type" (kw_const (JStr "array")) v;
          kw_property "items"
            (fun x => oneOf [def_string x; def_number x; def_boolean x;
                             def_schemaReference x]) v;
          kw_property "minItems" (kw_type TNumber) v;
          kw_property "maxItems" (kw_type TNumber) v;
          kw_required ["type"; "items"] v ].

(** [#/definitions/object]; it refers to itself, below the instance.
    Its [properties] has three entries: [type], [properties] and
    [patternProperties]. The last one is a property of that name, whose
    schema [{ '^.+$': ... }] holds no keyword and lets every value
    through. *)
Fixpoint def_object (v : json) : bool :=
  allOf [ kw_additionalProperties_false
            ["type"; "properties"; "patternProperties"] [] v;
          kw_property "type" (kw_const (JStr "object")) v;
          kw_property "properties"
            (fun p =>
               allOf [ kw_type TObject p;
                       kw_patternProperty re_any_key
                         (fun x => oneOf [def_string x; def_number x; def_boolean x;
                                          def_schemaReference x; def_array x;
                                          def_object x]) p ]) v;
          kw_property "patternProperties" (fun _ => true) v;
          kw_required ["type"] v ].

(** The meta-schema [SchemaModelV1] ([$id], [$schema], [title],
    [description] and [definitions] assert nothing). *)
Definition SchemaModelV1 (v : json) : bool :=
  allOf [ kw_type TObject v;
          kw_property "$id"
            (fun x => allOf [kw_pattern re_schema_id x; kw_type TString x]) v;
          kw_property "$schema" (kw_type TString) v;
          kw_property "$metadata"
            (fun m => allOf [ kw_type TObject m;
                              kw_property "version" (kw_type TString) m;
                              kw_property "slug" (kw_type TString) m;
                              kw_property "discoverable" (kw_type TBoolean) m ]) v;
          kw_property "title" (kw_type TString) v;
          kw_property "description" (kw_type TString) v;
          kw_property "type"
            (fun x => allOf [kw_const (JStr "object") x; kw_type TString x]) v;
          kw_property "properties"
            (fun p =>
               allOf [ kw_patternProperty re_any_key
                         (fun x => oneOf [def_string x; def_number x; def_boolean x;
                                          def_schemaReference x; def_array x;
                                          def_object x]) p;
                       kw_type TObject p ]) v;
          kw_property "additionalProperties"
            (fun x => allOf [kw_const (JBool false) x; kw_type TBoolean x]) v;
          kw_property "required"
            (fun x => allOf [kw_type TArray x; kw_items (kw_type TString) x]) v;
          kw_additionalProperties_false
            ["$id"; "$schema"; "$metadata"; "title"; "description"; "type";
             "properties"; "additionalProperties"; "required"] [] v;
          kw_required
            ["$id"; "$schema"; "additionalProperties"; "properties"; "title"; "type"] v ].

(** [SchemaModel]: [allOf] of the [$schema] constant and a reference
    to [SchemaModelV1]. *)
Definition SchemaModel (v : json) : bool :=
  allOf [ kw_property "$schema"
            (fun x => allOf [kw_type TString x; kw_const (JStr SchemaModelV1_id) x]) v;
          SchemaModelV1 v ].
End MetaSchema.

(** ** SchemaAccounts.ts and SchemaAccounts.chain.ts (pure part) *)

(** The result [{ uri, digest }] of [getUriForSchema]. *)
Record SchemaUriAndDigest := { uri : string; digest : HexString }.

Record ISchemaAccountsDetails := {
  details_schema : object;
  details_digest : HexString;
  details_creatorUri : string;
}.

Section SchemaAccounts.
Context `{Utils} `{Api} `{Types} `{Identifier} `{Runtime}.

Definition encodeCborSchema (schema : object) : string :=
  let schemaWithoutId := js_rest "$id" schema in
  let sortedSchema := sortObj (JObj schemaWithoutId) in
  let encodedSchema := cbor_encode sortedSchema in
  let cborSchema := base64 encodedSchema in
  cborSchema.

Definition getHashForSchema (schema : object) : HexString :=
  let encodedSchema := encodeCborSchema schema in
  hashStr encodedSchema.

(** The optional [messages] and [referencedSchemas] arguments are not
    passed by any caller in these packages and are left out. *)
Definition verifyObjectAgainstSchema (obj : json) (schema : json -> bool) : Exc unit :=
  let valid := schema obj in
  if valid then Ok tt
  else Throw (ErrorObject ObjectUnverifiableError
                "JSON schema verification failed for object").

Definition getUriForSchema (schema : object) : SchemaUriAndDigest :=
  let serializedSchema := encodeCborSchema schema in
  let digest := hashStr serializedSchema in
  let scaleEncodedSchema := scale_Bytes serializedSchema in
  let IdDigest := blake2AsHex scaleEncodedSchema in
  let schemaUri := hashToUri IdDigest SCHEMA_ACCOUNTS_IDENT SCHEMA_PREFIX in
  {| uri := schemaUri; digest := digest |}.

(** The two errors of the structural validator. *)
Definition unverifiable : thrown :=
  ErrorObject ObjectUnverifiableError "JSON schema verification failed for object".

Definition id_mismatch (input : object) : thrown :=
  ErrorObject SchemaIdMismatchError
    (SchemaIdMismatch_message (uri (getUriForSchema input)) (js_get "$id" input)).

(** [a !== b] for a string [a] and a property value [b]. *)
Definition strict_ne (a : string) (b : option json) : bool :=
  match b with
  | Some (JStr s) => negb (String.eqb a s)
  | _ => true
  end.

Definition verifySchemaStructure (input : object) : Exc unit :=
  (do _ <- verifyObjectAgainstSchema (JObj input) SchemaModel;
   let uriFromSchema := getUriForSchema input in
   if strict_ne uriFromSchema.(uri) (js_get "$id" input)
   then Throw (ErrorObject SchemaIdMismatchError
                 (SchemaIdMismatch_message uriFromSchema.(uri) (js_get "$id" input)))
   else Ok tt)%exc.

Definition verifyDataStructure (input : json) : Exc unit :=
  verifyObjectAgainstSchema input SchemaModel.

Definition buildFromProperties (schema : object) (creatorAddress : string)
  : Exc ISchemaAccountsDetails :=
  let uriSchema := js_rest "$id" schema in
  let uriSchema := js_set "additionalProperties" (JBool false) uriSchema in
  let uriSchema := js_set "$schema" (JStr SchemaModelV1_id) uriSchema in
  let r := getUriForSchema uriSchema in
  let schemaType := js_spread [("$id", JStr r.(uri))] uriSchema in
  let creatorUri := "did:cord:3" +:+ creatorAddress in
  let schemaDetails :=
    {| details_schema := schemaType;
       details_digest := r.(digest);
       details_creatorUri := creatorUri |} in
  (do _ <- verifySchemaStructure schemaType;
   Ok schemaDetails)%exc.

(** [try { verifyDataStructure(input) } catch (error) { return false }
    return true] *)
Definition isISchema (input : json) : bool :=
  match verifyDataStructure input with
  | Throw _ => false
  | Ok _ => true
  end.
End SchemaAccounts.

(** ** Namespace.ts *)

Section Namespace.
Context `{Api} `{Types} `{Identifier}.

(** The bytes handed to [blake2AsHex]:
    [[...scaleEncodedNamespaceId, ...scaleEncodedAuthDelegate,
      ...scaleEncodedAuthCreator]]. *)
Definition authorizationDigestInput
    (namespaceUri delegateAddress creatorAddress : string) : Exc (list byte) :=
  (do namespaceId <- uriToIdentifier (Some (JStr namespaceUri));
   let scaleEncodedNamespaceId := scale_Bytes namespaceId in
   do scaleEncodedAuthDelegate <- scale_AccountId delegateAddress;
   do scaleEncodedAuthCreator <- scale_AccountId creatorAddress;
   Ok (scaleEncodedNamespaceId ++ scaleEncodedAuthDelegate ++ scaleEncodedAuthCreator))%exc.

(** The function reads no chain state: its promise is settled by the
    encoders alone. *)
Definition getUriForAuthorization
    (namespaceUri delegateAddress creatorAddress : string) : Exc string :=
  (do input <- authorizationDigestInput namespaceUri delegateAddress creatorAddress;
   let authDigest := blake2AsHex input in
   let authorizationUri := hashToUri authDigest NAMESPACEAUTH_IDENT NAMESPACEAUTH_PREFIX in
   Ok authorizationUri)%exc.
End Namespace.

(** ** The chain, seen from the SDK *)

Definition Account := string.

(** [IRegistryEntry], with the fields the documentation of
    [dispatchUpdateEntryToChain] lists. *)
Record IRegistryEntry := {
  entry_uri : string;
  entry_creatorUri : string;
  entry_digest : HexString;
  entry_blob : option string;
  entry_registryUri : string;
  entry_authorizationUri : string;
}.

(** A stored entry, as [decodeRegistryEntryDetailsFromChain] reads it. *)
Record PalletEntriesRegistryEntryDetails := {
  stored_digest : HexString;
  stored_revoked : bool;
  stored_creator : Account;
  stored_registryId : string;
}.

(** A stored schema, as [fromChain] reads it. *)
Record PalletSchemaAccountsSchemaEntry := {
  stored_schema : string;
  stored_schema_digest : HexString;
  stored_schema_creator : Account;
}.

(** The calls [api.tx.<pallet>.<call>(...)] builds. *)
Inductive Extrinsic :=
| entries_create (registryEntryId authorizationId : string)
    (digest : HexString) (blob : option string)
| entries_update (registryEntryId authorizationId : string)
    (digest : HexString) (blob : option string)
| entries_revoke (registryEntryId authorizationId : string)
| entries_reinstate (registryEntryId authorizationId : string)
| entries_updateOwnership (registryEntryId authorizationId : string)
    (newOwnerAccount : Account) (newOwnerAuthorizationId : string)
| schemaAccounts_create (encodedSchema : string).

(** The ledger gateway: storage reads and submission. A read or a
    submission can fail; only a submission can change the chain. *)
Class Gateway (Chain : Type) := {
  (** [api.query.entries.registryEntries(id)] *)
  query_registryEntries :
    string -> Chain -> Exc (option PalletEntriesRegistryEntryDetails);
  (** [api.query.schemaAccounts.schemas(id)] *)
  query_schemas :
    string -> Chain -> Exc (option PalletSchemaAccountsSchemaEntry);
  (** [Chain.signAndSubmitTx(extrinsic, account)] *)
  submit : Extrinsic -> Account -> Chain -> Exc unit * Chain;
}.

Inductive Storage := RegistryEntries | Schemas.

(** What the SDK did to the gateway, in order. *)
Inductive Event :=
| Queried (storage : Storage) (key : string)
| Submitted (tx : Extrinsic) (signer : Account).

Record World (Chain : Type) := {
  chain : Chain;
  events : list Event;
}.
Arguments chain {Chain} w.
Arguments events {Chain} w.

Definition submissions (es : list Event) : list (Extrinsic * Account) :=
  omap (fun e => match e with
                 | Submitted tx signer => Some (tx, signer)
                 | Queried _ _ => None
                 end) es.

(** An [async] function over the gateway. *)
Definition Async (Chain A : Type) : Type := World Chain -> Exc A * World Chain.

Section AsyncMonad.
Context {Chain : Type}.

Definition async_ret {A} (a : A) : Async Chain A := fun w => (Ok a, w).

Definition async_throw {A} (e : thrown) : Async Chain A := fun w => (Throw e, w).

Definition async_lift {A} (m : Exc A) : Async Chain A := fun w => (m, w).

Definition async_bind {A B} (m : Async Chain A) (k : A -> Async Chain B)
  : Async Chain B :=
  fun w => match m w with
           | (Ok a, w') => k a w'
           | (Throw e, w') => (Throw e, w')
           end.

(** [try { m } catch (error) { handler }] *)
Definition try_catch {A} (m : Async Chain A) (handler : thrown -> Async Chain A)
  : Async Chain A :=
  fun w => match m w with
           | (Ok a, w') => (Ok a, w')
           | (Throw e, w') => handler e w'
           end.
End AsyncMonad.

Declare Scope async_scope.
Delimit Scope async_scope with async.
Notation "'do' x <- m ; k" := (async_bind m (fun x => k))
  (at level 10, x name, m at level 100, k at level 200) : async_scope.

Definition dq : string := String "034"%char EmptyString.

Definition isNone {A} (o : option A) : bool :=
  match o with None => true | Some _ => false end.

Section ChainCalls.
Context {Chain : Type} `{Gateway Chain}.
Context `{Utils} `{Api} `{Types} `{Identifier} `{Runtime}.

Definition await_registryEntries (registryEntryId : string)
  : Async Chain (option PalletEntriesRegistryEntryDetails) :=
  fun w => (query_registryEntries registryEntryId (chain w),
            {| chain := chain w;
               events := events w ++ [Queried RegistryEntries registryEntryId] |}).

Definition await_schemas (identifier : string)
  : Async Chain (option PalletSchemaAccountsSchemaEntry) :=
  fun w => (query_schemas identifier (chain w),
            {| chain := chain w;
               events := events w ++ [Queried Schemas identifier] |}).

Definition signAndSubmitTx (extrinsic : Extrinsic) (account : Account)
  : Async Chain unit :=
  fun w => let '(r, c) := submit extrinsic account (chain w) in
           (r, {| chain := c; events := events w ++ [Submitted extrinsic account] |}).

(** [error instanceof Error ? error.message : JSON.stringify(error)] *)
Definition errorMessage_of (error : thrown) : string :=
  match error with
  | ErrorObject _ message => message
  | ThrownValue v => JSON_stringify v
  end.

Definition already_exists_message (uri : string) : string :=
  "Registry Entry already exists at URI: " +:+ dq +:+ uri +:+ dq +:+ ".".

Definition does_not_exist_message (uri : string) : string :=
  "Registry Entry does not exists at URI: " +:+ dq +:+ uri +:+ dq +:+ ".".

Definition dispatch_message (errorMessage : string) : string :=
  "Error dispatching to chain: " +:+ dq +:+ errorMessage +:+ dq +:+ ".".

(** *** Entries.chain.ts *)

Definition isRegistryEntryStored (registryEntryId : string) : Async Chain bool :=
  try_catch
    (do encoded <- await_registryEntries registryEntryId;
     async_ret (negb (isNone encoded)))%async
    (fun error =>
       async_throw (ErrorObject CordQueryError
         ("Error querying the registry-entry: " +:+ String_of_thrown error))).

Definition dispatchCreateEntryToChain
    (registryEntryDetails : IRegistryEntry) (authorAccount : Account)
  : Async Chain string :=
  try_catch
    (do registryEntryObj <-
          async_lift (uriToEntryIdAndDigest registryEntryDetails.(entry_uri));
     let registryEntryId := fst registryEntryObj in
     do authorizationId <-
          async_lift (uriToIdentifier
                        (Some (JStr registryEntryDetails.(entry_authorizationUri))));
     do registryEntryExists <- isRegistryEntryStored registryEntryId;
     if registryEntryExists : bool then
       async_throw (ErrorObject CordDispatchError
                      (already_exists_message registryEntryDetails.(entry_uri)))
     else
       let extrinsic :=
         entries_create registryEntryId authorizationId
           registryEntryDetails.(entry_digest) registryEntryDetails.(entry_blob) in
       do _ <- signAndSubmitTx extrinsic authorAccount;
       async_ret registryEntryDetails.(entry_uri))%async
    (fun error =>
       let errorMessage := errorMessage_of error in
       async_throw (ErrorObject CordDispatchError (dispatch_message errorMessage))).

Definition dispatchUpdateEntryToChain
    (registryEntryDetails : IRegistryEntry) (authorAccount : Account)
  : Async Chain string :=
  try_catch
    (do registryEntryObj <-
          async_lift (uriToEntryIdAndDigest registryEntryDetails.(entry_uri));
     let registryEntryId := fst registryEntryObj in
     do authorizationId <-
          async_lift (uriToIdentifier
                        (Some (JStr registryEntryDetails.(entry_authorizationUri))));
     do registryEntryExists <- isRegistryEntryStored registryEntryId;
     if negb registryEntryExists then
       async_throw (ErrorObject CordDispatchError
                      (does_not_exist_message registryEntryDetails.(entry_uri)))
     else
       let extrinsic :=
         entries_update registryEntryId authorizationId
           registryEntryDetails.(entry_digest) registryEntryDetails.(entry_blob) in
       do _ <- signAndSubmitTx extrinsic authorAccount;
       async_ret registryEntryDetails.(entry_uri))%async
    (fun error =>
       let errorMessage := errorMessage_of error in
       async_throw (ErrorObject CordDispatchError (dispatch_message errorMessage))).

Definition dispatchRevokeEntryToChain
    (registryEntryUri authorizationUri : string) (authorAccount : Account)
  : Async Chain string :=
  (do registryEntryObj <- async_lift (uriToEntryIdAndDigest registryEntryUri);
   let registryEntryId := fst registryEntryObj in
   do authorizationId <- async_lift (uriToIdentifier (Some (JStr authorizationUri)));
   do registryEntryExists <- isRegistryEntryStored registryEntryId;
   if negb registryEntryExists then
     async_throw (ErrorObject CordDispatchError
                    (does_not_exist_message registryEntryUri))
   else
     try_catch
       (let extrinsic := entries_revoke registryEntryId authorizationId in
        do _ <- signAndSubmitTx extrinsic authorAccount;
        async_ret registryEntryUri)
       (fun error =>
          let errorMessage := errorMessage_of error in
          async_throw (ErrorObject CordDispatchError
                         (dispatch_message errorMessage))))%async.

Definition dispatchReinstateEntryToChain
    (registryEntryUri authorizationUri : string) (authorAccount : Account)
  : Async Chain string :=
  (do registryEntryObj <- async_lift (uriToEntryIdAndDigest registryEntryUri);
   let registryEntryId := fst registryEntryObj in
   do authorizationId <- async_lift (uriToIdentifier (Some (JStr authorizationUri)));
   do registryEntryExists <- isRegistryEntryStored registryEntryId;
   if negb registryEntryExists then
     async_throw (ErrorObject CordDispatchError
                    (does_not_exist_message registryEntryUri))
   else
     try_catch
       (let extrinsic := entries_reinstate registryEntryId authorizationId in
        do _ <- signAndSubmitTx extrinsic authorAccount;
        async_ret registryEntryUri)
       (fun error =>
          let errorMessage := errorMessage_of error in
          async_throw (ErrorObject CordDispatchError
                         (dispatch_message errorMessage))))%async.

Definition dispatchUpdateOwnershipToChain
    (registryEntryUri authorizationUri : string) (newOwnerAccount : Account)
    (newOwnerAuthorizationUri : string) (authorAccount : Account)
  : Async Chain string :=
  try_catch
    (do registryEntryObj <- async_lift (uriToEntryIdAndDigest registryEntryUri);
     let registryEntryId := fst registryEntryObj in
     do authorizationId <- async_lift (uriToIdentifier (Some (JStr authorizationUri)));
     do newOwnerAuthorizationId <-
          async_lift (uriToIdentifier (Some (JStr newOwnerAuthorizationUri)));
     do registryEntryExists <- isRegistryEntryStored registryEntryId;
     if negb registryEntryExists then
       async_throw (ErrorObject CordDispatchError
                      (does_not_exist_message registryEntryUri))
     else
       let extrinsic :=
         entries_updateOwnership registryEntryId authorizationId
           newOwnerAccount newOwnerAuthorizationId in
       do _ <- signAndSubmitTx extrinsic authorAccount;
       async_ret registryEntryUri)%async
    (fun error =>
       let errorMessage := errorMessage_of error in
       async_throw (ErrorObject CordDispatchError
                      (dispatch_message (JSON_stringify (JStr errorMessage))))).

(** *** SchemaAccounts.chain.ts *)

Definition isSchemaStored (schema : object) : Async Chain bool :=
  (do identifier <- async_lift (uriToIdentifier (js_get "$id" schema));
   do encoded <- await_schemas identifier;
   async_ret (negb (isNone encoded)))%async.

Definition dispatchToChain (schema : object) (authorAccount : Account)
  : Async Chain (option json) :=
  try_catch
    (do exists_ <- isSchemaStored schema;
     if exists_ : bool then async_ret (js_get "$id" schema)
     else
       let encodedSchema := encodeCborSchema schema in
       let extrinsic := schemaAccounts_create encodedSchema in
       do _ <- signAndSubmitTx extrinsic authorAccount;
       async_ret (js_get "$id" schema))%async
    (fun error =>
       async_throw (ErrorObject CordDispatchError
         ("Error dispatching to chain: " +:+ dq +:+ String_of_thrown error
          +:+ dq +:+ "."))).
(** *** Worlds and outcomes the statements speak of *)

(** The world after the existence query for [registryEntryId]. *)
Definition queried (w : World Chain) (registryEntryId : string) : World Chain :=
  {| chain := chain w;
     events := events w ++ [Queried RegistryEntries registryEntryId] |}.

(** The world after the query and the submission of [tx]. *)
Definition queried_and_submitted
    (w : World Chain) (registryEntryId : string) (tx : Extrinsic) (author : Account)
  : World Chain :=
  {| chain := snd (submit tx author (chain w));
     events := events w ++ [Queried RegistryEntries registryEntryId;
                            Submitted tx author] |}.

(** What the caller sees of a submission: the URI, or the ledger's
    error wrapped by [wrap]. *)
Definition submission_outcome
    (w : World Chain) (tx : Extrinsic) (author : Account) (uri : string)
    (wrap : string -> string) : Exc string :=
  match fst (submit tx author (chain w)) with
  | Ok _ => Ok uri
  | Throw e => Throw (ErrorObject CordDispatchError (wrap (errorMessage_of e)))
  end.
End ChainCalls.

(** ** A reference instance of the interfaces

    Small executable stand-ins, used to run the functions above on
    concrete inputs. None of the general statements below depends on
    them. *)

Module Sample.

Definition byte_of_N (n : N) : byte :=
  match Byte.of_N (n mod 256) with Some b => b | None => x00 end.

(** Big-endian bytes of [n], [k] of them. *)
Fixpoint be_bytes (k : nat) (n : N) : list byte :=
  match k with
  | O => []
  | S k' => be_bytes k' (n / 256) ++ [byte_of_N n]
  end.

(** A CBOR head: major type and argument (RFC 8949, definite length). *)
Definition cbor_head (major n : N) : list byte :=
  if (n <? 24)%N then [byte_of_N (major * 32 + n)]
  else if (n <? 256)%N then byte_of_N (major * 32 + 24) :: be_bytes 1 n
  else if (n <? 65536)%N then byte_of_N (major * 32 + 25) :: be_bytes 2 n
  else byte_of_N (major * 32 + 26) :: be_bytes 4 n.

Definition cbor_text (s : string) : list byte :=
  cbor_head 3 (N.of_nat (String.length s)) ++ list_byte_of_string s.

Fixpoint cbor (v : json) : list byte :=
  match v with
  | JNull => [xf6]
  | JBool true => [xf5]
  | JBool false => [xf4]
  | JNum n => if (n <? 0)%Z then cbor_head 1 (Z.to_N (- n - 1))
              else cbor_head 0 (Z.to_N n)
  | JStr s => cbor_text s
  | JArr xs => cbor_head 4 (N.of_nat (List.length xs)) ++ flat_map cbor xs
  | JObj fs =>
      cbor_head 5 (N.of_nat (List.length fs))
      ++ flat_map (fun kv => cbor_text (fst kv) ++ cbor (snd kv)) fs
  end.

(** SCALE compact length (one-, two- and four-byte modes), then the bytes. *)
Definition compact_length (n : N) : list byte :=
  if (n <? 64)%N then [byte_of_N (4 * n)]
  else if (n <? 16384)%N then rev (be_bytes 2 (4 * n + 1))
  else rev (be_bytes 4 (4 * n + 2)).

Definition bytes_with_length (s : string) : list byte :=
  compact_length (N.of_nat (String.length s)) ++ list_byte_of_string s.

(** An account id: 32 bytes read off the address. *)
Definition account_id (address : string) : Exc (list byte) :=
  match address with
  | EmptyString => Throw (ErrorObject ForeignError "Invalid decoded address length")
  | _ => Ok (firstn 32 (list_byte_of_string address ++ repeat x00 32))
  end.

Definition hex_digit (n : N) : ascii :=
  match String.get (N.to_nat n) "0123456789abcdef" with
  | Some c => c
  | None => "0"%char
  end.

Fixpoint hex (k : nat) (n : N) : string :=
  match k with
  | O => EmptyString
  | S k' => hex k' (n / 16) +:+ String (hex_digit (n mod 16)) EmptyString
  end.

(** A 64-bit FNV-1a checksum stands in for BLAKE2b-256. *)
Definition fnv1a (bs : list byte) : N :=
  fold_left (fun h b => (N.lxor h (Byte.to_N b) * 1099511628211) mod 2 ^ 64)%N
    bs 14695981039346656037%N.

Definition digest_hex (bs : list byte) : HexString := "0x" +:+ hex 16 (fnv1a bs).

Definition known_prefixes : list string :=
  [ "schema:cord:"; NAMESPACEAUTH_PREFIX; NAMESPACE_PREFIX;
    "registryauth:cord:"; "registry:cord:"; "entry:cord:" ].

Fixpoint first_stripped (ps : list string) (s : string) : option string :=
  match ps with
  | [] => None
  | p :: ps' => match strip_prefix p s with
                | Some rest => Some rest
                | None => first_stripped ps' s
                end
  end.

Definition identifier_of (u : option json) : Exc string :=
  match u with
  | Some (JStr s) =>
      match first_stripped known_prefixes s with
      | Some (String c rest) => Ok (String c rest)
      | _ => Throw (ErrorObject ForeignError ("Invalid URI format: " +:+ s))
      end
  | _ => Throw (ErrorObject ForeignError "URI must be a non-empty string.")
  end.

(** [entry:cord:<identifier>:<digest>] *)
Definition entry_id_and_digest (u : string) : Exc (string * string) :=
  match strip_prefix "entry:cord:" u with
  | Some rest =>
      let '(identifier, tail) := span_chars is_alnum rest in
      match identifier, tail with
      | String _ _, String ":" d => Ok (identifier, d)
      | _, _ => Throw (ErrorObject ForeignError ("Invalid URI format: " +:+ u))
      end
  | None => Throw (ErrorObject ForeignError ("Invalid URI format: " +:+ u))
  end.

Definition uri_of_hash (d : HexString) (ident : Z) (prefix : string) : string :=
  prefix +:+ "m" +:+ hex 4 (Z.to_N ident) +:+ d.

Fixpoint escaped (s : string) : string :=
  match s with
  | EmptyString => EmptyString
  | String c s' =>
      if Ascii.eqb c "034" || Ascii.eqb c "092"
      then String "092" (String c (escaped s'))
      else String c (escaped s')
  end.

Definition stringify (v : json) : string :=
  match v with
  | JStr s => dq +:+ escaped s +:+ dq
  | JNull => "null"
  | JBool true => "true"
  | JBool false => "false"
  | _ => "{}"
  end.

Definition thrown_text (e : thrown) : string :=
  match e with
  | ErrorObject _ m => "Error: " +:+ m
  | ThrownValue v => stringify v
  end.

Definition has_colon (s : string) : bool :=
  negb (all_chars (fun c => negb (Ascii.eqb c ":")) s).

#[export] Instance utils : Utils :=
  {| cbor_encode := cbor;
     hashStr := fun value => digest_hex (list_byte_of_string value) |}.

#[export] Instance api : Api :=
  {| scale_Bytes := bytes_with_length;
     scale_AccountId := account_id |}.

#[export] Instance types : Types :=
  {| blake2AsHex := digest_hex; SCHEMA_PREFIX := "schema:cord:" |}.

#[export] Instance identifier : Identifier :=
  {| hashToUri := uri_of_hash;
     uriToIdentifier := identifier_of;
     uriToEntryIdAndDigest := entry_id_and_digest |}.

#[export] Instance runtime : Runtime :=
  {| JSON_stringify := stringify;
     String_of_thrown := thrown_text;
     SchemaIdMismatch_message := fun expected _ =>
       "Provided $id does not match schema $id " +:+ expected;
     format_uri := has_colon |}.

(** Modelled from the spec: the ledger itself is an external
    collaborator. Section 4.5 gives the effect of each transition
    (create anchors the entry, update replaces digest, revoke and
    reinstate set the flag, transfer rebinds the owner) and section 3
    says entries are never deleted. A disconnected ledger fails every
    call. *)
Record Ledger := {
  registryEntries : gmap string PalletEntriesRegistryEntryDetails;
  schemas : gmap string PalletSchemaAccountsSchemaEntry;
  connected : bool;
}.

Definition with_entries (l : Ledger)
    (m : gmap string PalletEntriesRegistryEntryDetails) : Ledger :=
  {| registryEntries := m; schemas := schemas l; connected := connected l |}.

Definition rejected {A} (l : Ledger) : Exc A * Ledger :=
  (Throw (ErrorObject ForeignError "1010: Invalid Transaction"), l).

Definition alter_entry (l : Ledger) (id : string)
    (f : PalletEntriesRegistryEntryDetails -> PalletEntriesRegistryEntryDetails)
  : Exc unit * Ledger :=
  match registryEntries l !! id with
  | Some d => (Ok tt, with_entries l (<[id := f d]> (registryEntries l)))
  | None => rejected l
  end.

(** The identifier under which the ledger files an encoded schema: the
    one [getUriForSchema] derives. *)
Definition schema_identifier (encoded : string) : string :=
  "m" +:+ hex 4 (Z.to_N SCHEMA_ACCOUNTS_IDENT) +:+ digest_hex (bytes_with_length encoded).

Definition apply_extrinsic (tx : Extrinsic) (signer : Account) (l : Ledger)
  : Exc unit * Ledger :=
  if negb (connected l) then
    (Throw (ErrorObject ForeignError "disconnected"), l)
  else
    match tx with
    | entries_create id _ d _ =>
        match registryEntries l !! id with
        | Some _ => rejected l
        | None =>
            (Ok tt,
             with_entries l
               (<[id := {| stored_digest := d; stored_revoked := false;
                           stored_creator := signer;
                           stored_registryId := "" |}]> (registryEntries l)))
        end
    | entries_update id _ d _ =>
        alter_entry l id (fun e =>
          {| stored_digest := d; stored_revoked := stored_revoked e;
             stored_creator := stored_creator e;
             stored_registryId := stored_registryId e |})
    | entries_revoke id _ =>
        alter_entry l id (fun e =>
          {| stored_digest := stored_digest e; stored_revoked := true;
             stored_creator := stored_creator e;
             stored_registryId := stored_registryId e |})
    | entries_reinstate id _ =>
        alter_entry l id (fun e =>
          {| stored_digest := stored_digest e; stored_revoked := false;
             stored_creator := stored_creator e;
             stored_registryId := stored_registryId e |})
    | entries_updateOwnership id _ owner _ =>
        alter_entry l id (fun e =>
          {| stored_digest := stored_digest e; stored_revoked := stored_revoked e;
             stored_creator := owner;
             stored_registryId := stored_registryId e |})
    | schemaAccounts_create encoded =>
        (Ok tt,
         {| registryEntries := registryEntries l;
            schemas := <[schema_identifier encoded :=
                           {| stored_schema := encoded;
                              stored_schema_digest :=
                                digest_hex (list_byte_of_string encoded);
                              stored_schema_creator := signer |}]> (schemas l);
            connected := connected l |})
    end.

Definition read {A} (m : gmap string A) (id : string) (l : Ledger) : Exc (option A) :=
  if connected l then Ok (m !! id)
  else Throw (ErrorObject ForeignError "disconnected").

#[export] Instance gateway : Gateway Ledger :=
  {| query_registryEntries := fun id l => read (registryEntries l) id l;
     query_schemas := fun id l => read (schemas l) id l;
     submit := apply_extrinsic |}.

(** *** Concrete inputs *)

Definition person : object :=
  [ ("title", JStr "Person");
    ("type", JStr "object");
    ("properties",
      JObj [ ("name", JObj [("type", JStr "string")]);
             ("age", JObj [("type", JStr "integer")]) ]);
    ("required", JArr [JStr "name"; JStr "age"]) ].

(** The same schema with its keys in another order, at both levels. *)
Definition person_permuted : object :=
  [ ("required", JArr [JStr "name"; JStr "age"]);
    ("properties",
      JObj [ ("age", JObj [("type", JStr "integer")]);
             ("name", JObj [("type", JStr "string")]) ]);
    ("title", JStr "Person");
    ("type", JStr "object") ].

Definition alice : string := "3xAlice".

Definition entry_E : IRegistryEntry :=
  {| entry_uri := "entry:cord:e1:d1";
     entry_creatorUri := "did:cord:3xAlice";
     entry_digest := "0x01";
     entry_blob := Some "blob";
     entry_registryUri := "registry:cord:r1";
     entry_authorizationUri := "registryauth:cord:a1" |}.

Definition empty_ledger : Ledger :=
  {| registryEntries := ∅; schemas := ∅; connected := true |}.

Definition start (l : Ledger) : World Ledger := {| chain := l; events := [] |}.

(** Entry [e1] anchored and active (its revoked flag is false). *)
Definition ledger_with_E : Ledger :=
  with_entries empty_ledger
    {[ "e1" := {| stored_digest := "0x01"; stored_revoked := false;
                  stored_creator := alice; stored_registryId := "r1" |} ]}.

(** What [buildFromProperties person alice] returns. *)
Definition built_person : object :=
  [ ("$id", JStr "schema:cord:m29050x6e6a52822cf288fe");
    ("title", JStr "Person");
    ("type", JStr "object");
    ("properties",
      JObj [ ("name", JObj [("type", JStr "string")]);
             ("age", JObj [("type", JStr "integer")]) ]);
    ("required", JArr [JStr "name"; JStr "age"]);
    ("additionalProperties", JBool false);
    ("$schema", JStr "http://cord.network/draft-01/schema#") ].

Definition built_details : ISchemaAccountsDetails :=
  {| details_schema := built_person;
     details_digest := "0x7c9d17b86f8a85a6";
     details_creatorUri := "did:cord:33xAlice" |}.


(** The built record with a number for a title, [$id] kept. *)
Definition mistitled_person : object := js_set "title" (JNum 5) built_person.

(** A record that declares the JSON-schema draft as its meta-schema. *)
Definition draft07_person : object :=
  js_set "$schema" (JStr "http://json-schema.org/draft-07/schema#") built_person.


End Sample.

(** * More of the same files *)

(** ** mergeType.ts *)

(** [{ ...oldTypes, ...newTypes }], then [delete adjustedTypes[key]] for
    every key of [deleteKeys]. *)
Definition mergeType (oldTypes newTypes : object) (deleteKeys : list string) : object :=
  let adjustedTypes := js_spread (js_spread [] oldTypes) newTypes in
  fold_left (fun adjusted key => js_rest key adjusted) deleteKeys adjustedTypes.

(** ** Schema.types.ts: the metadata model *)

(** [^.*$] *)
Definition re_any (s : string) : bool :=
  all_chars (fun c => negb (is_line_terminator c)) s.

Definition kw_minLength (n : nat) (v : json) : bool :=
  match v with JStr s => (n <=? String.length s)%nat | _ => true end.

Section MetadataSchema.
Context `{Utils} `{Api} `{Types} `{Identifier} `{Runtime}.

(** The schema of a [title] and of a [description]; [MetadataModel]
    spells it out at each of its four places. *)
Definition localized_text (v : json) : bool :=
  allOf [ kw_type TObject v;
          kw_property "default" (kw_type TString) v;
          kw_patternProperty re_any (kw_type TString) v;
          kw_required ["default"] v ].

Definition MetadataModel (v : json) : bool :=
  allOf [ kw_type TObject v;
          kw_property "metadata"
            (fun m =>
               allOf [ kw_type TObject m;
                       kw_property "title" localized_text m;
                       kw_property "description" localized_text m;
                       kw_property "properties"
                         (fun p =>
                            allOf [ kw_type TObject p;
                                    kw_patternProperty re_any
                                      (fun e =>
                                         allOf [ kw_type TObject e;
                                                 kw_property "title" localized_text e;
                                                 kw_property "description" localized_text e;
                                                 kw_required ["title"] e;
                                                 kw_additionalProperties_false
                                                   ["title"; "description"] [] e ]) p ]) m;
                       kw_required ["title"; "properties"] m;
                       kw_additionalProperties_false
                         ["title"; "description"; "properties"] [] m ]) v;
          kw_property "schemaId"
            (fun x => allOf [kw_type TString x; kw_minLength 1 x]) v;
          kw_required ["metadata"; "schemaId"] v;
          kw_additionalProperties_false ["metadata"; "schemaId"] [] v ].

(** *** SchemaAccounts.ts *)

Definition verifySchemaMetadata (metadata : json) : Exc unit :=
  verifyObjectAgainstSchema metadata MetadataModel.
End MetadataSchema.

(** ** SchemaAccounts.chain.ts: the existence query by URI *)

Section MoreChainCalls.
Context {Chain : Type} `{Gateway Chain}.
Context `{Utils} `{Api} `{Types} `{Identifier} `{Runtime}.

Definition doesSchemaIdExists (schemaUri : string) : Async Chain bool :=
  (do identifier <- async_lift (uriToIdentifier (Some (JStr schemaUri)));
   do encoded <- await_schemas identifier;
   async_ret (negb (isNone encoded)))%async.

(** The handler of TransferOwnership quotes the message once more. *)
Definition ownership_message (errorMessage : string) : string :=
  dispatch_message (JSON_stringify (JStr errorMessage)).

(** The messages a dispatch handler produces. *)
Definition dispatch_error (t : thrown) : Prop :=
  exists text, t = ErrorObject CordDispatchError
                     ("Error dispatching to chain: " +:+ dq +:+ text +:+ dq +:+ ".").

(** A call that was stopped: it threw, the chain is as it was and
    nothing was submitted. *)
Definition aborted (w : World Chain) (run : Exc string * World Chain) : Prop :=
  (exists t, fst run = Throw t)
  /\ chain (snd run) = chain w
  /\ submissions (events (snd run)) = submissions (events w).

(** How a call can leave the world: untouched but for queries, or with
    one submission by [author] that the ledger has processed. *)
Definition submitted_at_most_once (w w' : World Chain) (author : Account) : Prop :=
  (submissions (events w') = submissions (events w) /\ chain w' = chain w)
  \/ exists tx,
       submissions (events w') = submissions (events w) ++ [(tx, author)]
       /\ chain w' = snd (submit tx author (chain w)).
End MoreChainCalls.

(** ** Values without arrays *)

(** A value that holds no array, at any depth. The canonical encoder
    hands the caller's arrays to [jsonabc.sortObj]; such a value is out
    of its reach. *)
Fixpoint array_free (j : json) : bool :=
  match j with
  | JArr _ => false
  | JObj fs => forallb (fun kv => array_free (snd kv)) fs
  | _ => true
  end.

(** ** Validators and the order of keys *)

(** A schema that does not see in which order the keys of an instance
    are written, at any depth. *)
Definition respects (s : json -> bool) : Prop :=
  forall a b, key_perm a b -> s a = s b.

(** * Reading back, and the properties of a namespace *)

(** ** Further errors *)

(** The [SDKErrors] classes the functions below raise. *)
Inductive FurtherErrorClass :=
| SchemaError
| CordFetchError
| InputContentsMalformedError
| DidError.

(** What these functions throw: a value thrown by one of the functions
    above, or an error of a further class, which can carry the caught
    value as its [cause]. *)
Inductive raised :=
| Earlier (t : thrown)
| FurtherError (cls : FurtherErrorClass) (message : string) (cause : option raised).

Inductive Res (A : Type) : Type :=
| Done (a : A)
| Raise (e : raised).
Arguments Done {A} a.
Arguments Raise {A} e.

Definition res_bind {A B} (m : Res A) (k : A -> Res B) : Res B :=
  match m with Done a => k a | Raise e => Raise e end.

Definition res_lift {A} (m : Exc A) : Res A :=
  match m with Ok a => Done a | Throw t => Raise (Earlier t) end.

(** [try { m } catch (cause) { handler }] *)
Definition res_catch {A} (m : Res A) (handler : raised -> Res A) : Res A :=
  match m with Done a => Done a | Raise e => handler e end.

Declare Scope res_scope.
Delimit Scope res_scope with res.
Notation "'do' x <- m ; k" := (res_bind m (fun x => k))
  (at level 10, x name, m at level 100, k at level 200) : res_scope.

(** An [async] function of the read paths. *)
Definition Fetch (Chain A : Type) : Type := World Chain -> Res A * World Chain.

Section FetchMonad.
Context {Chain : Type}.

Definition fetch_ret {A} (a : A) : Fetch Chain A := fun w => (Done a, w).

Definition fetch_throw {A} (e : raised) : Fetch Chain A := fun w => (Raise e, w).

Definition fetch_lift {A} (m : Res A) : Fetch Chain A := fun w => (m, w).

(** [await] of one of the calls above. *)
Definition fetch_await {A} (m : Async Chain A) : Fetch Chain A :=
  fun w => (res_lift (fst (m w)), snd (m w)).

Definition fetch_bind {A B} (m : Fetch Chain A) (k : A -> Fetch Chain B)
  : Fetch Chain B :=
  fun w => match m w with
           | (Done a, w') => k a w'
           | (Raise e, w') => (Raise e, w')
           end.

Definition fetch_catch {A} (m : Fetch Chain A) (handler : raised -> Fetch Chain A)
  : Fetch Chain A :=
  fun w => match m w with
           | (Done a, w') => (Done a, w')
           | (Raise e, w') => handler e w'
           end.
End FetchMonad.

Declare Scope fetch_scope.
Delimit Scope fetch_scope with fetch.
Notation "'do' x <- m ; k" := (fetch_bind m (fun x => k))
  (at level 10, x name, m at level 100, k at level 200) : fetch_scope.

(** What the functions below take from the packages they import. *)
Class Decoding := {
  (** [Buffer.from(text, 'base64')] *)
  base64_decode : string -> list byte;
  (** [new Cbor.Encoder({ pack: true, useRecords: true }).decode(bytes)] *)
  cbor_decode_packed : list byte -> Exc json;
  (** [Cbor.decode(bytes)] *)
  cbor_decode : list byte -> Exc json;
  (** [JSON.parse(text)] *)
  JSON_parse : string -> Exc json;
  (** [input.toHuman()] of a [Bytes] value, as a template string shows it *)
  Bytes_toHuman : string -> string;
  (** the template-string conversion of a caught value *)
  String_of_raised : raised -> string;
  (** [blake2AsHex(text)] *)
  blake2AsHex_text : string -> HexString;
  (** [api.createType('H256', hex).toU8a()] *)
  scale_H256 : HexString -> Exc (list byte);
  (** [identifierToUri(identifier)] *)
  identifierToUri : string -> Exc string;
  (** [encodeAddress(account, ss58Format)] *)
  encodeAddress : Account -> Z -> Exc string;
  (** [DecoderUtils.hexToString(hex)] *)
  hexToString : string -> Exc string;
}.

(** The properties [{ ...v }] copies: the fields of an object, the
    indexed items of an array, the indexed characters of a string,
    nothing of a number, a boolean or [null]. Keys that are indices
    come first in a JavaScript object; [SchemaModel] refuses such keys
    at the top of a schema. *)
Definition own_fields (v : json) : object :=
  match v with
  | JObj fs => fs
  | JArr xs => imap (fun i x => (pretty i, x)) xs
  | JStr s =>
      imap (fun i c => (pretty i, JStr (String c EmptyString))) (list_ascii_of_string s)
  | _ => []
  end.

(** ** SchemaAccounts.chain.ts: reading a schema back *)

Section SchemaReads.
Context {Chain : Type} `{Gateway Chain}.
Context `{Utils} `{Api} `{Types} `{Identifier} `{Runtime} `{Decoding}.

Definition unparsable_message (input : string) : string :=
  "The provided payload cannot be parsed as a Schema: " +:+ Bytes_toHuman input.

(** [stored_schema] holds the payload as text: [input.toUtf8()]
    returns it. *)
Definition schemaInputFromChain (input : string) (schemaUri : string) : Res object :=
  res_catch
    (let base64Input := input in
     let binaryData := base64_decode base64Input in
     do decodedSchema <- res_lift (cbor_decode_packed binaryData);
     let reconstructedSchema :=
       js_spread [("$id", JStr schemaUri)] (own_fields decodedSchema) in
     do _ <- res_lift (verifyDataStructure (JObj reconstructedSchema));
     Done reconstructedSchema)%res
    (fun cause =>
       Raise (FurtherError SchemaError (unparsable_message input) (Some cause))).

Definition fromChain
    (encodedEntry : option PalletSchemaAccountsSchemaEntry) (schemaUri : string)
  : Res (option ISchemaAccountsDetails) :=
  match encodedEntry with
  | Some unwrapped =>
      let schema := stored_schema unwrapped in
      let digest := stored_schema_digest unwrapped in
      let creator := stored_schema_creator unwrapped in
      (do schema' <- schemaInputFromChain schema schemaUri;
       Done (Some {| details_schema := schema';
                     details_digest := digest;
                     details_creatorUri := "did:cord:3" +:+ creator |}))%res
  | None => Done None
  end.

Definition no_schema_message (schemaUri : string) : string :=
  "There is not a Schema with the provided URI " +:+ dq +:+ schemaUri +:+ dq
  +:+ " on chain.".

Definition fetch_schema_message (error : raised) : string :=
  "Error occurred while fetching schema from chain: " +:+ String_of_raised error.

(** The [console.error] of the handler is not part of the model. *)
Definition fetchFromChain (schemaUri : string)
  : Fetch Chain (option ISchemaAccountsDetails) :=
  fetch_catch
    (do cordSchemaId <-
          fetch_lift (res_lift (uriToIdentifier (Some (JStr schemaUri))));
     do schemaEntry <- fetch_await (await_schemas cordSchemaId);
     do decodedSchema <- fetch_lift (fromChain schemaEntry schemaUri);
     match decodedSchema with
     | None => fetch_throw (FurtherError SchemaError (no_schema_message schemaUri) None)
     | Some _ => fetch_ret decodedSchema
     end)%fetch
    (fun error =>
       fetch_throw (FurtherError CordFetchError (fetch_schema_message error) None)).

(** The world after the one query of a schema. *)
Definition asked_for_schema (w : World Chain) (identifier : string) : World Chain :=
  {| chain := chain w; events := events w ++ [Queried Schemas identifier] |}.
End SchemaReads.

(** ** Entries.chain.ts: reading an entry back *)

(** [IRegistryEntryChainStorage] *)
Record IRegistryEntryChainStorage := {
  storage_uri : string;
  storage_digest : HexString;
  storage_revoked : bool;
  storage_creatorUri : string;
  storage_registryUri : string;
}.

Section EntryReads.
Context {Chain : Type} `{Gateway Chain}.
Context `{Utils} `{Api} `{Types} `{Identifier} `{Runtime} `{Decoding}.

(** The fields of the object literal are evaluated in the order they
    are written. *)
Definition decodeRegistryEntryDetailsFromChain
    (encoded : option PalletEntriesRegistryEntryDetails) (identifier : string)
  : Exc (option IRegistryEntryChainStorage) :=
  match encoded with
  | None => Ok None
  | Some chainRegistryEntry =>
      (do uri <- identifierToUri identifier;
       let digest := stored_digest chainRegistryEntry in
       let revoked := stored_revoked chainRegistryEntry in
       do address <- encodeAddress (stored_creator chainRegistryEntry) 29;
       do registryId <- hexToString (stored_registryId chainRegistryEntry);
       do registryUri <- identifierToUri registryId;
       Ok (Some {| storage_uri := uri;
                   storage_digest := digest;
                   storage_revoked := revoked;
                   storage_creatorUri := "did:cord:3" +:+ address;
                   storage_registryUri := registryUri |}))%exc
  end.

Definition no_entry_message (registryEntryId : string) : string :=
  "There is no registry entry with the provided ID " +:+ dq +:+ registryEntryId
  +:+ dq +:+ " present on the chain.".

Definition getDetailsfromChain (identifier : string)
  : Fetch Chain (option IRegistryEntryChainStorage) :=
  (do registryEntryId <-
        fetch_lift (res_lift (uriToIdentifier (Some (JStr identifier))));
   do registryEntry <- fetch_await (await_registryEntries registryEntryId);
   do decodedDetails <-
        fetch_lift (res_lift (decodeRegistryEntryDetailsFromChain registryEntry identifier));
   match decodedDetails with
   | None =>
       fetch_throw (FurtherError CordFetchError (no_entry_message registryEntryId) None)
   | Some _ => fetch_ret decodedDetails
   end)%fetch.

Definition fetchRegistryEntryDetailsFromChain (registryEntryUri : string)
  : Fetch Chain IRegistryEntryChainStorage :=
  (do registryEntryObj <-
        fetch_lift (res_lift (uriToEntryIdAndDigest registryEntryUri));
   do entryDetails <- getDetailsfromChain (fst registryEntryObj);
   match entryDetails with
   | None =>
       fetch_throw (FurtherError CordFetchError
                      (no_entry_message (fst registryEntryObj)) None)
   | Some details => fetch_ret details
   end)%fetch.
End EntryReads.

(** ** Namespace.ts: the properties of a new namespace *)

(** [NamespaceDetails] *)
Record NamespaceDetails := {
  namespace_uri : string;
  namespace_authorizationUri : string;
}.

(** [INamespaceCreate] *)
Record INamespaceCreate := {
  create_uri : string;
  create_creatorUri : string;
  create_digest : HexString;
  create_blob : option string;
  create_authorizationUri : string;
}.

(** A [string | null] that is neither [null] nor empty. *)
Definition truthy (x : option string) : bool :=
  match x with Some (String _ _) => true | _ => false end.

(** A [string | null] used as a string, after [truthy] has been tested. *)
Definition as_string (x : option string) : string :=
  match x with Some text => text | None => EmptyString end.

Section NamespaceProperties.
Context `{Utils} `{Api} `{Types} `{Identifier} `{Runtime} `{Decoding}.

Definition not_serialized : raised :=
  FurtherError InputContentsMalformedError "Input 'blob' is not serialized." None.

Definition isBlobSerialized (blob : json) : bool :=
  match blob with
  | JStr text =>
      match JSON_parse text with
      | Ok _ => true
      | Throw _ => false
      end
  | _ => false
  end.

Definition getDigestFromRawData (blob : string) : Res HexString :=
  let isASerializedBlob := isBlobSerialized (JStr blob) in
  if negb isASerializedBlob then Raise not_serialized
  else
    let namespaceDigest := blake2AsHex_text blob in
    Done namespaceDigest.

Definition encodeStringifiedBlobToCbor (blob : string) : Res string :=
  let isASerializedBlob := isBlobSerialized (JStr blob) in
  if negb isASerializedBlob then Raise not_serialized
  else
    let encodedBlob := cbor_encode (JStr blob) in
    let cborBlob := base64 encodedBlob in
    Done cborBlob.

Definition decodeCborToStringifiedBlob (cborBlob : string) : Exc json :=
  let decodedBuffer := base64_decode cborBlob in
  let decodedBlob := cbor_decode decodedBuffer in
  decodedBlob.

Definition getUriForNamespace (namespaceDigest : HexString) (creatorAddress : string)
  : Exc NamespaceDetails :=
  (do scaleEncodedNamespaceDigest <- scale_H256 namespaceDigest;
   do scaleEncodedCreator <- scale_AccountId creatorAddress;
   let digest := blake2AsHex (scaleEncodedNamespaceDigest ++ scaleEncodedCreator) in
   let namespaceUri := hashToUri digest NAMESPACE_IDENT NAMESPACE_PREFIX in
   do authorizationUri <-
        getUriForAuthorization namespaceUri creatorAddress creatorAddress;
   let namespaceUris :=
     {| namespace_uri := namespaceUri;
        namespace_authorizationUri := authorizationUri |} in
   Ok namespaceUris)%exc.

Definition nothing_provided : raised :=
  FurtherError InputContentsMalformedError
    "Either 'digest' or 'blob' must be provided. Both cannot be null." None.

Definition empty_digest : raised :=
  FurtherError InputContentsMalformedError "Digest cannot be empty." None.

(** The parameters [digest] and [blob] are reassigned in the body; the
    pair [(digest, blob)] after the two branches is what the rest of
    the function reads. *)
Definition namespaceCreateProperties
    (creatorAddress : string) (digest blob : option string) : Res INamespaceCreate :=
  if negb (truthy digest) && negb (truthy blob) then Raise nothing_provided
  else
    (do reassigned <-
       (if negb (truthy digest) && truthy blob then
          let isASerializedBlob := isBlobSerialized (JStr (as_string blob)) in
          let blob :=
            if negb isASerializedBlob then JSON_stringify (JStr (as_string blob))
            else as_string blob in
          do digest <- getDigestFromRawData blob;
          do blob <- encodeStringifiedBlobToCbor blob;
          Done (Some digest, Some blob)
        else if truthy digest && truthy blob then
          let isASerializedBlob := isBlobSerialized (JStr (as_string blob)) in
          let blob :=
            if negb isASerializedBlob then JSON_stringify (JStr (as_string blob))
            else as_string blob in
          do blob <- encodeStringifiedBlobToCbor blob;
          Done (digest, Some blob)
        else Done (digest, blob));
     let digest := fst reassigned in
     let blob := snd reassigned in
     if negb (truthy digest) then Raise empty_digest
     else
       do uris <- res_lift (getUriForNamespace (as_string digest) creatorAddress);
       let creatorUri := "did:cord:3" +:+ creatorAddress in
       Done {| create_uri := namespace_uri uris;
               create_creatorUri := creatorUri;
               create_digest := as_string digest;
               create_blob := blob;
               create_authorizationUri := namespace_authorizationUri uris |})%res.

(** The text [namespaceCreateProperties] goes on with: the blob when it
    parses, [JSON.stringify(blob)] when it does not. *)
Definition serialized (blob : option string) : string :=
  if isBlobSerialized (JStr (as_string blob)) then as_string blob
  else JSON_stringify (JStr (as_string blob)).
End NamespaceProperties.

(** ** Did.chain.ts: service endpoints *)

(** [DidServiceEndpoint] *)
Record DidServiceEndpoint := {
  service_id : string;
  service_type : list string;
  service_serviceEndpoint : list string;
}.

(** [ChainEndpoint]; the stored texts are what [toUtf8] returns. *)
Record ChainEndpoint := {
  endpoint_id : string;
  endpoint_serviceTypes : list string;
  endpoint_urls : list string;
}.

(** What the checks of a service take from the language runtime and
    the chain API. *)
Class UriRuntime := {
  (** [new URL(str).href] *)
  URL_href : string -> Exc string;
  (** [encodeURI(decodeURI(str))] *)
  encodeURI_decodeURI : string -> Exc string;
  (** [decodeURIComponent(str)] *)
  decodeURIComponent : string -> Exc string;
  (** what [encoded.unwrap()] throws for [None] *)
  unwrap_None : thrown;
}.

(** [id.replace(/^#/, '')] *)
Definition resourceIdToChain (id : string) : string :=
  match id with
  | String c rest => if Ascii.eqb c "#" then rest else id
  | EmptyString => id
  end.

(** [[a-zA-Z0-9._~%+,;=*()'&$!@:/?-]] *)
Definition is_fragment_char (c : ascii) : bool :=
  is_alnum c
  || existsb (Ascii.eqb c) (list_ascii_of_string "._~%+,;=*()'&$!@:/?-").

(** [/^[a-zA-Z0-9._~%+,;=*()'&$!@:/?-]+$/] *)
Definition UriFragmentRegex (str : string) : bool :=
  nonempty str && all_chars is_fragment_char str.

(** [id.startsWith(prefix)] *)
Definition startsWith (prefix id : string) : bool :=
  match strip_prefix prefix id with Some _ => true | None => false end.

Section DidServices.
Context `{UriRuntime}.

Definition isUri (str : string) : bool :=
  match URL_href str with
  | Ok href =>
      if String.eqb href str then true
      else
        match encodeURI_decodeURI str with
        | Ok again => String.eqb again str
        | Throw _ => false
        end
  | Throw _ => false
  end.

Definition isUriFragment (str : string) : bool :=
  if UriFragmentRegex str then
    match decodeURIComponent str with
    | Ok decoded => nonempty decoded
    | Throw _ => false
    end
  else false.

Definition did_uri_as_id (id : string) : raised :=
  FurtherError DidError
    ("This function requires only the URI fragment part (following '#') of the service ID, not the DID URI, which is violated by id "
     +:+ dq +:+ id +:+ dq) None.

Definition invalid_fragment (id : string) : raised :=
  FurtherError DidError
    ("The service ID must be valid as a URI fragment according to RFC#3986, which "
     +:+ dq +:+ id +:+ dq
     +:+ " is not. Make sure not to use disallowed characters (e.g. whitespace) or consider URL-encoding the desired id.")
    None.

Definition invalid_uri (uri id : string) : raised :=
  FurtherError DidError
    ("A service URI must be a URI according to RFC#3986, which "
     +:+ dq +:+ uri +:+ dq +:+ " (service id " +:+ dq +:+ id +:+ dq
     +:+ ") is not. Make sure not to use disallowed characters (e.g. whitespace) or consider URL-encoding resource locators beforehand.")
    None.

(** The [forEach] stops at the first URI that is refused. *)
Definition validateService (endpoint : DidServiceEndpoint) : Res unit :=
  let id := service_id endpoint in
  let serviceEndpoint := service_serviceEndpoint endpoint in
  if startsWith "did:cord" id then Raise (did_uri_as_id id)
  else if negb (isUriFragment (resourceIdToChain id)) then Raise (invalid_fragment id)
  else
    fold_left
      (fun checked uri =>
         (do _ <- checked;
          if negb (isUri uri) then Raise (invalid_uri uri id) else Done tt)%res)
      serviceEndpoint (Done tt).

Definition serviceToChain (service : DidServiceEndpoint) : Res ChainEndpoint :=
  (do _ <- validateService service;
   Done {| endpoint_id := resourceIdToChain (service_id service);
           endpoint_serviceTypes := service_type service;
           endpoint_urls := service_serviceEndpoint service |})%res.

Definition serviceFromChain (encoded : option ChainEndpoint) : Exc DidServiceEndpoint :=
  match encoded with
  | Some unwrapped =>
      Ok {| service_id := "#" +:+ endpoint_id unwrapped;
            service_type := List.map (fun type => type) (endpoint_serviceTypes unwrapped);
            service_serviceEndpoint :=
              List.map (fun url => url) (endpoint_urls unwrapped) |}
  | None => Throw unwrap_None
  end.
End DidServices.

(** ** More concrete inputs *)

Module MoreSample.
Import Sample.

(** An entry whose authorization is given by its bare identifier. *)
Definition unauthorized_entry : IRegistryEntry :=
  {| entry_uri := "entry:cord:e1:d1";
     entry_creatorUri := "did:cord:3xAlice";
     entry_digest := "0x01";
     entry_blob := Some "blob";
     entry_registryUri := "registry:cord:r1";
     entry_authorizationUri := "a1" |}.

(** An entry filed under a registry URI. *)
Definition misaddressed_entry : IRegistryEntry :=
  {| entry_uri := "registry:cord:r1";
     entry_creatorUri := "did:cord:3xAlice";
     entry_digest := "0x01";
     entry_blob := Some "blob";
     entry_registryUri := "registry:cord:r1";
     entry_authorizationUri := "registryauth:cord:a1" |}.

Definition disconnected_ledger : Ledger :=
  {| registryEntries := ∅; schemas := ∅; connected := false |}.

Definition bob : string := "3xBob".

(** *** Stand-ins for the decoders *)

Definition b64_value (c : ascii) : option N :=
  let n := N_of_ascii c in
  if ((65 <=? n) && (n <=? 90))%N then Some (n - 65)%N
  else if ((97 <=? n) && (n <=? 122))%N then Some (n - 71)%N
  else if ((48 <=? n) && (n <=? 57))%N then Some (n + 4)%N
  else if (n =? 43)%N then Some 62%N
  else if (n =? 47)%N then Some 63%N
  else None.

Fixpoint b64_values (s : string) : list N :=
  match s with
  | EmptyString => []
  | String c s' =>
      match b64_value c with
      | Some v => v :: b64_values s'
      | None => b64_values s'
      end
  end.

Fixpoint bytes_of_sextets (l : list N) : list byte :=
  match l with
  | a :: b :: c :: d :: rest =>
      byte_of_N (a * 4 + b / 16) :: byte_of_N ((b mod 16) * 16 + c / 4)
      :: byte_of_N ((c mod 4) * 64 + d) :: bytes_of_sextets rest
  | [a; b; c] => [byte_of_N (a * 4 + b / 16); byte_of_N ((b mod 16) * 16 + c / 4)]
  | [a; b] => [byte_of_N (a * 4 + b / 16)]
  | _ => []
  end.

Definition from_base64 (text : string) : list byte :=
  bytes_of_sextets (b64_values text).

Definition be_value (bs : list byte) : N :=
  fold_left (fun n b => (n * 256 + Byte.to_N b)%N) bs 0%N.

(** The head of a CBOR item: major type, argument, and what follows. *)
Definition cbor_head_of (bs : list byte) : option (N * N * list byte) :=
  match bs with
  | [] => None
  | b :: rest =>
      let major := (Byte.to_N b / 32)%N in
      let low := (Byte.to_N b mod 32)%N in
      if (low <? 24)%N then Some (major, low, rest)
      else
        let width := if (low =? 24)%N then 1%nat
                     else if (low =? 25)%N then 2%nat else 4%nat in
        if (27 <=? low)%N then None
        else Some (major, be_value (firstn width rest), skipn width rest)
  end.

Definition malformed : thrown := ErrorObject ForeignError "Unexpected end of CBOR data".

(** [count] items read one after the other with [item]. *)
Definition cbor_sequence {A} (item : list byte -> option (A * list byte))
    (count : nat) (bs : list byte) : option (list A * list byte) :=
  Nat.iter count
    (fun acc =>
       match acc with
       | Some (xs, rest) =>
           match item rest with
           | Some (x, rest') => Some (xs ++ [x], rest')
           | None => None
           end
       | None => None
       end) (Some ([], bs)).

Fixpoint cbor_item (fuel : nat) (bs : list byte) : option (json * list byte) :=
  match fuel with
  | O => None
  | S fuel' =>
      match cbor_head_of bs with
      | Some (major, n, rest) =>
          if (major =? 0)%N then Some (JNum (Z.of_N n), rest)
          else if (major =? 1)%N then Some (JNum (- Z.of_N n - 1), rest)
          else if (major =? 3)%N then
            Some (JStr (string_of_list_byte (firstn (N.to_nat n) rest)),
                  skipn (N.to_nat n) rest)
          else if (major =? 4)%N then
            match cbor_sequence (cbor_item fuel') (N.to_nat n) rest with
            | Some (xs, rest') => Some (JArr xs, rest')
            | None => None
            end
          else if (major =? 5)%N then
            match cbor_sequence
                    (fun bs' =>
                       match cbor_item fuel' bs' with
                       | Some (JStr k, rest') =>
                           match cbor_item fuel' rest' with
                           | Some (v, rest2) => Some ((k, v), rest2)
                           | None => None
                           end
                       | _ => None
                       end) (N.to_nat n) rest with
            | Some (fs, rest') => Some (JObj fs, rest')
            | None => None
            end
          else if (major =? 7)%N then
            if (n =? 20)%N then Some (JBool false, rest)
            else if (n =? 21)%N then Some (JBool true, rest)
            else if (n =? 22)%N then Some (JNull, rest)
            else None
          else None
      | None => None
      end
  end.

Definition from_cbor (bs : list byte) : Exc json :=
  match cbor_item (S (List.length bs)) bs with
  | Some (v, []) => Ok v
  | _ => Throw malformed
  end.

(** The text between the quotes of a JSON string literal. *)
Fixpoint unescaped (s : string) : option string :=
  match s with
  | EmptyString => None
  | String c s' =>
      if Ascii.eqb c "034" then
        match s' with EmptyString => Some EmptyString | _ => None end
      else if Ascii.eqb c "092" then
        match s' with
        | String d rest =>
            match unescaped rest with
            | Some t => Some (String d t)
            | None => None
            end
        | EmptyString => None
        end
      else
        match unescaped s' with
        | Some t => Some (String c t)
        | None => None
        end
  end.

Definition is_digit (c : ascii) : bool :=
  let n := N_of_ascii c in ((48 <=? n) && (n <=? 57))%N.

Definition parse (text : string) : Exc json :=
  let unexpected := Throw (ErrorObject ForeignError "Unexpected token in JSON") in
  match text with
  | String c rest =>
      if Ascii.eqb c "034" then
        match unescaped rest with
        | Some t => Ok (JStr t)
        | None => unexpected
        end
      else if String.eqb text "null" then Ok JNull
      else if String.eqb text "true" then Ok (JBool true)
      else if String.eqb text "false" then Ok (JBool false)
      else if String.eqb text "{}" then Ok (JObj [])
      else if all_chars is_digit text then Ok (JNum 0)
      else unexpected
  | EmptyString => unexpected
  end.

Definition class_name (cls : FurtherErrorClass) : string :=
  match cls with
  | SchemaError => "SchemaError"
  | CordFetchError => "CordFetchError"
  | InputContentsMalformedError => "InputContentsMalformedError"
  | DidError => "DidError"
  end.

Definition raised_text (e : raised) : string :=
  match e with
  | Earlier t => thrown_text t
  | FurtherError cls message _ => class_name cls +:+ ": " +:+ message
  end.

Definition h256 (hex : HexString) : Exc (list byte) :=
  match strip_prefix "0x" hex with
  | Some digits => Ok (firstn 32 (list_byte_of_string digits ++ repeat x00 32))
  | None => Throw (ErrorObject ForeignError "Expected a hex value")
  end.

Definition uri_of_identifier (identifier : string) : Exc string :=
  match identifier with
  | EmptyString => Throw (ErrorObject ForeignError "Invalid identifier")
  | _ => Ok ("cord:" +:+ identifier)
  end.

#[export] Instance decoding : Decoding :=
  {| base64_decode := from_base64;
     cbor_decode_packed := from_cbor;
     cbor_decode := from_cbor;
     JSON_parse := parse;
     Bytes_toHuman := fun text => text;
     String_of_raised := raised_text;
     blake2AsHex_text := fun text => digest_hex (list_byte_of_string text);
     scale_H256 := h256;
     identifierToUri := uri_of_identifier;
     encodeAddress := fun account _ => Ok account;
     hexToString := fun hex => Ok hex |}.

(** The Person schema anchored by Alice. *)
Definition ledger_with_person : Ledger :=
  snd (apply_extrinsic (schemaAccounts_create (encodeCborSchema built_person))
         alice empty_ledger).

(** The same payload filed under another identifier. *)
Definition misfiled_ledger : Ledger :=
  {| registryEntries := ∅;
     schemas := {[ "m2905elsewhere" :=
                     {| stored_schema := encodeCborSchema built_person;
                        stored_schema_digest := "0x7c9d17b86f8a85a6";
                        stored_schema_creator := alice |} ]};
     connected := true |}.

(** A schema with a property that is itself an object. *)
Definition nested_person : object :=
  [ ("title", JStr "Person");
    ("type", JStr "object");
    ("properties",
      JObj [ ("name", JObj [("type", JStr "string")]);
             ("address",
               JObj [ ("type", JStr "object");
                      ("properties",
                        JObj [("city", JObj [("type", JStr "string")])]) ]) ]);
    ("required", JArr [JStr "name"]) ].

(** What [buildFromProperties nested_person alice] returns. *)
Definition built_nested_person : object :=
  [ ("$id", JStr "schema:cord:m29050xfaed8296edacbcb3");
    ("title", JStr "Person");
    ("type", JStr "object");
    ("properties",
      JObj [ ("name", JObj [("type", JStr "string")]);
             ("address",
               JObj [ ("type", JStr "object");
                      ("properties",
                        JObj [("city", JObj [("type", JStr "string")])]) ]) ]);
    ("required", JArr [JStr "name"]);
    ("additionalProperties", JBool false);
    ("$schema", JStr "http://cord.network/draft-01/schema#") ].

Definition built_nested_details : ISchemaAccountsDetails :=
  {| details_schema := built_nested_person;
     details_digest := "0xc682394bd59ee4a2";
     details_creatorUri := "did:cord:33xAlice" |}.

(** The built Person schema with its keys in the opposite order. *)
Definition built_person_reversed : object := rev built_person.

Definition accepts_with_colon (str : string) : Exc string :=
  if has_colon str then Ok str
  else Throw (ErrorObject ForeignError "Invalid URL").

#[export] Instance uris : UriRuntime :=
  {| URL_href := accepts_with_colon;
     encodeURI_decodeURI := fun str => Ok str;
     decodeURIComponent := fun str => Ok str;
     unwrap_None := ErrorObject ForeignError "Option: unwrapping a None value" |}.

(** The service [createDid] registers by default. *)
Definition my_service : DidServiceEndpoint :=
  {| service_id := "#my-service";
     service_type := ["service-type"];
     service_serviceEndpoint := ["https://www.example.com"] |}.

(** The same service with its [id] written without the [#]. *)
Definition my_service_bare : DidServiceEndpoint :=
  {| service_id := "my-service";
     service_type := ["service-type"];
     service_serviceEndpoint := ["https://www.example.com"] |}.

(** Schema metadata for the Person schema. *)
Definition person_metadata : json :=
  JObj [ ("metadata",
           JObj [ ("title", JObj [("default", JStr "Person"); ("fr", JStr "Personne")]);
                  ("properties",
                    JObj [ ("name", JObj [("title", JObj [("default", JStr "Name")])]);
                           ("age", JObj [("title", JObj [("default", JStr "Age")])]) ]) ]);
         ("schemaId", JStr "schema:cord:m29050x6e6a52822cf288fe") ].

(** Type definitions of two runtime versions. *)
Definition types_v1 : object :=
  [ ("Address", JStr "AccountId"); ("Balance", JStr "u64"); ("Index", JStr "u32") ].

Definition types_v2 : object :=
  [ ("Balance", JStr "u128"); ("Hash", JStr "H256") ].

End MoreSample.

(** * Properties *)

(** ** The key order *)

Lemma leb_le (a b : string) :
  String.leb a b = true <-> String_as_OT.lt a b \/ a = b.
Proof.
  unfold String.leb.
  destruct (String.compare a b) eqn:E.
  - apply String_as_OT.cmp_eq in E. tauto.
  - apply String_as_OT.cmp_lt in E. tauto.
  - split; [discriminate|].
    intros [L | ->].
    + apply String_as_OT.cmp_lt in L. unfold String_as_OT.cmp in L. congruence.
    + assert (String.compare b b = Eq) by (apply String_as_OT.cmp_eq; reflexivity).
      congruence.
Qed.

Lemma leb_trans (a b c : string) :
  String.leb a b = true -> String.leb b c = true -> String.leb a c = true.
Proof.
  rewrite !leb_le. intros [L1 | ->] [L2 | ->]; auto.
  left. eapply String_as_OT.lt_trans; eassumption.
Qed.

Lemma leb_false_flip (a b : string) :
  String.leb a b = false -> String.leb b a = true.
Proof.
  intros E. destruct (String.leb_total a b) as [L | L]; congruence.
Qed.

Lemma leb_both (a b : string) :
  String.leb a b = true -> String.leb b a = true -> a = b.
Proof. intros L1 L2. apply String.leb_antisym; assumption. Qed.

(** Insertions of two different keys commute, whatever the list. *)
Lemma insert_key_comm (a b : string * json) (l : object) :
  fst a <> fst b ->
  insert_key a (insert_key b l) = insert_key b (insert_key a l).
Proof.
  intros Hne. induction l as [| x l IH]; simpl.
  - destruct (String.leb (fst a) (fst b)) eqn:Eab,
             (String.leb (fst b) (fst a)) eqn:Eba; try reflexivity.
    + exfalso. apply Hne. apply leb_both; assumption.
    + apply leb_false_flip in Eab. congruence.
  - destruct (String.leb (fst b) (fst x)) eqn:Ebx,
             (String.leb (fst a) (fst x)) eqn:Eax; simpl;
      rewrite ?Ebx, ?Eax.
    + destruct (String.leb (fst a) (fst b)) eqn:Eab,
               (String.leb (fst b) (fst a)) eqn:Eba; try reflexivity.
      * exfalso. apply Hne. apply leb_both; assumption.
      * apply leb_false_flip in Eab. congruence.
    + destruct (String.leb (fst a) (fst b)) eqn:Eab; [|reflexivity].
      rewrite (leb_trans _ _ _ Eab Ebx) in Eax. discriminate.
    + destruct (String.leb (fst b) (fst a)) eqn:Eba; [|reflexivity].
      rewrite (leb_trans _ _ _ Eba Eax) in Ebx. discriminate.
    + f_equal. exact IH.
Qed.

Lemma distinct_NoDup (l : list string) : distinct l = true <-> NoDup l.
Proof.
  induction l as [| k l IH]; simpl.
  - split; [constructor | reflexivity].
  - rewrite andb_true_iff, negb_true_iff, IH, NoDup_cons. 
    assert (existsb (String.eqb k) l = false <-> k ∉ l) as ->; [|tauto].
    rewrite <- not_true_iff_false, existsb_exists.
    split.
    + intros N I. apply N. exists k. split.
      * apply list_elem_of_In, I.
      * apply String.eqb_refl.
    + intros N (y & I & E). apply String.eqb_eq in E. subst y.
      apply N, list_elem_of_In, I.
Qed.

Lemma sort_keys_perm (l l' : object) :
  Permutation l l' -> NoDup (List.map fst l) -> sort_keys l = sort_keys l'.
Proof.
  induction 1 as [| x l l' P IH | x y l | l l' l'' P1 IH1 P2 IH2]; intros D.
  - reflexivity.
  - simpl. f_equal. apply IH. simpl in D. apply NoDup_cons in D. tauto.
  - simpl. apply insert_key_comm.
    simpl in D. apply NoDup_cons in D. destruct D as [N _].
    intros E. apply N. rewrite E. left.
  - rewrite IH1 by assumption. apply IH2.
    assert (Pm : List.map fst l ≡ₚ List.map fst l') by apply Permutation_map, P1.
    rewrite <- Pm. exact D.
Qed.

Lemma insert_key_perm (kv : string * json) (l : object) :
  Permutation (insert_key kv l) (kv :: l).
Proof.
  induction l as [| kw l IH]; simpl; [reflexivity|].
  destruct (String.leb (fst kv) (fst kw)); [reflexivity|].
  rewrite IH. apply perm_swap.
Qed.

(** [sort_keys] keeps the fields. *)
Lemma sort_keys_fields (l : object) : Permutation (sort_keys l) l.
Proof.
  induction l as [| kv l IH]; simpl; [reflexivity|].
  rewrite insert_key_perm, IH. reflexivity.
Qed.

Lemma insert_key_sorted (kv : string * json) (l : object) :
  Sorted.StronglySorted key_le l -> Sorted.StronglySorted key_le (insert_key kv l).
Proof.
  induction 1 as [| kw l S IH F]; simpl.
  - repeat constructor.
  - destruct (String.leb (fst kv) (fst kw)) eqn:E.
    + constructor; [constructor; assumption|].
      constructor; [exact E|].
      rewrite List.Forall_forall in *. intros x I.
      unfold key_le in *. eapply leb_trans; [exact E | apply F, I].
    + constructor; [exact IH|].
      rewrite List.Forall_forall in *. intros x I.
      apply (Permutation_in _ (insert_key_perm kv l)) in I.
      destruct I as [<- | I]; [|apply F, I].
      apply leb_false_flip, E.
Qed.

(** [sort_keys] leaves the keys in ascending order. *)
Lemma sort_keys_sorted (l : object) : Sorted.StronglySorted key_le (sort_keys l).
Proof.
  induction l as [| kv l IH]; simpl; [constructor|].
  apply insert_key_sorted, IH.
Qed.

(** ** Well-formed values and key permutations *)

Lemma well_formed_obj (fs : object) :
  well_formed (JObj fs) = true <->
  NoDup (List.map fst fs) /\ Forall (fun kv => well_formed (snd kv) = true) fs.
Proof.
  simpl. rewrite andb_true_iff, distinct_NoDup, forallb_forall, Forall_forall.
  split; intros [D F]; (split; [exact D|]); intros x I; apply F;
    apply list_elem_of_In, I.
Qed.

Lemma well_formed_arr (xs : list json) :
  well_formed (JArr xs) = true <-> Forall (fun x => well_formed x = true) xs.
Proof.
  simpl. rewrite forallb_forall, Forall_forall.
  split; intros F x I; apply F; apply list_elem_of_In, I.
Qed.

Lemma map_fst_update (pre post : object) (k : string) (v v' : json) :
  List.map fst (pre ++ (k, v) :: post) = List.map fst (pre ++ (k, v') :: post).
Proof. rewrite !List.map_app. reflexivity. Qed.

Lemma key_perm_well_formed (a b : json) :
  key_perm a b -> well_formed a = true -> well_formed b = true.
Proof.
  induction 1 as [j | a b c _ IH1 _ IH2 | fs gs P | pre k v v' post _ IH
                  | pre x x' post _ IH]; intros W.
  - exact W.
  - auto.
  - apply well_formed_obj in W. destruct W as [D F].
    apply well_formed_obj. split.
    + assert (Pm : List.map fst fs ≡ₚ List.map fst gs) by apply Permutation_map, P.
      rewrite <- Pm. exact D.
    + rewrite <- P. exact F.
  - apply well_formed_obj in W. destruct W as [D F].
    apply well_formed_obj. split.
    + rewrite (map_fst_update pre post k v' v). exact D.
    + apply Forall_app in F. destruct F as [F1 F2].
      apply Forall_cons in F2. destruct F2 as [Fv F2].
      apply Forall_app. split; [exact F1|].
      apply Forall_cons. split; [apply IH, Fv | exact F2].
  - apply well_formed_arr in W. apply well_formed_arr.
    apply Forall_app in W. destruct W as [F1 F2].
    apply Forall_cons in F2. destruct F2 as [Fx F2].
    apply Forall_app. split; [exact F1|].
    apply Forall_cons. split; [apply IH, Fx | exact F2].
Qed.

Lemma map_fst_sorted_values (fs : object) :
  List.map fst (List.map (fun kv => (fst kv, sortObj (snd kv))) fs) = List.map fst fs.
Proof. rewrite List.map_map. reflexivity. Qed.

(** Sorting forgets the order in which keys were written. *)
Lemma sortObj_key_perm (a b : json) :
  key_perm a b -> well_formed a = true -> sortObj a = sortObj b.
Proof.
  induction 1 as [j | a b c Hab IH1 _ IH2 | fs gs P | pre k v v' post _ IH
                  | pre x x' post _ IH]; intros W.
  - reflexivity.
  - rewrite IH1 by exact W. apply IH2. eapply key_perm_well_formed; eassumption.
  - simpl. f_equal. apply sort_keys_perm.
    + apply Permutation_map, P.
    + rewrite map_fst_sorted_values. apply well_formed_obj in W. tauto.
  - apply well_formed_obj in W. destruct W as [_ F].
    apply Forall_app in F. destruct F as [_ F].
    apply Forall_cons in F. destruct F as [Fv _].
    simpl. rewrite !List.map_app. simpl. rewrite (IH Fv). reflexivity.
  - apply well_formed_arr in W.
    apply Forall_app in W. destruct W as [_ F].
    apply Forall_cons in F. destruct F as [Fx _].
    simpl. rewrite !List.map_app. simpl. rewrite (IH Fx). reflexivity.
Qed.

Lemma filter_perm {A} (p : A -> bool) (l l' : list A) :
  Permutation l l' -> Permutation (List.filter p l) (List.filter p l').
Proof.
  induction 1 as [| x l l' _ IH | x y l | l l' l'' _ IH1 _ IH2]; simpl.
  - constructor.
  - destruct (p x); [constructor|]; exact IH.
  - destruct (p x), (p y); try reflexivity. constructor.
  - etransitivity; eassumption.
Qed.

Lemma key_perm_without (k : string) (a b : json) :
  key_perm a b -> key_perm (without k a) (without k b).
Proof.
  induction 1 as [j | a b c _ IH1 _ IH2 | fs gs P | pre k' v v' post Hv _
                  | pre x x' post Hx _].
  - apply kp_refl.
  - eapply kp_trans; eassumption.
  - simpl. apply kp_keys. apply filter_perm, P.
  - simpl. unfold js_rest. rewrite !List.filter_app. simpl.
    destruct (negb (String.eqb k k')).
    + apply kp_field, Hv.
    + apply kp_refl.
  - simpl. apply kp_item, Hx.
Qed.

Lemma well_formed_without (k : string) (fs : object) :
  well_formed (JObj fs) = true -> well_formed (JObj (js_rest k fs)) = true.
Proof.
  rewrite !well_formed_obj. intros [D F]. unfold js_rest. split.
  - induction fs as [| [k' v] fs IH]; simpl; [constructor|].
    simpl in D. apply NoDup_cons in D. destruct D as [N D].
    apply Forall_cons in F. destruct F as [_ F].
    destruct (negb (String.eqb k k')); simpl; [|auto].
    apply NoDup_cons. split; [|auto].
    intros I. apply N.
    apply list_elem_of_In, List.in_map_iff in I. destruct I as ([k2 v2] & E & I).
    apply List.filter_In in I. destruct I as [I _]. simpl in E. subst k2.
    apply list_elem_of_In, List.in_map_iff. exists (k', v2). auto.
  - apply Forall_forall. intros x I.
    apply list_elem_of_In, List.filter_In in I. destruct I as [I _].
    rewrite Forall_forall in F. apply F, list_elem_of_In, I.
Qed.

(** ** Object updates *)

Lemma js_rest_absent (k : string) (o : object) :
  k ∉ List.map fst o -> js_rest k o = o.
Proof.
  unfold js_rest. induction o as [| [k' v] o IH]; simpl; [reflexivity|].
  intros N. apply not_elem_of_cons in N. destruct N as [Nk N].
  destruct (String.eqb k k') eqn:E.
  - apply String.eqb_eq in E. contradiction.
  - simpl. f_equal. apply IH, N.
Qed.

Lemma js_rest_keys (k : string) (o : object) : k ∉ List.map fst (js_rest k o).
Proof.
  unfold js_rest. intros I.
  apply list_elem_of_In, List.in_map_iff in I. destruct I as ([k' v] & E & I).
  apply List.filter_In in I. destruct I as [_ I]. simpl in *. subst k'.
  rewrite String.eqb_refl in I. discriminate.
Qed.

Lemma js_set_keys (k k' : string) (v : json) (o : object) :
  k' ∈ List.map fst (js_set k v o) <-> k' = k \/ k' ∈ List.map fst o.
Proof.
  induction o as [| [k2 v2] o IH]; simpl.
  - rewrite elem_of_cons. reflexivity.
  - destruct (String.eqb k k2) eqn:E; simpl.
    + apply String.eqb_eq in E. subst k2. rewrite !elem_of_cons. tauto.
    + rewrite !elem_of_cons, IH. tauto.
Qed.

Lemma js_set_absent (k : string) (v : json) (o : object) :
  k ∉ List.map fst o -> js_set k v o = o ++ [(k, v)].
Proof.
  induction o as [| [k' v'] o IH]; simpl; [reflexivity|].
  intros N. apply not_elem_of_cons in N. destruct N as [Nk N].
  destruct (String.eqb k k') eqn:E.
  - apply String.eqb_eq in E. contradiction.
  - f_equal. apply IH, N.
Qed.

Lemma js_set_distinct (k : string) (v : json) (o : object) :
  NoDup (List.map fst o) -> NoDup (List.map fst (js_set k v o)).
Proof.
  induction o as [| [k' v'] o IH]; simpl; intros D.
  - apply NoDup_singleton.
  - apply NoDup_cons in D. destruct D as [N D].
    destruct (String.eqb k k') eqn:E; simpl.
    + apply String.eqb_eq in E. subst k'. apply NoDup_cons. tauto.
    + apply NoDup_cons. split; [|apply IH, D].
      rewrite js_set_keys. intros [-> | I]; [|contradiction].
      rewrite String.eqb_refl in E. discriminate.
Qed.

(** Spreading an object with distinct keys over a base it shares no key
    with appends its fields. *)
Lemma js_spread_fresh (base o : object) :
  NoDup (List.map fst o) ->
  (forall k, k ∈ List.map fst o -> k ∉ List.map fst base) ->
  js_spread base o = base ++ o.
Proof.
  unfold js_spread. revert base.
  induction o as [| [k v] o IH]; simpl; intros base D F.
  - symmetry. apply app_nil_r.
  - apply NoDup_cons in D. destruct D as [N D].
    rewrite js_set_absent by (apply F; left).
    rewrite IH; [rewrite <- app_assoc; reflexivity | exact D |].
    intros k' I. rewrite List.map_app, elem_of_app. simpl.
    rewrite elem_of_cons. intros [B | [-> | E]].
    + apply (F k'); [right; exact I | exact B].
    + contradiction.
    + inversion E.
Qed.

(** ** Canonical encoding (C2) *)

Section CanonicalEncoding.
Context `{Utils} `{Api} `{Types} `{Identifier} `{Runtime}.

Lemma encodeCborSchema_rest (r r' : object) :
  js_rest "$id" r = js_rest "$id" r' -> encodeCborSchema r = encodeCborSchema r'.
Proof. unfold encodeCborSchema. intros ->. reflexivity. Qed.

Lemma encodeCborSchema_key_perm (r r' : object) :
  well_formed (JObj r) = true ->
  key_perm (JObj r) (JObj r') ->
  encodeCborSchema r = encodeCborSchema r'.
Proof.
  intros W P. unfold encodeCborSchema.
  rewrite (sortObj_key_perm (JObj (js_rest "$id" r)) (JObj (js_rest "$id" r'))).
  - reflexivity.
  - apply (key_perm_without "$id") in P. exact P.
  - apply well_formed_without, W.
Qed.

Lemma getUriForSchema_encoding (r r' : object) :
  encodeCborSchema r = encodeCborSchema r' ->
  getHashForSchema r = getHashForSchema r' /\ getUriForSchema r = getUriForSchema r'.
Proof.
  intros E. unfold getHashForSchema, getUriForSchema. rewrite E. split; reflexivity.
Qed.

(** C2. Canonicalisation invariance: a well-formed schema record and
    any record obtained from it by reordering object keys, at any
    nesting level, have the same [encodeCborSchema] output; so have
    two records that differ only in the [$id] field (present, absent
    or different). In both cases the digest and the URI derived from
    the output agree as well. *)
Theorem encodeCborSchema_canonical (r r' : object) :
  well_formed (JObj r) = true ->
  key_perm (JObj r) (JObj r') \/ js_rest "$id" r = js_rest "$id" r' ->
  encodeCborSchema r = encodeCborSchema r'
  /\ getHashForSchema r = getHashForSchema r'
  /\ getUriForSchema r = getUriForSchema r'.
Proof.
  intros W [P | E].
  - pose proof (encodeCborSchema_key_perm r r' W P) as Enc.
    split; [exact Enc | apply getUriForSchema_encoding, Enc].
  - pose proof (encodeCborSchema_rest r r' E) as Enc.
    split; [exact Enc | apply getUriForSchema_encoding, Enc].
Qed.
End CanonicalEncoding.

(** ** The validator *)

Lemma allOf_true (rs : list bool) :
  allOf rs = true <-> Forall (fun b => b = true) rs.
Proof.
  unfold allOf. rewrite forallb_forall, Forall_forall.
  split; intros F b I; apply F; apply list_elem_of_In, I.
Qed.

Lemma json_eqb_str (s : string) (v : json) :
  json_eqb (JStr s) v = true -> v = JStr s.
Proof.
  destruct v; simpl; try discriminate.
  intros E. apply String.eqb_eq in E. congruence.
Qed.

Lemma js_has_get (k : string) (fs : object) :
  js_has k fs = true -> exists v, js_get k fs = Some v.
Proof. unfold js_has. destruct (js_get k fs); [eauto | discriminate]. Qed.

Lemma kw_property_get (name : string) (s : json -> bool) (fs : object) (x : json) :
  kw_property name s (JObj fs) = true -> js_get name fs = Some x -> s x = true.
Proof.
  simpl. induction fs as [| [k v] fs IH]; simpl; [discriminate|].
  rewrite andb_true_iff. intros [Hv Hfs].
  rewrite (String.eqb_sym name k).
  destruct (String.eqb k name); [|auto].
  intros E. congruence.
Qed.

Section Validation.
Context `{Utils} `{Api} `{Types} `{Identifier} `{Runtime}.

Lemma SchemaModel_parts (v : json) :
  SchemaModel v = true ->
  kw_property "$schema"
    (fun x => allOf [kw_type TString x; kw_const (JStr SchemaModelV1_id) x]) v = true
  /\ kw_type TObject v = true
  /\ kw_required
       ["$id"; "$schema"; "additionalProperties"; "properties"; "title"; "type"] v = true.
Proof.
  unfold SchemaModel. rewrite allOf_true. intros F.
  apply Forall_cons in F. destruct F as [P F].
  apply Forall_cons in F. destruct F as [V1 _].
  unfold SchemaModelV1 in V1. rewrite allOf_true in V1.
  split; [exact P|]. split.
  - apply Forall_cons in V1. tauto.
  - rewrite Forall_forall in V1. apply V1.
    do 11 apply list_elem_of_further. apply list_elem_of_here.
Qed.

(** A value that validates is an object declaring the recognised version. *)
Lemma SchemaModel_declares_version (v : json) :
  SchemaModel v = true -> declared_schema v = Some (JStr SchemaModelV1_id).
Proof.
  intros V. apply SchemaModel_parts in V. destruct V as (P & T & R).
  destruct v as [| | | | | fs]; try discriminate T.
  simpl in R. rewrite !andb_true_iff in R. destruct R as (_ & R & _).
  apply js_has_get in R. destruct R as [x G].
  pose proof (kw_property_get _ _ _ _ P G) as S.
  apply allOf_true in S. apply Forall_cons in S. destruct S as [_ S].
  apply Forall_cons in S. destruct S as [C _].
  apply json_eqb_str in C. simpl. congruence.
Qed.

Lemma verifyObjectAgainstSchema_spec (obj : json) (schema : json -> bool) :
  verifyObjectAgainstSchema obj schema =
  if schema obj then Ok tt
  else Throw (ErrorObject ObjectUnverifiableError
                "JSON schema verification failed for object").
Proof. reflexivity. Qed.

(** C7. Meta-schema version gate: a record whose [$schema] field is
    not the recognised meta-schema identifier
    [http://cord.network/draft-01/schema#] (the field is absent, is
    another string, is not a string, or the record is not an object)
    fails validation against [SchemaModel], and
    [verifyObjectAgainstSchema] raises [ObjectUnverifiableError]. *)
Theorem SchemaModel_version_gate (record : json) :
  declared_schema record <> Some (JStr "http://cord.network/draft-01/schema#") ->
  SchemaModel record = false
  /\ verifyObjectAgainstSchema record SchemaModel =
     Throw (ErrorObject ObjectUnverifiableError
              "JSON schema verification failed for object").
Proof.
  intros D.
  assert (V : SchemaModel record = false).
  { destruct (SchemaModel record) eqn:V; [|reflexivity].
    exfalso. apply D. apply SchemaModel_declares_version, V. }
  split; [exact V|].
  rewrite verifyObjectAgainstSchema_spec, V. reflexivity.
Qed.

(** C10. The validity query is total: on every input, [isISchema]
    returns a boolean; it is [false] exactly when
    [verifyDataStructure] raises and [true] exactly when it returns. *)
Theorem isISchema_total (input : json) :
  (isISchema input = true <-> verifyDataStructure input = Ok tt)
  /\ (isISchema input = false <-> exists e, verifyDataStructure input = Throw e)
  /\ isISchema input = SchemaModel input.
Proof.
  unfold isISchema, verifyDataStructure.
  rewrite verifyObjectAgainstSchema_spec.
  destruct (SchemaModel input); repeat split; try discriminate; try reflexivity; eauto.
  intros [e E]. discriminate E.
Qed.
End Validation.

(** ** Base64 text is longer than the bytes it encodes *)

Lemma list_byte_of_string_length (s : string) :
  List.length (list_byte_of_string s) = String.length s.
Proof.
  induction s as [| c s IH]; simpl; [reflexivity|]. f_equal. exact IH.
Qed.

Lemma base64_length_bounded (n : nat) (bs : list byte) :
  (List.length bs <= n)%nat ->
  String.length (base64 bs) = (4 * ((List.length bs + 2) / 3))%nat.
Proof.
  revert bs. induction n as [| n IH]; intros bs L.
  - destruct bs; [reflexivity | simpl in L; lia].
  - destruct bs as [| a [| b [| c rest]]]; try reflexivity.
    change (base64 (a :: b :: c :: rest)) with
      (String (b64_digit (Byte.to_N a / 4))
         (String (b64_digit ((Byte.to_N a mod 4) * 16 + Byte.to_N b / 16))
            (String (b64_digit ((Byte.to_N b mod 16) * 4 + Byte.to_N c / 64))
               (String (b64_digit (Byte.to_N c mod 64)) (base64 rest))))).
    cbn [String.length List.length]. rewrite IH by (simpl in L; lia).
    replace (S (S (S (List.length rest))) + 2)%nat
      with (List.length rest + 2 + 1 * 3)%nat by lia.
    rewrite Nat.div_add by lia. lia.
Qed.

Lemma base64_length (bs : list byte) :
  String.length (base64 bs) = (4 * ((List.length bs + 2) / 3))%nat.
Proof. apply (base64_length_bounded (List.length bs)). lia. Qed.

Lemma base64_differs (bs : list byte) :
  bs <> [] -> list_byte_of_string (base64 bs) <> bs.
Proof.
  intros N E. apply (f_equal (@List.length byte)) in E.
  rewrite list_byte_of_string_length, base64_length in E.
  destruct bs as [| b bs]; [congruence|]. simpl in E.
  pose proof (Nat.div_mod_eq (S (List.length bs) + 2) 3) as D.
  pose proof (Nat.mod_upper_bound (S (List.length bs) + 2) 3) as U.
  simpl in D, U. lia.
Qed.

(** ** Self-certification (C1) and what is hashed (C3) *)

Section SelfCertification.
Context `{Utils} `{Api} `{Types} `{Identifier} `{Runtime}.

Lemma strict_ne_false (a : string) (b : option json) :
  strict_ne a b = false <-> b = Some (JStr a).
Proof.
  unfold strict_ne. destruct b as [[] |]; try (split; [discriminate | congruence]).
  rewrite negb_false_iff, String.eqb_eq. split; congruence.
Qed.

(** What [verifySchemaStructure] does, case by case. *)
Lemma verifySchemaStructure_cases (input : object) :
  verifySchemaStructure input =
  if SchemaModel (JObj input) then
    if strict_ne (uri (getUriForSchema input)) (js_get "$id" input)
    then Throw (id_mismatch input)
    else Ok tt
  else Throw unverifiable.
Proof.
  unfold verifySchemaStructure. rewrite verifyObjectAgainstSchema_spec.
  destruct (SchemaModel (JObj input)); reflexivity.
Qed.



(** X9. The record the builder checks carries the identifier its content
    derives: the builder can fail on structure, never on the identifier. *)
Lemma buildFromProperties_outcome (schema : object) (creatorAddress : string) :
  well_formed (JObj schema) = true ->
  (exists built, buildFromProperties schema creatorAddress = Ok built)
  \/ buildFromProperties schema creatorAddress = Throw unverifiable.
Proof.
  intros W. unfold buildFromProperties.
  set (content := js_set "$schema" _ (js_set "additionalProperties" _ _)).
  set (schemaType := js_spread _ _).
  assert (Fresh : "$id" ∉ List.map fst content).
  { unfold content. rewrite !js_set_keys. intros [E | [E | I]]; try discriminate E.
    exact (js_rest_keys _ _ I). }
  assert (D : NoDup (List.map fst content)).
  { unfold content. apply js_set_distinct, js_set_distinct.
    apply well_formed_without with (k := "$id") in W.
    apply well_formed_obj in W. tauto. }
  assert (S : schemaType = ("$id", JStr (uri (getUriForSchema content))) :: content).
  { unfold schemaType. rewrite js_spread_fresh; [reflexivity | exact D |].
    intros k I. simpl. rewrite elem_of_cons. intros [-> | E]; [contradiction|].
    inversion E. }
  assert (U : getUriForSchema schemaType = getUriForSchema content).
  { apply getUriForSchema_encoding, encodeCborSchema_rest.
    rewrite S. unfold js_rest at 1. simpl.
    fold (js_rest "$id" content). reflexivity. }
  assert (G : strict_ne (uri (getUriForSchema schemaType))
                (js_get "$id" schemaType) = false).
  { apply strict_ne_false. rewrite U, S. reflexivity. }
  rewrite verifySchemaStructure_cases, G.
  destruct (SchemaModel (JObj schemaType)); [|right; reflexivity].
  left. eexists. reflexivity.
Qed.


(** C3, as the code has it. What is hashed is the base64 text of the
    canonical CBOR bytes: [getHashForSchema] and the [digest] of
    [getUriForSchema] are [hashStr] of that text, and the [uri] is
    derived from the blake2 hash of the SCALE [Bytes] encoding of that
    text. The text is never the canonical bytes themselves. *)
Theorem schema_digest_preimage (schema : object) :
  let raw := cbor_encode (sortObj (JObj (js_rest "$id" schema))) in
  let text := base64 raw in
  encodeCborSchema schema = text
  /\ getHashForSchema schema = hashStr text
  /\ digest (getUriForSchema schema) = hashStr text
  /\ uri (getUriForSchema schema) =
     hashToUri (blake2AsHex (scale_Bytes text)) 10501 SCHEMA_PREFIX
  /\ (raw <> [] -> list_byte_of_string text <> raw).
Proof.
  intros raw text. repeat split. apply base64_differs.
Qed.
End SelfCertification.

(** ** Lifecycle guards (C4, C5, C6, C9) *)

Lemma submissions_app (es es' : list Event) :
  submissions (es ++ es') = submissions es ++ submissions es'.
Proof. unfold submissions. apply omap_app. Qed.

Lemma submissions_query (es : list Event) (st : Storage) (key : string) :
  submissions (es ++ [Queried st key]) = submissions es.
Proof. rewrite submissions_app. simpl. apply app_nil_r. Qed.

Section LifecycleGuards.
Context {Chain : Type} `{Gateway Chain}.
Context `{Utils} `{Api} `{Types} `{Identifier} `{Runtime}.

Lemma isRegistryEntryStored_answer
    (w : World Chain) (id : string) (o : option PalletEntriesRegistryEntryDetails) :
  query_registryEntries id (chain w) = Ok o ->
  isRegistryEntryStored id w = (Ok (negb (isNone o)), queried w id).
Proof.
  intros Q. unfold isRegistryEntryStored, try_catch, async_bind,
    await_registryEntries, async_ret. rewrite Q. reflexivity.
Qed.

Lemma isRegistryEntryStored_failure (w : World Chain) (id : string) (e : thrown) :
  query_registryEntries id (chain w) = Throw e ->
  isRegistryEntryStored id w =
  (Throw (ErrorObject CordQueryError
            ("Error querying the registry-entry: " +:+ String_of_thrown e)),
   queried w id).
Proof.
  intros Q. unfold isRegistryEntryStored, try_catch, async_bind,
    await_registryEntries, async_throw. rewrite Q. reflexivity.
Qed.

Lemma signAndSubmitTx_step (w : World Chain) (tx : Extrinsic) (author : Account) :
  signAndSubmitTx tx author w =
  (fst (submit tx author (chain w)),
   {| chain := snd (submit tx author (chain w));
      events := events w ++ [Submitted tx author] |}).
Proof. unfold signAndSubmitTx. destruct (submit tx author (chain w)). reflexivity. Qed.

Lemma queried_then_submitted
    (w : World Chain) (id : string) (tx : Extrinsic) (author : Account) :
  {| chain := snd (submit tx author (chain (queried w id)));
     events := events (queried w id) ++ [Submitted tx author] |}
  = queried_and_submitted w id tx author.
Proof.
  unfold queried_and_submitted, queried. simpl. rewrite <- app_assoc. reflexivity.
Qed.

Ltac run_guard Q :=
  unfold try_catch, async_bind, async_lift, async_throw, async_ret;
  repeat match goal with
         | E : ?x = Ok _ |- context [?x] => rewrite E
         end;
  cbn [fst snd];
  first [ rewrite (isRegistryEntryStored_answer _ _ _ Q)
        | rewrite (isRegistryEntryStored_failure _ _ _ Q) ];
  cbn [negb isNone].

Ltac run_submit :=
  rewrite signAndSubmitTx_step, queried_then_submitted;
  unfold submission_outcome; cbn [chain queried];
  match goal with
  | |- context [fst (submit ?tx ?a ?c)] => destruct (fst (submit tx a c)) as [[] |]
  end; reflexivity.

Ltac stop_at_guard A :=
  unfold dispatchUpdateEntryToChain, dispatchRevokeEntryToChain,
    dispatchReinstateEntryToChain, dispatchUpdateOwnershipToChain,
    dispatchCreateEntryToChain,
    try_catch, async_bind, async_lift, async_throw, async_ret;
  repeat match goal with
         | |- context [uriToEntryIdAndDigest ?u] =>
             let P := fresh "P" in
             destruct (uriToEntryIdAndDigest u) as [[? ?] | ?] eqn:P; cbn [fst snd]
         | |- context [uriToIdentifier ?u] =>
             destruct (uriToIdentifier u) as [? | ?]; cbn [fst snd]
         | |- context [isRegistryEntryStored ?i ?w] =>
             rewrite (isRegistryEntryStored_answer w i _ (A _ _ eq_refl));
             cbn [fst snd negb isNone]
         end.

(** C4, as the code has it. When the ledger has no entry under the
    identifier of the entry URI, none of Update, Revoke, Reinstate and
    TransferOwnership returns or submits: each throws and leaves the
    chain as it was, whatever the URIs are. When the identifier
    helpers accept the URIs, the existence query is the only call made
    to the gateway and the error is a [CordDispatchError]: Revoke and
    Reinstate throw it with the "does not exists" message, Update and
    TransferOwnership re-wrap that message in the
    "Error dispatching to chain" message of their handler. When the
    helper refuses the entry URI, the ledger is not asked at all. *)
Theorem guarded_transitions_abort_when_absent
    (w : World Chain) (entry : IRegistryEntry)
    (newOwnerAccount : Account) (newOwnerAuthorizationUri : string)
    (authorAccount : Account) :
  (forall registryEntryId entryDigest,
      uriToEntryIdAndDigest (entry_uri entry) = Ok (registryEntryId, entryDigest) ->
      query_registryEntries registryEntryId (chain w) = Ok None) ->
  let update := dispatchUpdateEntryToChain entry authorAccount w in
  let revoke :=
    dispatchRevokeEntryToChain
      (entry_uri entry) (entry_authorizationUri entry) authorAccount w in
  let reinstate :=
    dispatchReinstateEntryToChain
      (entry_uri entry) (entry_authorizationUri entry) authorAccount w in
  let transfer :=
    dispatchUpdateOwnershipToChain
      (entry_uri entry) (entry_authorizationUri entry) newOwnerAccount
      newOwnerAuthorizationUri authorAccount w in
  aborted w update /\ aborted w revoke /\ aborted w reinstate /\ aborted w transfer
  /\ (forall registryEntryId entryDigest authorizationId newOwnerAuthorizationId,
         uriToEntryIdAndDigest (entry_uri entry) = Ok (registryEntryId, entryDigest) ->
         uriToIdentifier (Some (JStr (entry_authorizationUri entry)))
         = Ok authorizationId ->
         uriToIdentifier (Some (JStr newOwnerAuthorizationUri))
         = Ok newOwnerAuthorizationId ->
         let missing := does_not_exist_message (entry_uri entry) in
         update = (Throw (ErrorObject CordDispatchError (dispatch_message missing)),
                   queried w registryEntryId)
         /\ revoke = (Throw (ErrorObject CordDispatchError missing),
                      queried w registryEntryId)
         /\ reinstate = (Throw (ErrorObject CordDispatchError missing),
                         queried w registryEntryId)
         /\ transfer =
            (Throw (ErrorObject CordDispatchError
                      (dispatch_message (JSON_stringify (JStr missing)))),
             queried w registryEntryId))
  /\ (forall t,
         uriToEntryIdAndDigest (entry_uri entry) = Throw t ->
         snd update = w /\ snd revoke = w /\ snd reinstate = w /\ snd transfer = w).
Proof.
  intros A update revoke reinstate transfer.
  subst update revoke reinstate transfer. unfold aborted.
  split; [|split; [|split; [|split; [|split]]]].
  - stop_at_guard A; cbn [queried chain events];
      (split; [eexists; reflexivity|]); split;
      first [reflexivity | apply submissions_query].
  - stop_at_guard A; cbn [queried chain events];
      (split; [eexists; reflexivity|]); split;
      first [reflexivity | apply submissions_query].
  - stop_at_guard A; cbn [queried chain events];
      (split; [eexists; reflexivity|]); split;
      first [reflexivity | apply submissions_query].
  - stop_at_guard A; cbn [queried chain events];
      (split; [eexists; reflexivity|]); split;
      first [reflexivity | apply submissions_query].
  - intros registryEntryId entryDigest authorizationId newOwnerAuthorizationId
      P1 P2 P3.
    pose proof (A _ _ P1) as Q.
    repeat split.
    + unfold dispatchUpdateEntryToChain. run_guard Q. reflexivity.
    + unfold dispatchRevokeEntryToChain. run_guard Q. reflexivity.
    + unfold dispatchReinstateEntryToChain. run_guard Q. reflexivity.
    + unfold dispatchUpdateOwnershipToChain. run_guard Q. reflexivity.
  - intros t P.
    unfold dispatchUpdateEntryToChain, dispatchRevokeEntryToChain,
      dispatchReinstateEntryToChain, dispatchUpdateOwnershipToChain,
      try_catch, async_bind, async_lift, async_throw.
    rewrite P. repeat split.
Qed.




Lemma dispatchReinstateEntryToChain_present
    (w : World Chain) (registryEntryUri authorizationUri : string)
    (authorAccount : Account) (registryEntryId entryDigest authorizationId : string)
    (stored : PalletEntriesRegistryEntryDetails) :
  uriToEntryIdAndDigest registryEntryUri = Ok (registryEntryId, entryDigest) ->
  uriToIdentifier (Some (JStr authorizationUri)) = Ok authorizationId ->
  query_registryEntries registryEntryId (chain w) = Ok (Some stored) ->
  let tx := entries_reinstate registryEntryId authorizationId in
  dispatchReinstateEntryToChain registryEntryUri authorizationUri authorAccount w =
    (submission_outcome w tx authorAccount registryEntryUri dispatch_message,
     queried_and_submitted w registryEntryId tx authorAccount).
Proof.
  intros P1 P2 Q tx. subst tx.
  unfold dispatchReinstateEntryToChain. run_guard Q. run_submit.
Qed.

(** C6. Reinstate idempotence: the local precondition of
    [dispatchReinstateEntryToChain] is that the entry exists; the
    stored details, the revoked flag among them, are not looked at.
    For an existing entry, whatever its flag, the function submits
    [entries.reinstate(id, authorizationId)] and returns the URI when
    the ledger accepts. Run again right after, on a ledger that still
    holds the entry, it passes the guard again and submits the same
    payload. *)
Theorem reinstate_is_idempotent
    (w : World Chain) (registryEntryUri authorizationUri : string)
    (authorAccount : Account) (registryEntryId entryDigest authorizationId : string)
    (stored : PalletEntriesRegistryEntryDetails) :
  uriToEntryIdAndDigest registryEntryUri = Ok (registryEntryId, entryDigest) ->
  uriToIdentifier (Some (JStr authorizationUri)) = Ok authorizationId ->
  query_registryEntries registryEntryId (chain w) = Ok (Some stored) ->
  let tx := entries_reinstate registryEntryId authorizationId in
  let w1 := queried_and_submitted w registryEntryId tx authorAccount in
  dispatchReinstateEntryToChain registryEntryUri authorizationUri authorAccount w =
    (submission_outcome w tx authorAccount registryEntryUri dispatch_message, w1)
  /\ (fst (submit tx authorAccount (chain w)) = Ok tt ->
      fst (dispatchReinstateEntryToChain
             registryEntryUri authorizationUri authorAccount w)
      = Ok registryEntryUri)
  /\ (forall stored1,
         query_registryEntries registryEntryId (chain w1) = Ok (Some stored1) ->
         dispatchReinstateEntryToChain
           registryEntryUri authorizationUri authorAccount w1 =
           (submission_outcome w1 tx authorAccount registryEntryUri dispatch_message,
            queried_and_submitted w1 registryEntryId tx authorAccount)).
Proof.
  intros P1 P2 Q tx w1.
  pose proof (dispatchReinstateEntryToChain_present
                w _ _ authorAccount _ _ _ stored P1 P2 Q) as R.
  cbn zeta in R. fold tx in R. fold w1 in R.
  split; [exact R|]. split.
  - intros S. rewrite R. unfold submission_outcome. rewrite S. reflexivity.
  - intros stored1 Q1.
    exact (dispatchReinstateEntryToChain_present
             w1 _ _ authorAccount _ _ _ stored1 P1 P2 Q1).
Qed.

(** C9. Schema anchoring is idempotent: for a schema that is already
    stored on the ledger, [dispatchToChain] returns the schema's
    [$id]; it raises nothing and submits nothing, the existence query
    being all that reaches the gateway. *)
Theorem schema_anchoring_is_idempotent
    (w : World Chain) (schema : object) (authorAccount : Account)
    (identifier : string) (stored : PalletSchemaAccountsSchemaEntry) :
  uriToIdentifier (js_get "$id" schema) = Ok identifier ->
  query_schemas identifier (chain w) = Ok (Some stored) ->
  let w' := {| chain := chain w;
               events := events w ++ [Queried Schemas identifier] |} in
  dispatchToChain schema authorAccount w = (Ok (js_get "$id" schema), w')
  /\ chain w' = chain w
  /\ submissions (events w') = submissions (events w).
Proof.
  intros P Q w'. repeat split.
  - unfold dispatchToChain, isSchemaStored, try_catch, async_bind, async_lift,
      await_schemas, async_ret.
    rewrite P, Q. reflexivity.
  - apply submissions_query.
Qed.
End LifecycleGuards.

(** ** Authorization URIs (C8) *)

Section AuthorizationUri.
Context `{Api} `{Types} `{Identifier}.

Lemma authorizationDigestInput_ok
    (namespaceUri delegateAddress creatorAddress namespaceId : string)
    (delegate creator : list byte) :
  uriToIdentifier (Some (JStr namespaceUri)) = Ok namespaceId ->
  scale_AccountId delegateAddress = Ok delegate ->
  scale_AccountId creatorAddress = Ok creator ->
  authorizationDigestInput namespaceUri delegateAddress creatorAddress
  = Ok (scale_Bytes namespaceId ++ delegate ++ creator).
Proof.
  intros E1 E2 E3. unfold authorizationDigestInput. rewrite E1. simpl.
  rewrite E2. simpl. rewrite E3. reflexivity.
Qed.

(** C8. Authorization URI derivation: [getUriForAuthorization]
    returns [hashToUri] of the blake2 hash of the encoded namespace
    identifier followed by the encoded delegate and the encoded
    delegator (creator), with ident 13101 and prefix
    [namespaceauth:cord:]. The result is a function of the three
    inputs alone (no chain state enters it). With account encodings
    of one fixed width, two derivations hash the same bytes only if
    the encoded scope, the encoded delegate and the encoded delegator
    all agree: changing any of them changes the hashed bytes. *)
Theorem authorization_uri_derivation
    (namespaceUri delegateAddress creatorAddress : string)
    (namespaceUri' delegateAddress' creatorAddress' : string)
    (namespaceId namespaceId' : string)
    (delegate creator delegate' creator' : list byte) :
  uriToIdentifier (Some (JStr namespaceUri)) = Ok namespaceId ->
  scale_AccountId delegateAddress = Ok delegate ->
  scale_AccountId creatorAddress = Ok creator ->
  uriToIdentifier (Some (JStr namespaceUri')) = Ok namespaceId' ->
  scale_AccountId delegateAddress' = Ok delegate' ->
  scale_AccountId creatorAddress' = Ok creator' ->
  List.length delegate = List.length delegate' ->
  List.length creator = List.length creator' ->
  getUriForAuthorization namespaceUri delegateAddress creatorAddress
  = Ok (hashToUri
          (blake2AsHex (scale_Bytes namespaceId ++ delegate ++ creator))
          13101 "namespaceauth:cord:")
  /\ authorizationDigestInput namespaceUri delegateAddress creatorAddress
     = Ok (scale_Bytes namespaceId ++ delegate ++ creator)
  /\ (authorizationDigestInput namespaceUri delegateAddress creatorAddress
      = authorizationDigestInput namespaceUri' delegateAddress' creatorAddress'
      <-> scale_Bytes namespaceId = scale_Bytes namespaceId'
          /\ delegate = delegate' /\ creator = creator').
Proof.
  intros E1 E2 E3 E1' E2' E3' Ld Lc.
  pose proof (authorizationDigestInput_ok _ _ _ _ _ _ E1 E2 E3) as I.
  pose proof (authorizationDigestInput_ok _ _ _ _ _ _ E1' E2' E3') as I'.
  split; [|split].
  - unfold getUriForAuthorization. rewrite I. reflexivity.
  - exact I.
  - rewrite I, I'. split.
    + intros E. injection E as E.
      apply app_inj_2 in E; [| rewrite !length_app; lia ].
      destruct E as [Eid E].
      apply app_inj_2 in E; [| exact Lc ].
      tauto.
    + intros (-> & -> & ->). reflexivity.
Qed.
End AuthorizationUri.

(** * The statements on the reference instance *)

Section Evaluation.
Import Sample.
Import MoreSample.

Lemma person_permutation : key_perm (JObj person) (JObj person_permuted).
Proof.
  eapply kp_trans.
  - apply (kp_field [("title", JStr "Person"); ("type", JStr "object")]
             "properties" _
             (JObj [ ("age", JObj [("type", JStr "integer")]);
                     ("name", JObj [("type", JStr "string")]) ])
             [("required", JArr [JStr "name"; JStr "age"])]).
    apply kp_keys. apply perm_swap.
  - apply kp_keys.
    change (Permutation
              ([("title", JStr "Person"); ("type", JStr "object")]
               ++ [ ("properties",
                     JObj [ ("age", JObj [("type", JStr "integer")]);
                            ("name", JObj [("type", JStr "string")]) ]);
                    ("required", JArr [JStr "name"; JStr "age"]) ])
              person_permuted).
    etransitivity; [apply Permutation_app_comm|]. apply perm_swap.
Defined.

(** Two key orders of one schema, and the built record next to its
    content without [$id], have one encoding. *)
Lemma encodeCborSchema_canonical_witness :
  encodeCborSchema person = encodeCborSchema person_permuted
  /\ getUriForSchema built_person = getUriForSchema (js_rest "$id" built_person).
Proof.
  split.
  - apply (encodeCborSchema_canonical person person_permuted);
      [ reflexivity | left; exact person_permutation ].
  - apply (encodeCborSchema_canonical built_person (js_rest "$id" built_person));
      [ reflexivity | right; reflexivity ].
Defined.



(** C3 as stated fails: neither digest is the hash of the canonical
    CBOR bytes, and the URI is derived neither from the hash of those
    bytes nor from the hash of their length-prefixed encoding. *)
Lemma schema_digest_counterexample :
  let raw := cbor_encode (sortObj (JObj (js_rest "$id" person))) in
  getHashForSchema person <> hashStr (string_of_list_byte raw)
  /\ digest (getUriForSchema person) <> hashStr (string_of_list_byte raw)
  /\ uri (getUriForSchema person)
     <> hashToUri (blake2AsHex raw) SCHEMA_ACCOUNTS_IDENT SCHEMA_PREFIX
  /\ uri (getUriForSchema person)
     <> hashToUri (blake2AsHex (scale_Bytes (string_of_list_byte raw)))
          SCHEMA_ACCOUNTS_IDENT SCHEMA_PREFIX.
Proof.
  repeat split; vm_compute; discriminate.
Qed.

Lemma schema_digest_preimage_witness :
  list_byte_of_string (encodeCborSchema person)
  <> cbor_encode (sortObj (JObj (js_rest "$id" person))).
Proof.
  apply (schema_digest_preimage person). vm_compute. discriminate.
Defined.

Lemma guarded_transitions_abort_when_absent_witness :
  fst (dispatchUpdateEntryToChain entry_E alice (start empty_ledger))
  = Throw (ErrorObject CordDispatchError
             (dispatch_message (does_not_exist_message "entry:cord:e1:d1")))
  /\ dispatchRevokeEntryToChain "entry:cord:e1:d1" "registryauth:cord:a1" alice
       (start empty_ledger)
     = (Throw (ErrorObject CordDispatchError
                 (does_not_exist_message "entry:cord:e1:d1")),
        {| chain := empty_ledger; events := [Queried RegistryEntries "e1"] |}).
Proof.
  assert (A : forall registryEntryId entryDigest : string,
             uriToEntryIdAndDigest (entry_uri entry_E)
             = Ok (registryEntryId, entryDigest) ->
             query_registryEntries registryEntryId (chain (start empty_ledger))
             = Ok None).
  { intros registryEntryId entryDigest P. vm_compute in P.
    injection P as <- _. reflexivity. }
  pose proof (guarded_transitions_abort_when_absent
                (start empty_ledger) entry_E alice "registryauth:cord:a2" alice A)
    as (_ & _ & _ & _ & E & _).
  destruct (E "e1" "d1" "a1" "a2" eq_refl eq_refl eq_refl) as (U & R & _).
  split.
  - rewrite U. reflexivity.
  - exact R.
Defined.

(** C4 as stated fails. On a ledger without the entry, what Update
    throws is the [CordDispatchError] of its handler, whose message
    quotes the "does not exists" message; and Revoke, given a URI the
    identifier helper refuses, throws the helper's error without
    asking the ledger. *)
Lemma guarded_transitions_counterexample :
  query_registryEntries "e1" empty_ledger = Ok None
  /\ fst (dispatchUpdateEntryToChain entry_E alice (start empty_ledger))
     = Throw (ErrorObject CordDispatchError
                ("Error dispatching to chain: " +:+ dq
                 +:+ does_not_exist_message "entry:cord:e1:d1" +:+ dq +:+ "."))
  /\ fst (dispatchRevokeEntryToChain "entry:cord:e1:d1" "registryauth:cord:a1" alice
            (start empty_ledger))
     = Throw (ErrorObject CordDispatchError
                (does_not_exist_message "entry:cord:e1:d1"))
  /\ query_registryEntries "r1" empty_ledger = Ok None
  /\ dispatchRevokeEntryToChain "registry:cord:r1" "registryauth:cord:a1" alice
       (start empty_ledger)
     = (Throw (ErrorObject ForeignError "Invalid URI format: registry:cord:r1"),
        start empty_ledger).
Proof. repeat split; vm_compute; reflexivity. Qed.



(** Reinstating the active entry [e1] twice in a row. *)
Lemma reinstate_is_idempotent_witness :
  let once := dispatchReinstateEntryToChain
                "entry:cord:e1:d1" "registryauth:cord:a1" alice
                (start ledger_with_E) in
  let twice := dispatchReinstateEntryToChain
                 "entry:cord:e1:d1" "registryauth:cord:a1" alice (snd once) in
  fst once = Ok "entry:cord:e1:d1"
  /\ fst twice = Ok "entry:cord:e1:d1"
  /\ submissions (events (snd twice))
     = [(entries_reinstate "e1" "a1", alice); (entries_reinstate "e1" "a1", alice)].
Proof.
  pose proof (reinstate_is_idempotent (start ledger_with_E)
                "entry:cord:e1:d1" "registryauth:cord:a1" alice "e1" "d1" "a1"
                _ eq_refl eq_refl eq_refl) as (R1 & _ & R2).
  specialize (R2 _ eq_refl).
  cbv zeta. rewrite R1. cbn [fst snd]. rewrite R2.
  repeat split.
Defined.

Lemma SchemaModel_version_gate_witness :
  SchemaModel (JObj draft07_person) = false
  /\ verifyObjectAgainstSchema (JObj draft07_person) SchemaModel =
     Throw (ErrorObject ObjectUnverifiableError
              "JSON schema verification failed for object").
Proof.
  apply (SchemaModel_version_gate (JObj draft07_person)).
  vm_compute. discriminate.
Defined.

(** Another scope, another delegate: other bytes are hashed. *)
Lemma authorization_uri_derivation_witness :
  getUriForAuthorization "namespace:cord:n1" alice "3xBob"
  = Ok (hashToUri
          (blake2AsHex (scale_Bytes "n1"
                        ++ firstn 32 (list_byte_of_string alice ++ repeat x00 32)
                        ++ firstn 32 (list_byte_of_string "3xBob" ++ repeat x00 32)))
          13101 "namespaceauth:cord:")
  /\ authorizationDigestInput "namespace:cord:n1" alice "3xBob"
     <> authorizationDigestInput "namespace:cord:n2" "3xCarol" "3xBob".
Proof.
  pose proof (authorization_uri_derivation
                "namespace:cord:n1" alice "3xBob"
                "namespace:cord:n2" "3xCarol" "3xBob"
                "n1" "n2" _ _ _ _
                eq_refl eq_refl eq_refl eq_refl eq_refl eq_refl eq_refl eq_refl)
    as (U & _ & S).
  split; [exact U|].
  intros E. apply S in E. destruct E as (E & _). vm_compute in E. discriminate E.
Defined.

(** Anchoring the built schema twice: the second call returns the
    [$id] and leaves the submissions as they were. *)
Lemma schema_anchoring_is_idempotent_witness :
  let once := dispatchToChain built_person alice (start empty_ledger) in
  let twice := dispatchToChain built_person alice (snd once) in
  submissions (events (snd once))
  = [(schemaAccounts_create (encodeCborSchema built_person), alice)]
  /\ fst twice = Ok (Some (JStr "schema:cord:m29050x6e6a52822cf288fe"))
  /\ submissions (events (snd twice)) = submissions (events (snd once)).
Proof.
  intros once twice.
  assert (P : uriToIdentifier (js_get "$id" built_person)
              = Ok "m29050x6e6a52822cf288fe") by (vm_compute; reflexivity).
  assert (Q : query_schemas "m29050x6e6a52822cf288fe" (chain (snd once))
              = Ok (Some {| stored_schema := encodeCborSchema built_person;
                            stored_schema_digest := "0x7c9d17b86f8a85a6";
                            stored_schema_creator := alice |}))
    by (vm_compute; reflexivity).
  destruct (schema_anchoring_is_idempotent (snd once) built_person alice _ _ P Q)
    as (R & _ & S).
  split; [vm_compute; reflexivity|].
  unfold twice. rewrite R. split; [reflexivity | exact S].
Defined.

(** A schema with an object-typed property is a schema; a schema whose
    title is a number is none. *)
Lemma isISchema_total_witness :
  isISchema (JObj built_nested_person) = true
  /\ verifyDataStructure (JObj built_nested_person) = Ok tt
  /\ isISchema (JObj mistitled_person) = false
  /\ exists e, verifyDataStructure (JObj mistitled_person) = Throw e.
Proof.
  assert (T : isISchema (JObj built_nested_person) = true) by (vm_compute; reflexivity).
  assert (F : isISchema (JObj mistitled_person) = false) by (vm_compute; reflexivity).
  split; [exact T|]. split.
  - apply (isISchema_total (JObj built_nested_person)), T.
  - split; [exact F|].
    apply (isISchema_total (JObj mistitled_person)), F.
Defined.
End Evaluation.

(** * Properties of the remaining code paths *)

(** ** Entries.chain.ts: every path of the five transitions *)

Section MoreLifecycle.
Context {Chain : Type} `{Gateway Chain}.
Context `{Utils} `{Api} `{Types} `{Identifier} `{Runtime}.

Ltac unfold_calls :=
  unfold dispatchCreateEntryToChain, dispatchUpdateEntryToChain,
    dispatchRevokeEntryToChain, dispatchReinstateEntryToChain,
    dispatchUpdateOwnershipToChain, dispatchToChain, isSchemaStored,
    isRegistryEntryStored, try_catch, async_bind, async_lift, async_throw, async_ret,
    await_registryEntries, await_schemas, signAndSubmitTx.

Ltac use_equations :=
  repeat match goal with
         | E : ?x = _ |- context [?x] => rewrite E; cbn [fst snd negb isNone]
         end.

(** X1. A URI the identifier helper refuses never reaches the gateway. *)
Theorem transitions_reject_malformed_entry_uri
    (w : World Chain) (entry : IRegistryEntry)
    (newOwnerAccount : Account) (newOwnerAuthorizationUri : string)
    (authorAccount : Account) (e : thrown) :
  uriToEntryIdAndDigest (entry_uri entry) = Throw e ->
  let wrapped := ErrorObject CordDispatchError (dispatch_message (errorMessage_of e)) in
  dispatchCreateEntryToChain entry authorAccount w = (Throw wrapped, w)
  /\ dispatchUpdateEntryToChain entry authorAccount w = (Throw wrapped, w)
  /\ dispatchRevokeEntryToChain
       (entry_uri entry) (entry_authorizationUri entry) authorAccount w = (Throw e, w)
  /\ dispatchReinstateEntryToChain
       (entry_uri entry) (entry_authorizationUri entry) authorAccount w = (Throw e, w)
  /\ dispatchUpdateOwnershipToChain
       (entry_uri entry) (entry_authorizationUri entry) newOwnerAccount
       newOwnerAuthorizationUri authorAccount w =
     (Throw (ErrorObject CordDispatchError (ownership_message (errorMessage_of e))), w).
Proof.
  intros P wrapped. repeat split; unfold_calls; rewrite P; reflexivity.
Qed.

(** X2. A failing existence query: nothing is submitted; Revoke and
    Reinstate let the [CordQueryError] through, the other three re-wrap
    it as [CordDispatchError]. *)
Theorem transitions_surface_query_failure
    (w : World Chain) (entry : IRegistryEntry)
    (newOwnerAccount : Account) (newOwnerAuthorizationUri : string)
    (authorAccount : Account)
    (registryEntryId entryDigest authorizationId newOwnerAuthorizationId : string)
    (e : thrown) :
  uriToEntryIdAndDigest (entry_uri entry) = Ok (registryEntryId, entryDigest) ->
  uriToIdentifier (Some (JStr (entry_authorizationUri entry))) = Ok authorizationId ->
  uriToIdentifier (Some (JStr newOwnerAuthorizationUri)) = Ok newOwnerAuthorizationId ->
  query_registryEntries registryEntryId (chain w) = Throw e ->
  let text := "Error querying the registry-entry: " +:+ String_of_thrown e in
  let w' := queried w registryEntryId in
  dispatchCreateEntryToChain entry authorAccount w =
    (Throw (ErrorObject CordDispatchError (dispatch_message text)), w')
  /\ dispatchUpdateEntryToChain entry authorAccount w =
    (Throw (ErrorObject CordDispatchError (dispatch_message text)), w')
  /\ dispatchRevokeEntryToChain
       (entry_uri entry) (entry_authorizationUri entry) authorAccount w =
    (Throw (ErrorObject CordQueryError text), w')
  /\ dispatchReinstateEntryToChain
       (entry_uri entry) (entry_authorizationUri entry) authorAccount w =
    (Throw (ErrorObject CordQueryError text), w')
  /\ dispatchUpdateOwnershipToChain
       (entry_uri entry) (entry_authorizationUri entry) newOwnerAccount
       newOwnerAuthorizationUri authorAccount w =
    (Throw (ErrorObject CordDispatchError (ownership_message text)), w')
  /\ submissions (events w') = submissions (events w).
Proof.
  intros P1 P2 P3 Q text w'.
  repeat split; try (unfold_calls; use_equations; reflexivity).
  apply submissions_query.
Qed.

(** X3. On an entry the ledger holds, Update, Revoke and
    TransferOwnership submit their payload once and return the URI when
    the ledger accepts; a refusal comes back as [CordDispatchError]. *)
Theorem transitions_submit_when_present
    (w : World Chain) (entry : IRegistryEntry)
    (newOwnerAccount : Account) (newOwnerAuthorizationUri : string)
    (authorAccount : Account)
    (registryEntryId entryDigest authorizationId newOwnerAuthorizationId : string)
    (stored : PalletEntriesRegistryEntryDetails) :
  uriToEntryIdAndDigest (entry_uri entry) = Ok (registryEntryId, entryDigest) ->
  uriToIdentifier (Some (JStr (entry_authorizationUri entry))) = Ok authorizationId ->
  uriToIdentifier (Some (JStr newOwnerAuthorizationUri)) = Ok newOwnerAuthorizationId ->
  query_registryEntries registryEntryId (chain w) = Ok (Some stored) ->
  let update := entries_update registryEntryId authorizationId
                  (entry_digest entry) (entry_blob entry) in
  let revoke := entries_revoke registryEntryId authorizationId in
  let transfer := entries_updateOwnership registryEntryId authorizationId
                    newOwnerAccount newOwnerAuthorizationId in
  dispatchUpdateEntryToChain entry authorAccount w =
    (submission_outcome w update authorAccount (entry_uri entry) dispatch_message,
     queried_and_submitted w registryEntryId update authorAccount)
  /\ dispatchRevokeEntryToChain
       (entry_uri entry) (entry_authorizationUri entry) authorAccount w =
    (submission_outcome w revoke authorAccount (entry_uri entry) dispatch_message,
     queried_and_submitted w registryEntryId revoke authorAccount)
  /\ dispatchUpdateOwnershipToChain
       (entry_uri entry) (entry_authorizationUri entry) newOwnerAccount
       newOwnerAuthorizationUri authorAccount w =
    (submission_outcome w transfer authorAccount (entry_uri entry) ownership_message,
     queried_and_submitted w registryEntryId transfer authorAccount).
Proof.
  intros P1 P2 P3 Q update revoke transfer. subst update revoke transfer.
  unfold submission_outcome, queried_and_submitted.
  repeat split; unfold_calls; use_equations; cbn [chain events];
    match goal with
    | |- context [submit ?tx ?a ?c] => destruct (submit tx a c) as [[[] | ?] ?]
    end; cbn [fst snd]; rewrite <- app_assoc; reflexivity.
Qed.

Lemma submissions_two (es : list Event) (st : Storage) (key : string)
    (tx : Extrinsic) (author : Account) :
  submissions ((es ++ [Queried st key]) ++ [Submitted tx author])
  = submissions es ++ [(tx, author)].
Proof. rewrite !submissions_app. simpl. rewrite app_nil_r. reflexivity. Qed.

Ltac settle_frame :=
  unfold submitted_at_most_once; cbn [fst snd chain events] in *;
  first
    [ left; split; [first [reflexivity | apply submissions_query] | reflexivity]
    | right; eexists; split; [apply submissions_two |];
      match goal with
      | S : submit _ _ _ = _ |- _ => rewrite S; reflexivity
      end ].

Ltac walk_paths :=
  unfold_calls;
  repeat match goal with
         | |- context [uriToEntryIdAndDigest ?u] =>
             destruct (uriToEntryIdAndDigest u) as [[? ?] | ?]; cbn [fst snd]
         | |- context [uriToIdentifier ?u] =>
             destruct (uriToIdentifier u) as [? | ?]; cbn [fst snd]
         | |- context [query_registryEntries ?i ?c] =>
             destruct (query_registryEntries i c) as [[? |] | ?]; cbn [fst snd negb isNone]
         | |- context [query_schemas ?i ?c] =>
             destruct (query_schemas i c) as [[? |] | ?]; cbn [fst snd negb isNone]
         | |- context [submit ?tx ?a (chain ?w)] =>
             let S := fresh "S" in
             destruct (submit tx a (chain w)) as [[[] | ?] ?] eqn:S; cbn [fst snd]
         end.

(** X4. Whatever the inputs and the ledger do, a call either leaves
    the chain as it was and submits nothing, or makes exactly one
    submission, signed by the author. *)
Theorem dispatch_submits_at_most_once
    (w : World Chain) (entry : IRegistryEntry) (schema : object)
    (newOwnerAccount : Account) (newOwnerAuthorizationUri : string)
    (authorAccount : Account) :
  submitted_at_most_once w
    (snd (dispatchCreateEntryToChain entry authorAccount w)) authorAccount
  /\ submitted_at_most_once w
       (snd (dispatchUpdateEntryToChain entry authorAccount w)) authorAccount
  /\ submitted_at_most_once w
       (snd (dispatchRevokeEntryToChain
               (entry_uri entry) (entry_authorizationUri entry) authorAccount w))
       authorAccount
  /\ submitted_at_most_once w
       (snd (dispatchReinstateEntryToChain
               (entry_uri entry) (entry_authorizationUri entry) authorAccount w))
       authorAccount
  /\ submitted_at_most_once w
       (snd (dispatchUpdateOwnershipToChain
               (entry_uri entry) (entry_authorizationUri entry) newOwnerAccount
               newOwnerAuthorizationUri authorAccount w))
       authorAccount
  /\ submitted_at_most_once w
       (snd (dispatchToChain schema authorAccount w)) authorAccount.
Proof.
  repeat split; walk_paths; settle_frame.
Qed.

(** X5. Create, Update, TransferOwnership and the schema dispatch raise
    nothing but the [CordDispatchError] of their handler, whatever went
    wrong underneath. *)
Theorem dispatch_raises_only_CordDispatchError
    (w : World Chain) (entry : IRegistryEntry) (schema : object)
    (registryEntryUri authorizationUri : string)
    (newOwnerAccount : Account) (newOwnerAuthorizationUri : string)
    (authorAccount : Account) (t : thrown) :
  (fst (dispatchCreateEntryToChain entry authorAccount w) = Throw t -> dispatch_error t)
  /\ (fst (dispatchUpdateEntryToChain entry authorAccount w) = Throw t -> dispatch_error t)
  /\ (fst (dispatchUpdateOwnershipToChain registryEntryUri authorizationUri
             newOwnerAccount newOwnerAuthorizationUri authorAccount w) = Throw t ->
      dispatch_error t)
  /\ (fst (dispatchToChain schema authorAccount w) = Throw t -> dispatch_error t).
Proof.
  unfold dispatch_error, ownership_message, dispatch_message.
  repeat split; walk_paths; intros E; try discriminate E;
    injection E as <-; eexists; reflexivity.
Qed.

(** X6. A schema the ledger does not hold is anchored with one
    [schemaAccounts.create] of its canonical encoding; the [$id] comes
    back when the ledger accepts. *)
Theorem dispatchToChain_anchors_absent_schema
    (w : World Chain) (schema : object) (authorAccount : Account) (identifier : string) :
  uriToIdentifier (js_get "$id" schema) = Ok identifier ->
  query_schemas identifier (chain w) = Ok None ->
  let tx := schemaAccounts_create (encodeCborSchema schema) in
  dispatchToChain schema authorAccount w =
    (match fst (submit tx authorAccount (chain w)) with
     | Ok _ => Ok (js_get "$id" schema)
     | Throw e =>
         Throw (ErrorObject CordDispatchError
                  ("Error dispatching to chain: " +:+ dq +:+ String_of_thrown e
                   +:+ dq +:+ "."))
     end,
     {| chain := snd (submit tx authorAccount (chain w));
        events := events w ++ [Queried Schemas identifier; Submitted tx authorAccount] |}).
Proof.
  intros P Q tx. subst tx. unfold_calls. use_equations. cbn [chain events].
  destruct (submit _ _ _) as [[[] | e] c]; cbn [fst snd];
    rewrite <- app_assoc; reflexivity.
Qed.

(** X7. [doesSchemaIdExists] tells what [dispatchToChain] will do with
    a schema of that [$id]: on [true] nothing is submitted and the
    [$id] is returned, on [false] the schema is submitted. *)
Theorem doesSchemaIdExists_predicts_dispatch
    (w : World Chain) (schema : object) (schemaUri : string) (authorAccount : Account)
    (answer : bool) :
  js_get "$id" schema = Some (JStr schemaUri) ->
  fst (doesSchemaIdExists schemaUri w) = Ok answer ->
  let w' := snd (dispatchToChain schema authorAccount w) in
  if answer then
    fst (dispatchToChain schema authorAccount w) = Ok (Some (JStr schemaUri))
    /\ submissions (events w') = submissions (events w)
    /\ chain w' = chain w
  else
    submissions (events w')
    = submissions (events w)
      ++ [(schemaAccounts_create (encodeCborSchema schema), authorAccount)].
Proof.
  intros G. unfold doesSchemaIdExists. rewrite <- G.
  walk_paths; intros E; try discriminate E; injection E as <-; cbn [negb isNone].
  - repeat split. apply submissions_query.
  - apply submissions_two.
  - apply submissions_two.
Qed.

(** X22. An authorization URI the identifier helper refuses stops a
    transition before the ledger is asked, like a refused entry URI:
    Create and Update report it as [CordDispatchError], Revoke and
    Reinstate let the helper's error through, TransferOwnership quotes
    the message once more, and does the same for the authorization URI
    of the new owner. *)
Theorem transitions_reject_malformed_authorization_uri
    (w : World Chain) (entry : IRegistryEntry)
    (newOwnerAccount : Account) (newOwnerAuthorizationUri : string)
    (authorAccount : Account) (registryEntryId entryDigest : string) (e : thrown) :
  uriToEntryIdAndDigest (entry_uri entry) = Ok (registryEntryId, entryDigest) ->
  uriToIdentifier (Some (JStr (entry_authorizationUri entry))) = Throw e ->
  let wrapped := ErrorObject CordDispatchError (dispatch_message (errorMessage_of e)) in
  dispatchCreateEntryToChain entry authorAccount w = (Throw wrapped, w)
  /\ dispatchUpdateEntryToChain entry authorAccount w = (Throw wrapped, w)
  /\ dispatchRevokeEntryToChain
       (entry_uri entry) (entry_authorizationUri entry) authorAccount w = (Throw e, w)
  /\ dispatchReinstateEntryToChain
       (entry_uri entry) (entry_authorizationUri entry) authorAccount w = (Throw e, w)
  /\ dispatchUpdateOwnershipToChain
       (entry_uri entry) (entry_authorizationUri entry) newOwnerAccount
       newOwnerAuthorizationUri authorAccount w =
     (Throw (ErrorObject CordDispatchError (ownership_message (errorMessage_of e))), w)
  /\ (forall authorizationUri authorizationId,
         uriToIdentifier (Some (JStr authorizationUri)) = Ok authorizationId ->
         uriToIdentifier (Some (JStr newOwnerAuthorizationUri)) = Throw e ->
         dispatchUpdateOwnershipToChain
           (entry_uri entry) authorizationUri newOwnerAccount
           newOwnerAuthorizationUri authorAccount w =
         (Throw (ErrorObject CordDispatchError (ownership_message (errorMessage_of e))),
          w)).
Proof.
  intros P A wrapped.
  repeat split; try (unfold_calls; rewrite P; cbn [fst snd]; rewrite A; reflexivity).
  intros authorizationUri authorizationId A1 A2.
  unfold_calls. rewrite P. cbn [fst snd]. rewrite A1, A2. reflexivity.
Qed.
End MoreLifecycle.

(** ** Lookups after object updates *)

Lemma js_get_set (k k' : string) (v : json) (o : object) :
  js_get k (js_set k' v o) = if String.eqb k k' then Some v else js_get k o.
Proof.
  induction o as [| [k2 v2] o IH]; simpl.
  - destruct (String.eqb k k'); reflexivity.
  - destruct (String.eqb k' k2) eqn:E2; simpl.
    + apply String.eqb_eq in E2. subst k2.
      destruct (String.eqb k k'); reflexivity.
    + rewrite IH. destruct (String.eqb k k2) eqn:E; [|reflexivity].
      apply String.eqb_eq in E. subst k2.
      rewrite String.eqb_sym, E2. reflexivity.
Qed.

Lemma js_get_rest (k k' : string) (o : object) :
  js_get k (js_rest k' o) = if String.eqb k k' then None else js_get k o.
Proof.
  unfold js_rest. induction o as [| [k2 v2] o IH]; simpl.
  - destruct (String.eqb k k'); reflexivity.
  - destruct (String.eqb k' k2) eqn:E2; simpl.
    + apply String.eqb_eq in E2. subst k2. rewrite IH.
      destruct (String.eqb k k'); reflexivity.
    + rewrite IH. destruct (String.eqb k k2) eqn:E; [|reflexivity].
      apply String.eqb_eq in E. subst k2.
      rewrite String.eqb_sym, E2. reflexivity.
Qed.

Lemma js_get_absent (k : string) (o : object) :
  js_get k o = None <-> k ∉ List.map fst o.
Proof.
  induction o as [| [k2 v2] o IH]; simpl.
  - split; [intros _ I; inversion I | reflexivity].
  - rewrite not_elem_of_cons. destruct (String.eqb k k2) eqn:E.
    + apply String.eqb_eq in E. subst k2. split; [discriminate | tauto].
    + apply String.eqb_neq in E. tauto.
Qed.

Lemma js_set_same (k : string) (v : json) (o : object) :
  js_get k o = Some v -> js_set k v o = o.
Proof.
  induction o as [| [k2 v2] o IH]; simpl; [discriminate|].
  destruct (String.eqb k k2) eqn:E.
  - apply String.eqb_eq in E. subst k2. intros [= ->]. reflexivity.
  - intros G. f_equal. apply IH, G.
Qed.

Lemma js_rest_distinct (k : string) (o : object) :
  NoDup (List.map fst o) -> NoDup (List.map fst (js_rest k o)).
Proof.
  intros D. unfold js_rest.
  induction o as [| [k' v] o IH]; simpl; [constructor|].
  simpl in D. apply NoDup_cons in D. destruct D as [N D].
  destruct (negb (String.eqb k k')); simpl; [|auto].
  apply NoDup_cons. split; [|auto].
  intros I. apply N.
  apply list_elem_of_In, List.in_map_iff in I. destruct I as ([k2 v2] & E & I).
  apply List.filter_In in I. destruct I as [I _]. simpl in E. subst k2.
  apply list_elem_of_In, List.in_map_iff. exists (k', v2). auto.
Qed.

Lemma js_spread_distinct (base o : object) :
  NoDup (List.map fst base) -> NoDup (List.map fst (js_spread base o)).
Proof.
  unfold js_spread. revert base.
  induction o as [| [k v] o IH]; simpl; intros base D; [exact D|].
  apply IH, js_set_distinct, D.
Qed.

(** In a spread, the later object wins. *)
Lemma js_get_spread (k : string) (base o : object) :
  NoDup (List.map fst o) ->
  js_get k (js_spread base o)
  = match js_get k o with Some v => Some v | None => js_get k base end.
Proof.
  unfold js_spread. revert base.
  induction o as [| [k1 v1] o IH]; simpl; intros base D; [reflexivity|].
  apply NoDup_cons in D. destruct D as [N D].
  rewrite IH by exact D. rewrite js_get_set.
  destruct (String.eqb k k1) eqn:E; [|reflexivity].
  apply String.eqb_eq in E. subst k1.
  apply js_get_absent in N. rewrite N. reflexivity.
Qed.

(** ** mergeType.ts *)

Lemma js_get_deleted (k : string) (deleteKeys : list string) (o : object) :
  js_get k (fold_left (fun adjusted key => js_rest key adjusted) deleteKeys o)
  = if existsb (String.eqb k) deleteKeys then None else js_get k o.
Proof.
  revert o. induction deleteKeys as [| d ds IH]; intros o; simpl; [reflexivity|].
  rewrite IH, js_get_rest.
  destruct (String.eqb k d); simpl; [|reflexivity].
  destruct (existsb (String.eqb k) ds); reflexivity.
Qed.

Lemma deleted_distinct (deleteKeys : list string) (o : object) :
  NoDup (List.map fst o) ->
  NoDup (List.map fst (fold_left (fun adjusted key => js_rest key adjusted) deleteKeys o)).
Proof.
  revert o. induction deleteKeys as [| d ds IH]; intros o D; simpl; [exact D|].
  apply IH, js_rest_distinct, D.
Qed.

(** X8. Lookup in the merged types: a deleted key is gone, whichever side
    it came from; any other key has the new type if there is one and
    the old type otherwise. The result repeats no key. *)
Theorem mergeType_lookup
    (oldTypes newTypes : object) (deleteKeys : list string) (key : string) :
  distinct (List.map fst oldTypes) = true ->
  distinct (List.map fst newTypes) = true ->
  js_get key (mergeType oldTypes newTypes deleteKeys)
  = (if existsb (String.eqb key) deleteKeys then None
     else match js_get key newTypes with
          | Some t => Some t
          | None => js_get key oldTypes
          end)
  /\ distinct (List.map fst (mergeType oldTypes newTypes deleteKeys)) = true.
Proof.
  rewrite !distinct_NoDup. intros Dold Dnew. unfold mergeType. split.
  - rewrite js_get_deleted, !js_get_spread by assumption.
    simpl. destruct (js_get key oldTypes); reflexivity.
  - apply deleted_distinct.
    do 2 apply js_spread_distinct. constructor.
Qed.

(** ** SchemaAccounts.ts: what the builder returns *)

Lemma js_rest_head (k : string) (v : json) (o : object) :
  js_rest k ((k, v) :: o) = js_rest k o.
Proof. unfold js_rest. simpl. rewrite String.eqb_refl. reflexivity. Qed.

Lemma Ok_injective {A} (a b : A) : Ok a = Ok b -> a = b.
Proof. intros E. injection E as E. exact E. Qed.

Section BuilderOutput.
Context `{Utils} `{Api} `{Types} `{Identifier} `{Runtime}.

(** The content the builder derives the identifier from. *)
Lemma builder_content (schema : object) :
  well_formed (JObj schema) = true ->
  let content := js_set "$schema" (JStr SchemaModelV1_id)
                   (js_set "additionalProperties" (JBool false)
                      (js_rest "$id" schema)) in
  js_spread [("$id", JStr (uri (getUriForSchema content)))] content
  = ("$id", JStr (uri (getUriForSchema content))) :: content
  /\ js_rest "$id" content = content
  /\ encodeCborSchema (("$id", JStr (uri (getUriForSchema content))) :: content)
     = encodeCborSchema content.
Proof.
  intros W content.
  assert (Fresh : "$id" ∉ List.map fst content).
  { unfold content. rewrite !js_set_keys. intros [E | [E | I]]; try discriminate E.
    exact (js_rest_keys _ _ I). }
  assert (D : NoDup (List.map fst content)).
  { unfold content. apply js_set_distinct, js_set_distinct.
    apply well_formed_without with (k := "$id") in W.
    apply well_formed_obj in W. tauto. }
  split; [|split].
  - rewrite js_spread_fresh; [reflexivity | exact D |].
    intros k I. simpl. rewrite elem_of_cons. intros [-> | E]; [contradiction|].
    inversion E.
  - apply js_rest_absent, Fresh.
  - apply encodeCborSchema_rest. unfold js_rest at 1. simpl.
    fold (js_rest "$id" content). reflexivity.
Qed.

(** X10. What a successful build returns. The schema has [$id]
    first, set to the identifier derived from the rest, with [$schema]
    set to the meta-schema's [$id] and [additionalProperties] to
    [false], whatever the caller gave for these three; it has the
    caller's other keys and no further one, and under each of them the
    caller's value when that value holds no array. The digest is the
    hash of the returned schema, the declared [$id] is the one
    [getUriForSchema] derives from the returned schema, and the creator
    is the address behind the [did:cord:3] prefix. *)
Theorem buildFromProperties_shape
    (schema : object) (creatorAddress : string) (built : ISchemaAccountsDetails) :
  well_formed (JObj schema) = true ->
  buildFromProperties schema creatorAddress = Ok built ->
  (exists id rest, details_schema built = ("$id", JStr id) :: rest
                   /\ "$id" ∉ List.map fst rest)
  /\ js_get "$id" (details_schema built)
     = Some (JStr (uri (getUriForSchema (details_schema built))))
  /\ js_get "$schema" (details_schema built) = Some (JStr SchemaModelV1_id)
  /\ js_get "additionalProperties" (details_schema built) = Some (JBool false)
  /\ (forall key, key <> "$id" -> key <> "$schema" -> key <> "additionalProperties" ->
        js_has key (details_schema built) = js_has key schema
        /\ (forall value,
               js_get key schema = Some value -> array_free value = true ->
               js_get key (details_schema built) = Some value))
  /\ details_digest built = getHashForSchema (details_schema built)
  /\ details_creatorUri built = "did:cord:3" +:+ creatorAddress.
Proof.
  intros W B. destruct (builder_content schema W) as (S & R & E).
  unfold buildFromProperties in B.
  set (content := js_set "$schema" _ (js_set "additionalProperties" _ _)) in *.
  cbv zeta in S, R, E. fold content in S, R, E. rewrite S in B.
  destruct (verifySchemaStructure _); cbn [exc_bind] in B; [|discriminate].
  apply Ok_injective in B. subst built.
  cbn [details_schema details_digest details_creatorUri].
  destruct (getUriForSchema_encoding _ _ E) as [Eh Eu].
  split; [|split; [|split; [|split; [|split; [|split]]]]].
  - exists (uri (getUriForSchema content)), content. split; [reflexivity|].
    apply js_get_absent. rewrite <- R, js_get_rest. reflexivity.
  - rewrite Eu. reflexivity.
  - cbn [js_get String.eqb Ascii.eqb Bool.eqb].
    unfold content. rewrite js_get_set. reflexivity.
  - cbn [js_get String.eqb Ascii.eqb Bool.eqb].
    unfold content. rewrite !js_get_set. reflexivity.
  - intros key N1 N2 N3.
    assert (G : js_get key (("$id", JStr (uri (getUriForSchema content))) :: content)
                = js_get key schema).
    { cbn [js_get]. apply String.eqb_neq in N1, N2, N3. rewrite N1.
      unfold content. rewrite !js_get_set, js_get_rest, N1, N2, N3. reflexivity. }
    split.
    + unfold js_has. rewrite G. reflexivity.
    + intros value V _. rewrite G. exact V.
  - rewrite Eh. reflexivity.
  - reflexivity.
Qed.

(** X11. Building again from a built schema returns the same record:
    the identifier is dropped and derived anew, and the two fields the
    builder sets are already there. *)
Theorem buildFromProperties_idempotent
    (schema : object) (creatorAddress : string) (built : ISchemaAccountsDetails) :
  well_formed (JObj schema) = true ->
  buildFromProperties schema creatorAddress = Ok built ->
  buildFromProperties (details_schema built) creatorAddress = Ok built.
Proof.
  intros W B. destruct (builder_content schema W) as (S & R & E).
  assert (B' := B). unfold buildFromProperties in B'.
  set (content := js_set "$schema" _ (js_set "additionalProperties" _ _)) in *.
  cbv zeta in S, R, E. fold content in S, R, E.
  destruct (verifySchemaStructure _) eqn:V; cbn [exc_bind] in B'; [|discriminate].
  rewrite S in B'. apply Ok_injective in B'. subst built. cbn [details_schema].
  unfold buildFromProperties.
  assert (C : js_set "$schema" (JStr SchemaModelV1_id)
                (js_set "additionalProperties" (JBool false)
                   (js_rest "$id"
                      (("$id", JStr (uri (getUriForSchema content))) :: content)))
              = content).
  { rewrite js_rest_head, R.
    assert (A : js_set "additionalProperties" (JBool false) content = content).
    { apply js_set_same. unfold content. rewrite !js_get_set. reflexivity. }
    rewrite A. apply js_set_same. unfold content. rewrite js_get_set. reflexivity. }
  cbv zeta. rewrite C, V. cbn [exc_bind]. rewrite S. reflexivity.
Qed.
End BuilderOutput.

(** ** Validation does not depend on the order of keys *)

Lemma forallb_perm {A} (f : A -> bool) (l l' : list A) :
  Permutation l l' -> forallb f l = forallb f l'.
Proof.
  induction 1 as [| x l l' _ IH | x y l | l l' l'' _ IH1 _ IH2]; simpl.
  - reflexivity.
  - rewrite IH. reflexivity.
  - destruct (f x), (f y); reflexivity.
  - congruence.
Qed.

Lemma forallb_pointwise {A} (f g : A -> bool) (l : list A) :
  (forall x, f x = g x) -> forallb f l = forallb g l.
Proof.
  intros E. induction l as [| x l IH]; simpl; [reflexivity|].
  rewrite E, IH. reflexivity.
Qed.

Lemma forallb_field {A} (f : A -> bool) (pre post : list A) (x x' : A) :
  f x = f x' -> forallb f (pre ++ x :: post) = forallb f (pre ++ x' :: post).
Proof. intros E. rewrite !forallb_app. simpl. rewrite E. reflexivity. Qed.

Lemma js_has_exists (k : string) (fs : object) :
  js_has k fs = existsb (fun kv => String.eqb k (fst kv)) fs.
Proof.
  unfold js_has. induction fs as [| [k' v] fs IH]; simpl; [reflexivity|].
  destruct (String.eqb k k'); [reflexivity | exact IH].
Qed.

Lemma existsb_perm {A} (f : A -> bool) (l l' : list A) :
  Permutation l l' -> existsb f l = existsb f l'.
Proof.
  induction 1 as [| x l l' _ IH | x y l | l l' l'' _ IH1 _ IH2]; simpl.
  - reflexivity.
  - rewrite IH. reflexivity.
  - destruct (f x), (f y); reflexivity.
  - congruence.
Qed.

(** A reordering relates two objects, two arrays, or a value to itself. *)
Lemma key_perm_kind (a b : json) :
  key_perm a b ->
  a = b \/ (exists fs gs, a = JObj fs /\ b = JObj gs)
  \/ (exists xs ys, a = JArr xs /\ b = JArr ys).
Proof.
  induction 1 as [j | a b c _ IH1 _ IH2 | fs gs P | pre k v v' post _ _
                  | pre x x' post _ _].
  - left. reflexivity.
  - destruct IH1 as [-> | [(fs & gs & -> & ->) | (xs & ys & -> & ->)]]; [exact IH2 | |].
    + destruct IH2 as [<- | [(fs' & gs' & E & ->) | (xs & ys & E & _)]];
        try discriminate E; right; left; eauto.
    + destruct IH2 as [<- | [(fs' & gs' & E & _) | (xs' & ys' & E & ->)]];
        try discriminate E; right; right; eauto.
  - right. left. eauto.
  - right. left. eauto.
  - right. right. eauto.
Qed.

(** A keyword that looks at neither fields nor items. *)
Lemma respects_flat (s : json -> bool) :
  (forall fs gs, s (JObj fs) = s (JObj gs)) ->
  (forall xs ys, s (JArr xs) = s (JArr ys)) ->
  respects s.
Proof.
  intros O A a b K.
  destruct (key_perm_kind a b K) as [-> | [(fs & gs & -> & ->) | (xs & ys & -> & ->)]];
    auto.
Qed.

Lemma respects_type (t : JType) : respects (kw_type t).
Proof. apply respects_flat; intros; destruct t; reflexivity. Qed.

Lemma respects_const_str (c : string) : respects (kw_const (JStr c)).
Proof. apply respects_flat; reflexivity. Qed.

Lemma respects_const_bool (c : bool) : respects (kw_const (JBool c)).
Proof. apply respects_flat; reflexivity. Qed.

Lemma respects_pattern (re : string -> bool) : respects (kw_pattern re).
Proof. apply respects_flat; reflexivity. Qed.

Lemma respects_format (fmt : string -> bool) : respects (kw_format fmt).
Proof. apply respects_flat; reflexivity. Qed.

Lemma respects_minLength (n : nat) : respects (kw_minLength n).
Proof. apply respects_flat; reflexivity. Qed.

Lemma kw_required_perm (names : list string) (fs gs : object) :
  Permutation fs gs -> kw_required names (JObj fs) = kw_required names (JObj gs).
Proof.
  intros P. unfold kw_required. apply forallb_pointwise. intros k.
  rewrite !js_has_exists. apply existsb_perm, P.
Qed.

Lemma kw_required_field (names : list string) (pre post : object) (k : string)
    (v v' : json) :
  kw_required names (JObj (pre ++ (k, v) :: post))
  = kw_required names (JObj (pre ++ (k, v') :: post)).
Proof.
  unfold kw_required. apply forallb_pointwise. intros n.
  rewrite !js_has_exists, !existsb_app. reflexivity.
Qed.

Lemma respects_required (names : list string) : respects (kw_required names).
Proof.
  intros a b K.
  induction K as [j | a b c _ IH1 _ IH2 | fs gs P | pre k v v' post _ _
                  | pre x x' post _ _].
  - reflexivity.
  - congruence.
  - apply kw_required_perm, P.
  - apply kw_required_field.
  - reflexivity.
Qed.

Lemma respects_additionalProperties_false
    (names : list string) (res : list (string -> bool)) :
  respects (kw_additionalProperties_false names res).
Proof.
  intros a b K.
  induction K as [j | a b c _ IH1 _ IH2 | fs gs P | pre k v v' post _ _
                  | pre x x' post _ _].
  - reflexivity.
  - congruence.
  - apply forallb_perm, P.
  - apply forallb_field. reflexivity.
  - reflexivity.
Qed.

Lemma kw_property_field (name : string) (s : json -> bool) (pre post : object)
    (k : string) (v v' : json) :
  s v = s v' ->
  kw_property name s (JObj (pre ++ (k, v) :: post))
  = kw_property name s (JObj (pre ++ (k, v') :: post)).
Proof. intros E. apply forallb_field. simpl. rewrite E. reflexivity. Qed.

Lemma kw_patternProperty_field (re : string -> bool) (s : json -> bool)
    (pre post : object) (k : string) (v v' : json) :
  s v = s v' ->
  kw_patternProperty re s (JObj (pre ++ (k, v) :: post))
  = kw_patternProperty re s (JObj (pre ++ (k, v') :: post)).
Proof. intros E. apply forallb_field. simpl. rewrite E. reflexivity. Qed.

Lemma respects_property (name : string) (s : json -> bool) :
  respects s -> respects (kw_property name s).
Proof.
  intros Rs a b K.
  induction K as [j | a b c _ IH1 _ IH2 | fs gs P | pre k v v' post Kv _
                  | pre x x' post _ _].
  - reflexivity.
  - congruence.
  - apply forallb_perm, P.
  - apply kw_property_field, Rs, Kv.
  - reflexivity.
Qed.

Lemma respects_patternProperty (re : string -> bool) (s : json -> bool) :
  respects s -> respects (kw_patternProperty re s).
Proof.
  intros Rs a b K.
  induction K as [j | a b c _ IH1 _ IH2 | fs gs P | pre k v v' post Kv _
                  | pre x x' post _ _].
  - reflexivity.
  - congruence.
  - apply forallb_perm, P.
  - apply kw_patternProperty_field, Rs, Kv.
  - reflexivity.
Qed.

Lemma respects_items (s : json -> bool) : respects s -> respects (kw_items s).
Proof.
  intros Rs a b K.
  induction K as [j | a b c _ IH1 _ IH2 | fs gs P | pre k v v' post _ _
                  | pre x x' post Kx _].
  - reflexivity.
  - congruence.
  - reflexivity.
  - reflexivity.
  - apply forallb_field, Rs, Kx.
Qed.

Section KeyOrder.
Context `{Utils} `{Api} `{Types} `{Identifier} `{Runtime}.

(** Walks a schema written with the keywords above, one assertion at a
    time; [known] settles the references to named definitions. *)
Ltac blind_at K known :=
  lazymatch goal with
  | |- allOf _ = allOf _ => apply (f_equal allOf); blind_at K known
  | |- oneOf _ = oneOf _ => apply (f_equal oneOf); blind_at K known
  | |- _ :: _ = _ :: _ => apply (f_equal2 cons); [blind_at K known | blind_at K known]
  | |- @nil _ = @nil _ => reflexivity
  | |- kw_property ?n ?s _ = _ =>
      apply (respects_property n s); [blind known | exact K]
  | |- kw_patternProperty ?r ?s _ = _ =>
      apply (respects_patternProperty r s); [blind known | exact K]
  | |- kw_items ?s _ = _ => apply (respects_items s); [blind known | exact K]
  | |- kw_type ?t _ = _ => exact (respects_type t _ _ K)
  | |- kw_const (JStr ?c) _ = _ => exact (respects_const_str c _ _ K)
  | |- kw_const (JBool ?c) _ = _ => exact (respects_const_bool c _ _ K)
  | |- kw_enum ?cs _ = _ =>
      exact (respects_flat (kw_enum cs) (fun _ _ => eq_refl) (fun _ _ => eq_refl) _ _ K)
  | |- kw_pattern ?re _ = _ => exact (respects_pattern re _ _ K)
  | |- kw_format ?f _ = _ => exact (respects_format f _ _ K)
  | |- kw_minLength ?n _ = _ => exact (respects_minLength n _ _ K)
  | |- kw_required ?ns _ = _ => exact (respects_required ns _ _ K)
  | |- kw_additionalProperties_false ?ns ?rs _ = _ =>
      exact (respects_additionalProperties_false ns rs _ _ K)
  | |- _ => known K
  end
with blind known :=
  let a := fresh "a" in
  let b := fresh "b" in
  let K := fresh "K" in
  intros a b K; cbv beta; blind_at K known.

Ltac nothing_known K := fail "an assertion that is not a keyword".

Lemma respects_def_string : respects def_string.
Proof. unfold def_string. blind nothing_known. Qed.

Lemma respects_def_boolean : respects def_boolean.
Proof. unfold def_boolean. blind nothing_known. Qed.

Lemma respects_def_number : respects def_number.
Proof. unfold def_number. blind nothing_known. Qed.

Lemma respects_def_schemaReference : respects def_schemaReference.
Proof. unfold def_schemaReference. blind nothing_known. Qed.

Ltac scalars_known K :=
  lazymatch goal with
  | |- def_string _ = _ => exact (respects_def_string _ _ K)
  | |- def_boolean _ = _ => exact (respects_def_boolean _ _ K)
  | |- def_number _ = _ => exact (respects_def_number _ _ K)
  | |- def_schemaReference _ = _ => exact (respects_def_schemaReference _ _ K)
  end.

Lemma respects_def_array : respects def_array.
Proof. unfold def_array. blind scalars_known. Qed.

Lemma def_object_equation (v : json) :
  def_object v =
  allOf [ kw_additionalProperties_false
            ["type"; "properties"; "patternProperties"] [] v;
          kw_property "type" (kw_const (JStr "object")) v;
          kw_property "properties"
            (fun p =>
               allOf [ kw_type TObject p;
                       kw_patternProperty re_any_key
                         (fun x => oneOf [def_string x; def_number x; def_boolean x;
                                          def_schemaReference x; def_array x;
                                          def_object x]) p ]) v;
          kw_property "patternProperties" (fun _ => true) v;
          kw_required ["type"] v ].
Proof. destruct v; reflexivity. Qed.

(** Inside the induction, the recursive reference is settled by the
    induction hypothesis. *)
Ltac nested_known K :=
  lazymatch goal with
  | |- def_array _ = _ => exact (respects_def_array _ _ K)
  | |- def_object ?v = def_object ?v' =>
      match goal with I : def_object v = def_object v' |- _ => exact I end
  | |- _ => scalars_known K
  end.

(** [#/definitions/object] together with the schema of its
    [properties], which refers back to it. *)
Lemma respects_def_object_and_properties (a b : json) :
  key_perm a b ->
  def_object a = def_object b
  /\ allOf [ kw_type TObject a;
             kw_patternProperty re_any_key
               (fun x => oneOf [def_string x; def_number x; def_boolean x;
                                def_schemaReference x; def_array x; def_object x]) a ]
     = allOf [ kw_type TObject b;
               kw_patternProperty re_any_key
                 (fun x => oneOf [def_string x; def_number x; def_boolean x;
                                  def_schemaReference x; def_array x; def_object x]) b ].
Proof.
  induction 1 as [j | a b c _ [IH1 IH1'] _ [IH2 IH2'] | fs gs P
                  | pre k v v' post Kv [IH IH'] | pre x x' post _ _].
  - split; reflexivity.
  - split; congruence.
  - split.
    + rewrite !def_object_equation. apply (f_equal allOf).
      repeat (apply (f_equal2 cons);
              [first [apply forallb_perm, P | apply kw_required_perm, P] |]).
      reflexivity.
    + apply (f_equal allOf).
      apply (f_equal2 cons); [reflexivity|].
      apply (f_equal2 cons); [apply forallb_perm, P | reflexivity].
  - assert (E : oneOf [def_string v; def_number v; def_boolean v;
                       def_schemaReference v; def_array v; def_object v]
                = oneOf [def_string v'; def_number v'; def_boolean v';
                         def_schemaReference v'; def_array v'; def_object v'])
      by blind_at Kv nested_known.
    split.
    + rewrite !def_object_equation. apply (f_equal allOf).
      apply (f_equal2 cons); [apply forallb_field; reflexivity|].
      apply (f_equal2 cons);
        [apply kw_property_field; exact (respects_const_str _ _ _ Kv)|].
      apply (f_equal2 cons); [apply kw_property_field; exact IH'|].
      apply (f_equal2 cons); [apply kw_property_field; reflexivity|].
      apply (f_equal2 cons); [apply kw_required_field | reflexivity].
    + apply (f_equal allOf).
      apply (f_equal2 cons); [reflexivity|].
      apply (f_equal2 cons); [apply kw_patternProperty_field; exact E | reflexivity].
  - split; reflexivity.
Qed.

Lemma respects_def_object : respects def_object.
Proof. intros a b K. apply respects_def_object_and_properties, K. Qed.

Ltac definitions_known K :=
  lazymatch goal with
  | |- def_array _ = _ => exact (respects_def_array _ _ K)
  | |- def_object _ = _ => exact (respects_def_object _ _ K)
  | |- _ => scalars_known K
  end.

Lemma respects_SchemaModelV1 : respects SchemaModelV1.
Proof. unfold SchemaModelV1. blind definitions_known. Qed.

Ltac models_known K :=
  lazymatch goal with
  | |- SchemaModelV1 _ = _ => exact (respects_SchemaModelV1 _ _ K)
  | |- localized_text _ = _ =>
      unfold localized_text; blind_at K nothing_known
  end.

Lemma respects_SchemaModel : respects SchemaModel.
Proof. unfold SchemaModel. blind models_known. Qed.

Lemma respects_MetadataModel : respects MetadataModel.
Proof. unfold MetadataModel. blind models_known. Qed.

(** X12. The validators do not see the order of keys: two values that
    differ only in the order in which objects list their keys, at any
    depth, get the same verdict from [SchemaModel] and from
    [MetadataModel], hence the same result (return or the same error)
    from [verifyDataStructure] and [verifySchemaMetadata], and the same
    answer from [isISchema]. *)
Theorem validation_ignores_key_order (a b : json) :
  key_perm a b ->
  SchemaModel a = SchemaModel b
  /\ MetadataModel a = MetadataModel b
  /\ verifyDataStructure a = verifyDataStructure b
  /\ verifySchemaMetadata a = verifySchemaMetadata b
  /\ isISchema a = isISchema b.
Proof.
  intros K.
  pose proof (respects_SchemaModel a b K) as S.
  pose proof (respects_MetadataModel a b K) as M.
  unfold isISchema, verifyDataStructure, verifySchemaMetadata, verifyObjectAgainstSchema.
  rewrite S, M. repeat split.
Qed.
End KeyOrder.

(** ** SchemaAccounts.ts: what passes as schema metadata *)

Lemma kw_required_get (names : list string) (fs : object) (k : string) :
  kw_required names (JObj fs) = true -> In k names -> exists v, js_get k fs = Some v.
Proof.
  simpl. rewrite forallb_forall. intros R I. apply js_has_get, R, I.
Qed.

Lemma kw_patternProperty_get (re : string -> bool) (s : json -> bool) (fs : object)
    (k : string) (x : json) :
  kw_patternProperty re s (JObj fs) = true -> js_get k fs = Some x -> re k = true ->
  s x = true.
Proof.
  simpl. induction fs as [| [k' v] fs IH]; simpl; [discriminate|].
  rewrite andb_true_iff. intros [Hv Hfs].
  destruct (String.eqb k k') eqn:E; [|auto].
  apply String.eqb_eq in E. subst k'. intros [= ->] R. rewrite R in Hv. exact Hv.
Qed.

Lemma kw_additionalProperties_false_get (names : list string) (fs : object)
    (k : string) (x : json) :
  kw_additionalProperties_false names [] (JObj fs) = true -> js_get k fs = Some x ->
  In k names.
Proof.
  simpl. induction fs as [| [k' v] fs IH]; simpl; [discriminate|].
  rewrite andb_true_iff, orb_false_r. intros [Hv Hfs].
  destruct (String.eqb k k') eqn:E; [|auto].
  apply String.eqb_eq in E. subst k'. intros _.
  apply existsb_exists in Hv. destruct Hv as (n & I & En).
  apply String.eqb_eq in En. subst n. exact I.
Qed.

Lemma kw_type_object (x : json) : kw_type TObject x = true -> exists fs, x = JObj fs.
Proof. destruct x; try discriminate. eauto. Qed.

Lemma kw_type_string (x : json) : kw_type TString x = true -> exists s, x = JStr s.
Proof. destruct x; try discriminate. eauto. Qed.

Ltac assertions H :=
  rewrite allOf_true in H;
  repeat (let A := fresh "A" in apply Forall_cons in H; destruct H as [A H]);
  clear H.

Section Metadata.
Context `{Utils} `{Api} `{Types} `{Identifier} `{Runtime}.

Lemma localized_text_default (x : json) :
  localized_text x = true ->
  exists fs text, x = JObj fs /\ js_get "default" fs = Some (JStr text).
Proof.
  intros L. unfold localized_text in L. assertions L.
  apply kw_type_object in A. destruct A as [fs ->].
  destruct (kw_required_get _ _ "default" A2) as [d G]; [left; reflexivity|].
  destruct (kw_type_string _ (kw_property_get _ _ _ _ A0 G)) as [text ->].
  eauto.
Qed.

(** X13. What [verifySchemaMetadata] lets through: an object with
    exactly the keys [metadata] and [schemaId], where [schemaId] is a
    non-empty string and [metadata] is an object with no key besides
    [title], [description] and [properties], whose [title] has a string
    under [default] and whose [properties] gives every property an
    object with such a [title]. Whatever passes is no schema:
    [verifyDataStructure] refuses it. *)
Theorem verifySchemaMetadata_accepts_only (metadata : json) :
  verifySchemaMetadata metadata = Ok tt ->
  (exists fs m title text props schemaId,
      metadata = JObj fs
      /\ js_get "schemaId" fs = Some (JStr schemaId) /\ schemaId <> EmptyString
      /\ js_get "metadata" fs = Some (JObj m)
      /\ js_get "title" m = Some (JObj title)
      /\ js_get "default" title = Some (JStr text)
      /\ js_get "properties" m = Some (JObj props)
      /\ (forall name entry,
             js_get name props = Some entry -> re_any name = true ->
             exists e t d, entry = JObj e /\ js_get "title" e = Some (JObj t)
                           /\ js_get "default" t = Some (JStr d))
      /\ (forall k v, js_get k fs = Some v -> k = "metadata" \/ k = "schemaId")
      /\ (forall k v, js_get k m = Some v ->
             k = "title" \/ k = "description" \/ k = "properties"))
  /\ verifyDataStructure metadata = Throw unverifiable.
Proof.
  unfold verifySchemaMetadata, verifyDataStructure, verifyObjectAgainstSchema.
  destruct (MetadataModel metadata) eqn:M; [intros _ | discriminate].
  unfold MetadataModel in M. assertions M.
  apply kw_type_object in A. destruct A as [fs ->].
  destruct (kw_required_get _ _ "metadata" A2) as [mv Gm]; [left; reflexivity|].
  destruct (kw_required_get _ _ "schemaId" A2) as [sv Gs];
    [right; left; reflexivity|].
  pose proof (kw_property_get _ _ _ _ A0 Gm) as Pm. cbv beta in Pm. assertions Pm.
  pose proof (kw_property_get _ _ _ _ A1 Gs) as Ps. cbv beta in Ps. assertions Ps.
  apply kw_type_object in A. destruct A as [m ->].
  apply kw_type_string in A9. destruct A9 as [schemaId ->].
  destruct (kw_required_get _ _ "title" A7) as [tv Gt]; [left; reflexivity|].
  destruct (kw_required_get _ _ "properties" A7) as [pv Gp];
    [right; left; reflexivity|].
  destruct (localized_text_default _ (kw_property_get _ _ _ _ A4 Gt))
    as (title & text & -> & Gd).
  pose proof (kw_property_get _ _ _ _ A6 Gp) as Pp. cbv beta in Pp. assertions Pp.
  apply kw_type_object in A. destruct A as [props ->].
  split.
  - exists fs, m, title, text, props, schemaId.
    split; [reflexivity|]. split; [exact Gs|]. split.
    { intros ->. discriminate A10. }
    split; [exact Gm|]. split; [exact Gt|]. split; [exact Gd|].
    split; [exact Gp|]. split; [|split].
    + intros name entry Ge Re.
      pose proof (kw_patternProperty_get _ _ _ _ _ A9 Ge Re) as Pe.
      cbv beta in Pe. assertions Pe.
      apply kw_type_object in A. destruct A as [e ->].
      destruct (kw_required_get _ _ "title" A13) as [tv' Gt']; [left; reflexivity|].
      destruct (localized_text_default _ (kw_property_get _ _ _ _ A11 Gt'))
        as (t & d & -> & Gd').
      eauto 8.
    + intros k v G.
      pose proof (kw_additionalProperties_false_get _ _ _ _ A3 G) as I.
      simpl in I. destruct I as [<- | [<- | []]]; auto.
    + intros k v G.
      pose proof (kw_additionalProperties_false_get _ _ _ _ A8 G) as I.
      simpl in I. destruct I as [<- | [<- | [<- | []]]]; auto.
  - destruct (SchemaModel (JObj fs)) eqn:S; [|reflexivity].
    apply SchemaModel_parts in S. destruct S as (_ & _ & R).
    destruct (kw_required_get _ _ "$id" R) as [iv Gi]; [left; reflexivity|].
    pose proof (kw_additionalProperties_false_get _ _ _ _ A3 Gi) as I.
    simpl in I. destruct I as [I | [I | []]]; discriminate I.
Qed.
End Metadata.

(** ** SchemaAccounts.chain.ts and Entries.chain.ts: reading back *)

Section ReadProperties.
Context {Chain : Type} `{Gateway Chain}.
Context `{Utils} `{Api} `{Types} `{Identifier} `{Runtime} `{Decoding}.

Ltac unfold_reads :=
  unfold fetchFromChain, fromChain, schemaInputFromChain, getDetailsfromChain,
    fetchRegistryEntryDetailsFromChain, decodeRegistryEntryDetailsFromChain,
    fetch_catch, fetch_bind, fetch_lift, fetch_await, fetch_throw, fetch_ret,
    res_catch, res_bind, res_lift, exc_bind,
    await_schemas, await_registryEntries,
    verifyDataStructure, verifyObjectAgainstSchema.

Ltac walk_reads :=
  unfold_reads; cbn [fst snd];
  repeat match goal with
         | |- context [uriToIdentifier ?u] =>
             destruct (uriToIdentifier u) as [? | ?] eqn:?; cbn [fst snd]
         | |- context [uriToEntryIdAndDigest ?u] =>
             destruct (uriToEntryIdAndDigest u) as [[? ?] | ?] eqn:?; cbn [fst snd]
         | |- context [query_schemas ?i ?c] =>
             destruct (query_schemas i c) as [[? |] | ?] eqn:?; cbn [fst snd]
         | |- context [query_registryEntries ?i ?c] =>
             destruct (query_registryEntries i c) as [[? |] | ?] eqn:?; cbn [fst snd]
         | |- context [cbor_decode_packed ?b] =>
             destruct (cbor_decode_packed b) as [? | ?] eqn:?; cbn [fst snd]
         | |- context [SchemaModel ?v] =>
             destruct (SchemaModel v) eqn:?; cbn [fst snd]
         | |- context [identifierToUri ?i] =>
             destruct (identifierToUri i) as [? | ?] eqn:?; cbn [fst snd]
         | |- context [encodeAddress ?a ?f] =>
             destruct (encodeAddress a f) as [? | ?] eqn:?; cbn [fst snd]
         | |- context [hexToString ?x] =>
             destruct (hexToString x) as [? | ?] eqn:?; cbn [fst snd]
         end.

(** X14. [fetchFromChain] never returns [null] and throws nothing but
    the [CordFetchError] of its handler. It asks the ledger at most
    once and submits nothing. For a URI the ledger has no schema for,
    the message carries the [SchemaError] saying so. *)
Theorem fetchFromChain_outcome (w : World Chain) (schemaUri : string) :
  let r := fetchFromChain schemaUri w in
  ((exists details, fst r = Done (Some details))
   \/ exists error,
        fst r = Raise (FurtherError CordFetchError (fetch_schema_message error) None))
  /\ chain (snd r) = chain w
  /\ submissions (events (snd r)) = submissions (events w)
  /\ (forall t, uriToIdentifier (Some (JStr schemaUri)) = Throw t -> snd r = w)
  /\ (forall identifier,
         uriToIdentifier (Some (JStr schemaUri)) = Ok identifier ->
         snd r = asked_for_schema w identifier
         /\ (query_schemas identifier (chain w) = Ok None ->
             fst r = Raise (FurtherError CordFetchError
                              (fetch_schema_message
                                 (FurtherError SchemaError
                                    (no_schema_message schemaUri) None))
                              None))).
Proof.
  cbv zeta. unfold asked_for_schema.
  repeat split; walk_reads; cbn [chain events];
    try solve [left; eauto | right; eauto | reflexivity | apply submissions_query
              | intros; congruence ].
Qed.

(** X15. A record [fetchFromChain] returns is the stored payload,
    decoded, under the requested [$id] unless the payload brings its
    own; it has passed [verifyDataStructure], its digest is the stored
    one and its creator the stored account behind [did:cord:3]. The
    [$id] is not derived again from the content. *)
Theorem fetchFromChain_returns_checked_record
    (w : World Chain) (schemaUri : string) (details : ISchemaAccountsDetails) :
  fst (fetchFromChain schemaUri w) = Done (Some details) ->
  exists identifier stored decoded,
    uriToIdentifier (Some (JStr schemaUri)) = Ok identifier
    /\ query_schemas identifier (chain w) = Ok (Some stored)
    /\ cbor_decode_packed (base64_decode (stored_schema stored)) = Ok decoded
    /\ details_schema details = js_spread [("$id", JStr schemaUri)] (own_fields decoded)
    /\ details_digest details = stored_schema_digest stored
    /\ details_creatorUri details = "did:cord:3" +:+ stored_schema_creator stored
    /\ isISchema (JObj (details_schema details)) = true
    /\ (forall fs, decoded = JObj fs -> distinct (List.map fst fs) = true ->
          js_get "$id" (details_schema details)
          = match js_get "$id" fs with
            | Some declared => Some declared
            | None => Some (JStr schemaUri)
            end).
Proof.
  walk_reads; intros E; try discriminate E.
  apply (f_equal (fun r => match r with Done (Some d) => Some d | _ => None end)) in E.
  injection E as <-. cbn [details_schema details_digest details_creatorUri].
  do 3 eexists. repeat split; try eassumption; try reflexivity.
  - unfold isISchema, verifyDataStructure, verifyObjectAgainstSchema.
    match goal with S : SchemaModel _ = true |- _ => rewrite S end. reflexivity.
  - intros fs -> D. apply distinct_NoDup in D.
    cbn [own_fields]. rewrite js_get_spread by exact D.
    destruct (js_get "$id" fs); reflexivity.
Qed.

End ReadProperties.

(** ** What is anchored is what is read back *)

Lemma json_induction (P : json -> Prop) :
  P JNull -> (forall b, P (JBool b)) -> (forall n, P (JNum n)) -> (forall s, P (JStr s)) ->
  (forall xs, Forall P xs -> P (JArr xs)) ->
  (forall fs, Forall (fun kv => P (snd kv)) fs -> P (JObj fs)) ->
  forall j, P j.
Proof.
  intros HN HB HZ HS HA HO. fix IH 1. intros [| b | n | s | xs | fs].
  - exact HN.
  - apply HB.
  - apply HZ.
  - apply HS.
  - apply HA. induction xs as [| x xs IHxs]; constructor; [apply IH | exact IHxs].
  - apply HO. induction fs as [| [k v] fs IHfs]; constructor; [apply IH | exact IHfs].
Qed.

Lemma key_perm_items (pre xs : list json) :
  Forall (fun x => key_perm x (sortObj x)) xs ->
  key_perm (JArr (pre ++ xs)) (JArr (pre ++ List.map sortObj xs)).
Proof.
  intros F. revert pre. induction F as [| x xs Kx _ IH]; intros pre; [apply kp_refl|].
  eapply kp_trans; [apply kp_item, Kx|].
  simpl. change (sortObj x :: xs) with ([sortObj x] ++ xs).
  change (sortObj x :: List.map sortObj xs) with ([sortObj x] ++ List.map sortObj xs).
  rewrite !app_assoc. apply IH.
Qed.

Lemma key_perm_fields (pre fs : object) :
  Forall (fun kv => key_perm (snd kv) (sortObj (snd kv))) fs ->
  key_perm (JObj (pre ++ fs))
    (JObj (pre ++ List.map (fun kv => (fst kv, sortObj (snd kv))) fs)).
Proof.
  intros F. revert pre. induction F as [| [k v] fs Kv _ IH]; intros pre; [apply kp_refl|].
  eapply kp_trans; [apply kp_field, Kv|].
  simpl.
  change ((k, sortObj v) :: fs) with ([(k, sortObj v)] ++ fs).
  change ((k, sortObj v) :: List.map (fun kv => (fst kv, sortObj (snd kv))) fs)
    with ([(k, sortObj v)] ++ List.map (fun kv => (fst kv, sortObj (snd kv))) fs).
  rewrite !app_assoc. apply IH.
Qed.

Lemma sorting_is_a_key_permutation (j : json) : key_perm j (sortObj j).
Proof.
  induction j as [| b | n | s | xs IH | fs IH] using json_induction;
    try apply kp_refl.
  - apply (key_perm_items []), IH.
  - simpl. eapply kp_trans; [apply (key_perm_fields []), IH|].
    apply kp_keys. symmetry. apply sort_keys_fields.
Qed.

Lemma js_rest_front (k : string) (v : json) (o : object) :
  js_get k o = Some v -> NoDup (List.map fst o) ->
  Permutation o ((k, v) :: js_rest k o).
Proof.
  induction o as [| [k' v'] o IH]; [discriminate|].
  intros G D. cbn [js_get] in G. cbn [List.map fst] in D.
  apply NoDup_cons in D. destruct D as [N D].
  destruct (String.eqb k k') eqn:E.
  - apply String.eqb_eq in E. subst k'. injection G as ->.
    rewrite js_rest_head, (js_rest_absent k o N). reflexivity.
  - unfold js_rest. simpl. rewrite E. simpl. fold (js_rest k o).
    etransitivity; [apply perm_skip, (IH G D) | apply perm_swap].
Qed.

Section RoundTrip.
Context `{Utils} `{Api} `{Types} `{Identifier} `{Runtime} `{Decoding}.

(** X17. What [encodeCborSchema] writes, [schemaInputFromChain] reads
    back. For a schema that passes [verifyDataStructure], on a payload
    where the two decoders invert the two encoders, the record read
    back under the schema's [$id] is the canonical form of the schema
    (what [sortObj] makes of the schema without [$id]) with [$id]
    first; it has the encoding of the schema, hence its URI and
    digest, and [verifySchemaStructure] judges it as it judges the
    schema. *)
Theorem schema_payload_round_trip (schema : object) (schemaUri : string) :
  well_formed (JObj schema) = true ->
  js_get "$id" schema = Some (JStr schemaUri) ->
  isISchema (JObj schema) = true ->
  let canonical := sortObj (JObj (js_rest "$id" schema)) in
  base64_decode (base64 (cbor_encode canonical)) = cbor_encode canonical ->
  cbor_decode_packed (cbor_encode canonical) = Ok canonical ->
  let fetched := ("$id", JStr schemaUri) :: own_fields canonical in
  schemaInputFromChain (encodeCborSchema schema) schemaUri = Done fetched
  /\ encodeCborSchema fetched = encodeCborSchema schema
  /\ getUriForSchema fetched = getUriForSchema schema
  /\ verifySchemaStructure fetched = verifySchemaStructure schema.
Proof.
  intros W G V canonical B C fetched.
  set (rest := js_rest "$id" schema) in *.
  set (sorted := sort_keys (List.map (fun kv => (fst kv, sortObj (snd kv))) rest)).
  assert (Ec : canonical = JObj sorted) by reflexivity.
  assert (Ef : fetched = ("$id", JStr schemaUri) :: sorted) by reflexivity.
  assert (K : key_perm (JObj schema) (JObj fetched)).
  { rewrite Ef. eapply kp_trans.
    - apply kp_keys, (js_rest_front "$id" (JStr schemaUri) schema G).
      apply well_formed_obj in W. tauto.
    - fold rest. eapply kp_trans.
      + apply (key_perm_fields [("$id", JStr schemaUri)] rest).
        apply Forall_forall. intros kv _. apply sorting_is_a_key_permutation.
      + apply kp_keys. simpl. apply perm_skip. symmetry. apply sort_keys_fields. }
  pose proof (key_perm_well_formed _ _ K W) as W'.
  assert (S : js_spread [("$id", JStr schemaUri)] sorted = fetched).
  { rewrite Ef in W'. apply well_formed_obj in W'. destruct W' as [D _].
    simpl in D. apply NoDup_cons in D. destruct D as [N D].
    rewrite js_spread_fresh; [rewrite Ef; reflexivity | exact D |].
    intros k I. simpl. rewrite elem_of_cons. intros [-> | E]; [contradiction|].
    inversion E. }
  assert (M : SchemaModel (JObj fetched) = true).
  { rewrite <- (respects_SchemaModel _ _ K).
    unfold isISchema, verifyDataStructure, verifyObjectAgainstSchema in V.
    destruct (SchemaModel (JObj schema)); [reflexivity | discriminate V]. }
  assert (E : encodeCborSchema fetched = encodeCborSchema schema).
  { symmetry. apply encodeCborSchema_key_perm; assumption. }
  split; [|split; [exact E | split; [apply getUriForSchema_encoding, E|]]].
  - unfold schemaInputFromChain, encodeCborSchema. cbv zeta.
    fold rest. fold canonical. rewrite B, C. cbn [res_lift res_bind res_catch].
    rewrite Ec. cbn [own_fields]. rewrite S.
    unfold verifyDataStructure, verifyObjectAgainstSchema. rewrite M. reflexivity.
  - unfold verifySchemaStructure, verifyObjectAgainstSchema.
    rewrite (respects_SchemaModel _ _ K) at 1.
    destruct (getUriForSchema_encoding _ _ E) as [_ ->].
    assert (Gi : js_get "$id" fetched = js_get "$id" schema)
      by (rewrite G, Ef; reflexivity).
    rewrite Gi. reflexivity.
Qed.
End RoundTrip.

(** ** Namespace.ts: the properties of a new namespace *)

Section NamespaceFacts.
Context `{Utils} `{Api} `{Types} `{Identifier} `{Runtime} `{Decoding}.

Lemma Done_injective {A} (a b : A) : Done a = Done b -> a = b.
Proof. intros E. injection E as E. exact E. Qed.

Lemma serialized_parses (blob : option string) :
  isBlobSerialized (JStr (JSON_stringify (JStr (as_string blob)))) = true ->
  isBlobSerialized (JStr (serialized blob)) = true.
Proof.
  intros L. unfold serialized.
  destruct (isBlobSerialized (JStr (as_string blob))) eqn:S; [exact S | exact L].
Qed.

Lemma serialized_choice (blob : option string) :
  (if negb (isBlobSerialized (JStr (as_string blob)))
   then JSON_stringify (JStr (as_string blob)) else as_string blob) = serialized blob.
Proof. unfold serialized. destruct (isBlobSerialized _); reflexivity. Qed.

(** The function, once the two inner checks are known to pass. *)
Lemma namespaceCreateProperties_normal_form
    (creatorAddress : string) (digest blob : option string) :
  isBlobSerialized (JStr (JSON_stringify (JStr (as_string blob)))) = true ->
  namespaceCreateProperties creatorAddress digest blob =
  if negb (truthy digest) && negb (truthy blob) then Raise nothing_provided
  else
    let digest' := if truthy digest then digest
                   else Some (blake2AsHex_text (serialized blob)) in
    let blob' := if truthy blob
                 then Some (base64 (cbor_encode (JStr (serialized blob)))) else blob in
    if negb (truthy digest') then Raise empty_digest
    else
      match getUriForNamespace (as_string digest') creatorAddress with
      | Ok uris =>
          Done {| create_uri := namespace_uri uris;
                  create_creatorUri := "did:cord:3" +:+ creatorAddress;
                  create_digest := as_string digest';
                  create_blob := blob';
                  create_authorizationUri := namespace_authorizationUri uris |}
      | Throw t => Raise (Earlier t)
      end.
Proof.
  intros L. pose proof (serialized_parses blob L) as P.
  unfold namespaceCreateProperties, getDigestFromRawData, encodeStringifiedBlobToCbor.
  cbv zeta. rewrite !serialized_choice, P.
  destruct (truthy digest) eqn:D, (truthy blob) eqn:B;
    cbn [negb andb res_bind fst snd]; try rewrite D;
    cbn [negb]; try reflexivity.
  - destruct (getUriForNamespace _ _); reflexivity.
  - destruct (getUriForNamespace _ _); reflexivity.
  - destruct (truthy (Some (blake2AsHex_text (serialized blob)))); cbn [negb];
      [|reflexivity].
    destruct (getUriForNamespace _ _); reflexivity.
Qed.

(** X18. What [namespaceCreateProperties] returns and how it fails,
    for a blob whose [JSON.stringify] parses. A supplied digest is
    returned as it is; without one the digest is the hash of the
    serialized text. A supplied blob comes back as the base64 text of
    the CBOR encoding of the serialized text. The URIs are those of
    [getUriForNamespace] for the returned digest, the authorization URI
    being the creator's delegation to itself. It fails when neither
    digest nor blob is given, when the hash comes back empty, or with
    what [getUriForNamespace] throws; the error of an unserialized blob
    is never raised. *)
Theorem namespaceCreateProperties_outcome
    (creatorAddress : string) (digest blob : option string) :
  isBlobSerialized (JStr (JSON_stringify (JStr (as_string blob)))) = true ->
  (forall created,
      namespaceCreateProperties creatorAddress digest blob = Done created ->
      create_creatorUri created = "did:cord:3" +:+ creatorAddress
      /\ create_digest created
         = (if truthy digest then as_string digest
            else blake2AsHex_text (serialized blob))
      /\ create_blob created
         = (if truthy blob then Some (base64 (cbor_encode (JStr (serialized blob))))
            else blob)
      /\ getUriForNamespace (create_digest created) creatorAddress
         = Ok {| namespace_uri := create_uri created;
                 namespace_authorizationUri := create_authorizationUri created |}
      /\ getUriForAuthorization (create_uri created) creatorAddress creatorAddress
         = Ok (create_authorizationUri created))
  /\ (forall e,
         namespaceCreateProperties creatorAddress digest blob = Raise e ->
         e <> not_serialized
         /\ ((e = nothing_provided /\ truthy digest = false /\ truthy blob = false)
             \/ (e = empty_digest /\ truthy digest = false
                 /\ blake2AsHex_text (serialized blob) = EmptyString)
             \/ exists t, e = Earlier t)).
Proof.
  intros L. rewrite (namespaceCreateProperties_normal_form _ _ _ L). cbv zeta.
  split.
  - intros created E.
    assert (F : exists uris,
               getUriForNamespace
                 (if truthy digest then as_string digest
                  else blake2AsHex_text (serialized blob)) creatorAddress = Ok uris
               /\ created =
                  {| create_uri := namespace_uri uris;
                     create_creatorUri := "did:cord:3" +:+ creatorAddress;
                     create_digest := if truthy digest then as_string digest
                                      else blake2AsHex_text (serialized blob);
                     create_blob := if truthy blob
                                    then Some (base64 (cbor_encode (JStr (serialized blob))))
                                    else blob;
                     create_authorizationUri := namespace_authorizationUri uris |}).
    { revert E.
      destruct (truthy digest) eqn:D, (truthy blob) eqn:B; cbn [negb andb];
        try rewrite D; cbn [negb as_string]; try (intros E; discriminate E);
        try (destruct (truthy (Some (blake2AsHex_text (serialized blob)))) eqn:T; cbn [negb];
             try (intros E; discriminate E));
        destruct (getUriForNamespace _ _) as [uris | t] eqn:U;
        try (intros E; discriminate E);
        intros E; apply Done_injective in E; subst created; exists uris;
        split; reflexivity. }
    destruct F as (uris & U & ->).
    cbn [create_creatorUri create_digest create_blob create_uri create_authorizationUri].
    split; [reflexivity|]. split; [reflexivity|]. split; [reflexivity|]. split.
    + rewrite U. destruct uris; reflexivity.
    + unfold getUriForNamespace in U.
      destruct (scale_H256 _); cbn [exc_bind] in U; [|discriminate U].
      destruct (scale_AccountId _); cbn [exc_bind] in U; [|discriminate U].
      destruct (getUriForAuthorization _ _ _) eqn:A; cbn [exc_bind] in U;
        [|discriminate U].
      injection U as <-. exact A.
  - intros e.
    destruct (truthy digest) eqn:D, (truthy blob) eqn:B; cbn [negb andb];
      try rewrite D; cbn [negb as_string];
      try (destruct (truthy (Some (blake2AsHex_text (serialized blob)))) eqn:T; cbn [negb]);
      try (destruct (getUriForNamespace _ _) as [uris | t] eqn:U);
      intros E; try discriminate E; injection E as <-;
      (split; [discriminate|]);
      first [ left; repeat split; reflexivity
            | right; right; eexists; reflexivity
            | right; left; repeat split;
              destruct (blake2AsHex_text (serialized blob));
              [reflexivity | discriminate T] ].
Qed.

(** X19. A supplied digest is never compared with the blob. Two calls
    with the same digest and any two blobs end alike: both fail with
    the same error, or both return the same URI, digest, authorization
    URI and creator. *)
Theorem supplied_digest_is_not_checked
    (creatorAddress : string) (digest : string) (blob blob' : option string) :
  digest <> EmptyString ->
  isBlobSerialized (JStr (JSON_stringify (JStr (as_string blob)))) = true ->
  isBlobSerialized (JStr (JSON_stringify (JStr (as_string blob')))) = true ->
  match namespaceCreateProperties creatorAddress (Some digest) blob,
        namespaceCreateProperties creatorAddress (Some digest) blob' with
  | Done created, Done created' =>
      create_digest created = digest
      /\ create_digest created' = digest
      /\ create_uri created = create_uri created'
      /\ create_authorizationUri created = create_authorizationUri created'
      /\ create_creatorUri created = create_creatorUri created'
  | Raise e, Raise e' => e = e'
  | _, _ => False
  end.
Proof.
  intros N L L'.
  rewrite (namespaceCreateProperties_normal_form _ _ _ L),
    (namespaceCreateProperties_normal_form _ _ _ L').
  assert (D : truthy (Some digest) = true)
    by (destruct digest; [contradiction | reflexivity]).
  cbv zeta. rewrite D. cbn [negb andb]. rewrite D. cbn [negb as_string].
  destruct (getUriForNamespace digest creatorAddress); repeat split.
Qed.

(** X20. The blob of the created properties decodes to the serialized
    text, where the two decoders invert the two encoders. *)
Theorem created_blob_decodes
    (creatorAddress : string) (digest : option string) (blob : string)
    (created : INamespaceCreate) :
  blob <> EmptyString ->
  isBlobSerialized (JStr (JSON_stringify (JStr blob))) = true ->
  base64_decode (base64 (cbor_encode (JStr (serialized (Some blob)))))
  = cbor_encode (JStr (serialized (Some blob))) ->
  cbor_decode (cbor_encode (JStr (serialized (Some blob))))
  = Ok (JStr (serialized (Some blob))) ->
  namespaceCreateProperties creatorAddress digest (Some blob) = Done created ->
  exists cborBlob,
    create_blob created = Some cborBlob
    /\ encodeStringifiedBlobToCbor (serialized (Some blob)) = Done cborBlob
    /\ decodeCborToStringifiedBlob cborBlob = Ok (JStr (serialized (Some blob)))
    /\ (isBlobSerialized (JStr blob) = true ->
        decodeCborToStringifiedBlob cborBlob = Ok (JStr blob)).
Proof.
  intros N L B C E.
  rewrite (namespaceCreateProperties_normal_form _ _ (Some blob) L) in E.
  cbv zeta in E.
  assert (T : truthy (Some blob) = true)
    by (destruct blob; [contradiction | reflexivity]).
  rewrite T in E. rewrite andb_false_r in E.
  destruct (negb (truthy _)); [discriminate E|].
  destruct (getUriForNamespace _ _); [|discriminate E].
  apply Done_injective in E. subst created. cbn [create_blob].
  eexists. split; [reflexivity|]. split; [|split].
  - unfold encodeStringifiedBlobToCbor.
    rewrite (serialized_parses (Some blob) L). reflexivity.
  - unfold decodeCborToStringifiedBlob. rewrite B, C. reflexivity.
  - intros S. unfold decodeCborToStringifiedBlob. rewrite B, C.
    unfold serialized. cbn [as_string]. rewrite S. reflexivity.
Qed.
End NamespaceFacts.

(** ** Did.chain.ts: a service on its way to the chain and back *)

Section DidServiceFacts.
Context `{UriRuntime}.

Lemma checked_uris (id : string) (uris : list string) (checked : Res unit) :
  fold_left
    (fun checked uri =>
       (do _ <- checked;
        if negb (isUri uri) then Raise (invalid_uri uri id) else Done tt)%res)
    uris checked = Done tt ->
  checked = Done tt /\ Forall (fun uri => isUri uri = true) uris.
Proof.
  revert checked. induction uris as [| uri uris IH]; intros checked; simpl.
  - intros ->. split; [reflexivity | constructor].
  - intros F. apply IH in F. destruct F as [F U].
    destruct checked as [[] | e]; simpl in F; [|discriminate F].
    destruct (isUri uri) eqn:I; [|discriminate F].
    split; [reflexivity|]. constructor; assumption.
Qed.

Lemma uris_checked (id : string) (uris : list string) :
  Forall (fun uri => isUri uri = true) uris ->
  fold_left
    (fun checked uri =>
       (do _ <- checked;
        if negb (isUri uri) then Raise (invalid_uri uri id) else Done tt)%res)
    uris (Done tt) = Done tt.
Proof.
  induction 1 as [| uri uris I _ IH]; simpl; [reflexivity|].
  rewrite I. exact IH.
Qed.

Lemma resourceIdToChain_hash (fragment : string) :
  resourceIdToChain ("#" +:+ fragment) = fragment.
Proof. reflexivity. Qed.

Lemma startsWith_hash (fragment : string) : startsWith "did:cord" ("#" +:+ fragment) = false.
Proof. reflexivity. Qed.

(** X21. A service that [serviceToChain] accepts: its [id] is no DID
    URI, what is stored as [id] is the [id] without one leading [#],
    made of the characters of a URI fragment, and every URL passed
    [isUri]. [serviceFromChain] gives the stored service back with
    [#] in front of the [id]: the service itself exactly when its [id]
    was written with the [#]; in any case a service that
    [serviceToChain] maps to the same stored value. *)
Theorem service_round_trip (service : DidServiceEndpoint) (endpoint : ChainEndpoint) :
  serviceToChain service = Done endpoint ->
  startsWith "did:cord" (service_id service) = false
  /\ endpoint_id endpoint = resourceIdToChain (service_id service)
  /\ UriFragmentRegex (endpoint_id endpoint) = true
  /\ Forall (fun uri => isUri uri = true) (endpoint_urls endpoint)
  /\ (exists restored,
         serviceFromChain (Some endpoint) = Ok restored
         /\ service_id restored = "#" +:+ endpoint_id endpoint
         /\ service_type restored = service_type service
         /\ service_serviceEndpoint restored = service_serviceEndpoint service
         /\ serviceToChain restored = Done endpoint
         /\ (restored = service <-> startsWith "#" (service_id service) = true)).
Proof.
  unfold serviceToChain, validateService. cbv zeta.
  destruct (startsWith "did:cord" (service_id service)) eqn:S; [discriminate|].
  destruct (isUriFragment (resourceIdToChain (service_id service))) eqn:F;
    cbn [negb]; [|discriminate].
  destruct (fold_left _ _ _) as [[] | e] eqn:U; [|discriminate].
  cbn [res_bind]. intros E. apply Done_injective in E. subst endpoint.
  cbn [endpoint_id endpoint_urls endpoint_serviceTypes].
  apply checked_uris in U. destruct U as [_ U].
  split; [reflexivity|]. split; [reflexivity|]. split.
  { unfold isUriFragment in F. destruct (UriFragmentRegex _); [reflexivity | discriminate F]. }
  split; [exact U|].
  eexists. split; [reflexivity|].
  cbn [service_id service_type service_serviceEndpoint endpoint_id endpoint_urls
         endpoint_serviceTypes].
  rewrite !map_id.
  split; [reflexivity|]. split; [reflexivity|]. split; [reflexivity|]. split.
  - rewrite startsWith_hash, resourceIdToChain_hash, F. cbn [negb].
    rewrite (uris_checked _ _ U). reflexivity.
  - destruct service as [id type uris]. cbn [service_id service_type service_serviceEndpoint].
    split.
    + intros E. injection E as E. rewrite <- E. reflexivity.
    + intros P. f_equal. destruct id as [| c rest]; [discriminate P|].
      destruct (Ascii.eqb_spec c "#") as [-> | Nc]; [reflexivity|].
      unfold startsWith in P. cbn [strip_prefix] in P.
      destruct (Ascii.eqb_spec "#" c) as [<- | _]; [contradiction | discriminate P].
Qed.
End DidServiceFacts.

(** * The further statements on the reference instance *)

Section MoreEvaluation.
Import Sample.
Import MoreSample.

(** A registry URI handed to Revoke comes back as the helper's own
    error, and to Create as a [CordDispatchError]; the ledger is not
    asked. *)
Lemma transitions_reject_malformed_entry_uri_witness :
  dispatchCreateEntryToChain misaddressed_entry alice (start ledger_with_E)
  = (Throw (ErrorObject CordDispatchError
              (dispatch_message "Invalid URI format: registry:cord:r1")),
     start ledger_with_E)
  /\ dispatchRevokeEntryToChain "registry:cord:r1" "registryauth:cord:a1" alice
       (start ledger_with_E)
     = (Throw (ErrorObject ForeignError "Invalid URI format: registry:cord:r1"),
        start ledger_with_E).
Proof.
  pose proof (transitions_reject_malformed_entry_uri
                (start ledger_with_E) misaddressed_entry bob "registryauth:cord:a2"
                alice (ErrorObject ForeignError "Invalid URI format: registry:cord:r1")
                eq_refl) as (C & _ & R & _).
  split; [exact C | exact R].
Defined.

(** An authorization given by its bare identifier stops Update and
    Reinstate on the anchored entry. *)
Lemma transitions_reject_malformed_authorization_uri_witness :
  dispatchUpdateEntryToChain unauthorized_entry alice (start ledger_with_E)
  = (Throw (ErrorObject CordDispatchError (dispatch_message "Invalid URI format: a1")),
     start ledger_with_E)
  /\ dispatchReinstateEntryToChain "entry:cord:e1:d1" "a1" alice (start ledger_with_E)
     = (Throw (ErrorObject ForeignError "Invalid URI format: a1"), start ledger_with_E).
Proof.
  pose proof (transitions_reject_malformed_authorization_uri
                (start ledger_with_E) unauthorized_entry bob "registryauth:cord:a2"
                alice "e1" "d1" (ErrorObject ForeignError "Invalid URI format: a1")
                eq_refl eq_refl) as (_ & U & _ & R & _).
  split; [exact U | exact R].
Defined.

(** On a ledger that cannot be reached, Create reports a
    [CordDispatchError] and Reinstate the [CordQueryError] itself. *)
Lemma transitions_surface_query_failure_witness :
  fst (dispatchCreateEntryToChain entry_E alice (start disconnected_ledger))
  = Throw (ErrorObject CordDispatchError
             (dispatch_message
                "Error querying the registry-entry: Error: disconnected"))
  /\ fst (dispatchReinstateEntryToChain "entry:cord:e1:d1" "registryauth:cord:a1" alice
            (start disconnected_ledger))
     = Throw (ErrorObject CordQueryError
                "Error querying the registry-entry: Error: disconnected").
Proof.
  pose proof (transitions_surface_query_failure
                (start disconnected_ledger) entry_E bob "registryauth:cord:a2" alice
                "e1" "d1" "a1" "a2" (ErrorObject ForeignError "disconnected")
                eq_refl eq_refl eq_refl eq_refl) as (C & _ & _ & R & _).
  split; [exact (f_equal fst C) | exact (f_equal fst R)].
Defined.

(** Revoking the anchored entry sets its flag; handing it to Bob
    changes its owner. *)
Lemma transitions_submit_when_present_witness :
  fst (dispatchRevokeEntryToChain "entry:cord:e1:d1" "registryauth:cord:a1" alice
         (start ledger_with_E)) = Ok "entry:cord:e1:d1"
  /\ fst (dispatchUpdateOwnershipToChain "entry:cord:e1:d1" "registryauth:cord:a1"
            bob "registryauth:cord:a2" alice (start ledger_with_E))
     = Ok "entry:cord:e1:d1".
Proof.
  pose proof (transitions_submit_when_present
                (start ledger_with_E) entry_E bob "registryauth:cord:a2" alice
                "e1" "d1" "a1" "a2"
                {| stored_digest := "0x01"; stored_revoked := false;
                   stored_creator := alice; stored_registryId := "r1" |}
                eq_refl eq_refl eq_refl eq_refl) as (_ & R & T).
  split; [exact (f_equal fst R) | exact (f_equal fst T)].
Defined.

(** The built Person schema is anchored on the empty ledger. *)
Lemma dispatchToChain_anchors_absent_schema_witness :
  fst (dispatchToChain built_person alice (start empty_ledger))
  = Ok (Some (JStr "schema:cord:m29050x6e6a52822cf288fe"))
  /\ submissions (events (snd (dispatchToChain built_person alice (start empty_ledger))))
     = [(schemaAccounts_create (encodeCborSchema built_person), alice)].
Proof.
  assert (P : uriToIdentifier (js_get "$id" built_person) = Ok "m29050x6e6a52822cf288fe")
    by (vm_compute; reflexivity).
  pose proof (dispatchToChain_anchors_absent_schema
                (start empty_ledger) built_person alice _ P eq_refl) as D.
  cbv zeta in D. rewrite D. split; reflexivity.
Defined.

(** Asked about the built Person schema, the empty ledger says no, and
    the dispatch submits it. *)
Lemma doesSchemaIdExists_predicts_dispatch_witness :
  fst (doesSchemaIdExists "schema:cord:m29050x6e6a52822cf288fe" (start empty_ledger))
  = Ok false
  /\ submissions (events (snd (dispatchToChain built_person alice (start empty_ledger))))
     = [(schemaAccounts_create (encodeCborSchema built_person), alice)].
Proof.
  assert (Q : fst (doesSchemaIdExists "schema:cord:m29050x6e6a52822cf288fe"
                     (start empty_ledger)) = Ok false)
    by (vm_compute; reflexivity).
  split; [exact Q|].
  exact (doesSchemaIdExists_predicts_dispatch
           (start empty_ledger) built_person _ alice false eq_refl Q).
Defined.

(** Merging the two versions and deleting [Index]. *)
Lemma mergeType_lookup_witness :
  js_get "Balance" (mergeType types_v1 types_v2 ["Index"]) = Some (JStr "u128")
  /\ js_get "Address" (mergeType types_v1 types_v2 ["Index"]) = Some (JStr "AccountId")
  /\ js_get "Index" (mergeType types_v1 types_v2 ["Index"]) = None.
Proof.
  split; [|split].
  - apply (mergeType_lookup types_v1 types_v2 ["Index"] "Balance"); reflexivity.
  - apply (mergeType_lookup types_v1 types_v2 ["Index"] "Address"); reflexivity.
  - apply (mergeType_lookup types_v1 types_v2 ["Index"] "Index"); reflexivity.
Defined.

(** The Person schema builds; its built record declares the derived
    [$id] and builds to itself. *)
Lemma buildFromProperties_shape_witness :
  js_get "$id" built_person = Some (JStr (uri (getUriForSchema built_person)))
  /\ js_get "additionalProperties" built_person = Some (JBool false)
  /\ details_digest built_details = getHashForSchema built_person.
Proof.
  assert (B : buildFromProperties person alice = Ok built_details)
    by (vm_compute; reflexivity).
  pose proof (buildFromProperties_shape person alice built_details eq_refl B)
    as (_ & I & _ & A & _ & D & _).
  split; [exact I | split; [exact A | exact D]].
Defined.

Lemma buildFromProperties_idempotent_witness :
  buildFromProperties built_person alice = Ok built_details
  /\ buildFromProperties built_nested_person alice = Ok built_nested_details.
Proof.
  assert (B : buildFromProperties person alice = Ok built_details)
    by (vm_compute; reflexivity).
  assert (N : buildFromProperties nested_person alice = Ok built_nested_details)
    by (vm_compute; reflexivity).
  split.
  - exact (buildFromProperties_idempotent person alice built_details eq_refl B).
  - exact (buildFromProperties_idempotent nested_person alice built_nested_details
             eq_refl N).
Defined.

(** A schema with an object-typed property builds; with a number for
    a title the build fails on the structure. *)
Lemma buildFromProperties_outcome_witness :
  buildFromProperties nested_person alice = Ok built_nested_details
  /\ buildFromProperties (js_set "title" (JNum 5) person) alice = Throw unverifiable.
Proof.
  split.
  - destruct (buildFromProperties_outcome nested_person alice eq_refl) as [[built B] | T].
    + rewrite B. vm_compute in B. injection B as <-. reflexivity.
    + vm_compute in T. discriminate T.
  - destruct (buildFromProperties_outcome (js_set "title" (JNum 5) person) alice eq_refl)
      as [[built B] | T].
    + vm_compute in B. discriminate B.
    + exact T.
Defined.

(** The reversed records are schemas like the records themselves. *)
Lemma validation_ignores_key_order_witness :
  isISchema (JObj built_person_reversed) = true
  /\ isISchema (JObj (rev built_nested_person)) = true
  /\ verifySchemaMetadata (JObj built_person_reversed)
     = verifySchemaMetadata (JObj built_person).
Proof.
  pose proof (validation_ignores_key_order
                (JObj built_person) (JObj built_person_reversed)
                (kp_keys _ _ (Permutation_rev built_person)))
    as (_ & _ & _ & M & I).
  pose proof (validation_ignores_key_order
                (JObj built_nested_person) (JObj (rev built_nested_person))
                (kp_keys _ _ (Permutation_rev built_nested_person)))
    as (_ & _ & _ & _ & I').
  split; [rewrite <- I; vm_compute; reflexivity|].
  split; [rewrite <- I'; vm_compute; reflexivity | symmetry; exact M].
Defined.

(** The metadata of the Person schema passes, and is no schema. *)
Lemma verifySchemaMetadata_accepts_only_witness :
  verifySchemaMetadata person_metadata = Ok tt
  /\ verifyDataStructure person_metadata = Throw unverifiable.
Proof.
  assert (M : verifySchemaMetadata person_metadata = Ok tt) by (vm_compute; reflexivity).
  split; [exact M|].
  exact (proj2 (verifySchemaMetadata_accepts_only person_metadata M)).
Defined.

(** The Person payload filed under another identifier is returned
    under that identifier: the record passes [verifyDataStructure], and
    [verifySchemaStructure] refuses its [$id]. *)
Lemma fetchFromChain_returns_checked_record_witness :
  exists details,
    fst (fetchFromChain "schema:cord:m2905elsewhere" (start misfiled_ledger))
    = Done (Some details)
    /\ isISchema (JObj (details_schema details)) = true
    /\ js_get "$id" (details_schema details) = Some (JStr "schema:cord:m2905elsewhere")
    /\ verifySchemaStructure (details_schema details)
       = Throw (id_mismatch (details_schema details)).
Proof.
  assert (F : fst (fetchFromChain "schema:cord:m2905elsewhere" (start misfiled_ledger))
              = Done (Some
                  {| details_schema :=
                       ("$id", JStr "schema:cord:m2905elsewhere")
                       :: own_fields (sortObj (JObj (js_rest "$id" built_person)));
                     details_digest := "0x7c9d17b86f8a85a6";
                     details_creatorUri := "did:cord:33xAlice" |}))
    by (vm_compute; reflexivity).
  eexists. split; [exact F|].
  destruct (fetchFromChain_returns_checked_record _ _ _ F)
    as (identifier & stored & decoded & _ & _ & _ & _ & _ & _ & V & _).
  split; [exact V|]. split; vm_compute; reflexivity.
Defined.

(** On the ledger where Alice anchored the Person schema, the schema
    is read back with its keys sorted. *)
Lemma schema_payload_round_trip_witness :
  schemaInputFromChain (encodeCborSchema built_person)
    "schema:cord:m29050x6e6a52822cf288fe"
  = Done (("$id", JStr "schema:cord:m29050x6e6a52822cf288fe")
          :: own_fields (sortObj (JObj (js_rest "$id" built_person))))
  /\ schemaInputFromChain (encodeCborSchema built_nested_person)
       "schema:cord:m29050xfaed8296edacbcb3"
     = Done (("$id", JStr "schema:cord:m29050xfaed8296edacbcb3")
             :: own_fields (sortObj (JObj (js_rest "$id" built_nested_person))))
  /\ fst (fetchFromChain "schema:cord:m29050x6e6a52822cf288fe"
            (snd (dispatchToChain built_person alice (start empty_ledger))))
     = Done (Some
         {| details_schema :=
              ("$id", JStr "schema:cord:m29050x6e6a52822cf288fe")
              :: own_fields (sortObj (JObj (js_rest "$id" built_person)));
            details_digest := "0x7c9d17b86f8a85a6";
            details_creatorUri := "did:cord:33xAlice" |}).
Proof.
  split; [|split; [|vm_compute; reflexivity]].
  - apply (schema_payload_round_trip built_person
             "schema:cord:m29050x6e6a52822cf288fe");
      vm_compute; reflexivity.
  - apply (schema_payload_round_trip built_nested_person
             "schema:cord:m29050xfaed8296edacbcb3");
      vm_compute; reflexivity.
Defined.

(** A blob that is no JSON text is stringified, hashed and encoded. *)
Lemma namespaceCreateProperties_outcome_witness :
  exists created,
    namespaceCreateProperties alice None (Some "hello") = Done created
    /\ create_digest created = blake2AsHex_text (JSON_stringify (JStr "hello"))
    /\ getUriForAuthorization (create_uri created) alice alice
       = Ok (create_authorizationUri created).
Proof.
  assert (L : isBlobSerialized (JStr (JSON_stringify (JStr (as_string (Some "hello")))))
              = true) by (vm_compute; reflexivity).
  destruct (namespaceCreateProperties alice None (Some "hello")) as [created | e] eqn:E;
    [|vm_compute in E; discriminate E].
  exists created. split; [reflexivity|].
  destruct (namespaceCreateProperties_outcome alice None (Some "hello") L) as [R _].
  destruct (R created E) as (_ & D & _ & _ & A).
  split; [exact D | exact A].
Defined.

(** A digest that is not the hash of the blob is taken as it is. *)
Lemma supplied_digest_is_not_checked_witness :
  match namespaceCreateProperties alice (Some "0xabcd") (Some "{}"),
        namespaceCreateProperties alice (Some "0xabcd") None with
  | Done created, Done created' =>
      create_digest created = "0xabcd" /\ create_uri created = create_uri created'
  | _, _ => False
  end.
Proof.
  pose proof (supplied_digest_is_not_checked alice "0xabcd" (Some "{}") None) as S.
  destruct (namespaceCreateProperties alice (Some "0xabcd") (Some "{}")) eqn:E1;
    [|vm_compute in E1; discriminate E1].
  destruct (namespaceCreateProperties alice (Some "0xabcd") None) eqn:E2;
    [|vm_compute in E2; discriminate E2].
  destruct S as (D & _ & U & _); [discriminate | reflexivity | reflexivity |].
  split; [exact D | exact U].
Defined.

Lemma created_blob_decodes_witness :
  exists created cborBlob,
    namespaceCreateProperties alice None (Some "{}") = Done created
    /\ create_blob created = Some cborBlob
    /\ decodeCborToStringifiedBlob cborBlob = Ok (JStr "{}").
Proof.
  destruct (namespaceCreateProperties alice None (Some "{}")) as [created | e] eqn:E;
    [|vm_compute in E; discriminate E].
  destruct (created_blob_decodes alice None "{}" created) as (cborBlob & B & _ & _ & D);
    try (vm_compute; reflexivity); try discriminate; [exact E|].
  exists created, cborBlob. split; [reflexivity|]. split; [exact B|].
  apply D. vm_compute. reflexivity.
Defined.

(** The default service goes to the chain without its [#] and comes
    back as it was; written without the [#], it comes back with it. *)
Lemma service_round_trip_witness :
  exists endpoint,
    serviceToChain my_service = Done endpoint
    /\ serviceToChain my_service_bare = Done endpoint
    /\ endpoint_id endpoint = "my-service"
    /\ serviceFromChain (Some endpoint) = Ok my_service.
Proof.
  assert (T : serviceToChain my_service
              = Done {| endpoint_id := "my-service";
                        endpoint_serviceTypes := ["service-type"];
                        endpoint_urls := ["https://www.example.com"] |})
    by (vm_compute; reflexivity).
  eexists. split; [exact T|]. split; [vm_compute; reflexivity|].
  destruct (service_round_trip _ _ T) as (_ & I & _ & _ & restored & F & _ & _ & _ & _ & S).
  split; [exact I|].
  rewrite F. f_equal. apply S. reflexivity.
Defined.
End MoreEvaluation.
